(** * limare texture construction: swizzle, mip chain, layout and descriptor

    A shallow embedding of [limare/lib/texture.c], and the properties of
    its five parts: the index mapper, the layout planner, the swizzle
    encoder, the mip generator and the descriptor packer.

    Conventions of the embedding:
    - a C [int] is a [Z]. Signed overflow is undefined in C, so the [int]
      arithmetic of the source is written with the unbounded operations of
      [Z]; [>>] on a negative value is the arithmetic shift, as [Z.shiftr].
      For dimensions of 0..4096 no size leaves the [int] range
      ([sizes_sum_bound]);
    - a descriptor word is a 32-bit [unsigned int]: a [Z] reduced by [u32]
      after every operation that can leave the 32-bit range;
    - an address, CPU or physical, is a [Z]; the planner adds offsets to the
      arena's base addresses without wrap-around, and the descriptor packer
      is stated for physical addresses that fit in 32 bits;
    - an [unsigned char] is a [Z] reduced by [u8] when it is stored;
    - CPU memory is a total map from addresses to bytes; the source pixel
      buffer is a read-only map from byte offsets to bytes, held apart from
      CPU memory;
    - a loop [for (i = lo; i < hi; i++)] is [for_range lo hi];
    - [printf], [calloc] and [free] leave no trace: a texture that is freed
      is simply not returned. *)

From Stdlib Require Import ZArith List Bool Lia.
From stdpp Require Import base list.
Import ListNotations.

Local Open Scope Z_scope.

(** ** Machine integers *)

Definition u32 (z : Z) : Z := z mod 2 ^ 32.
Definition u8 (z : Z) : Z := z mod 2 ^ 8.

(** Modelled from the spec: the [ALIGN] macro, declared in a header that is
    not part of the sources at hand; the spec's [align(v, a)] rounds [v] up
    to a multiple of the power of two [a]. *)
Definition ALIGN (x y : Z) : Z := Z.land (x + (y - 1)) (Z.lnot (y - 1)).

(** ** Loops *)

Fixpoint for_loop {A : Type} (n : nat) (i : Z) (body : Z -> A -> A) (a : A) : A :=
  match n with
  | O => a
  | S n' => for_loop n' (i + 1) body (body i a)
  end.

(** [for (i = lo; i < hi; i++) a = body i a] *)
Definition for_range {A : Type} (lo hi : Z) (body : Z -> A -> A) (a : A) : A :=
  for_loop (Z.to_nat (hi - lo)) lo body a.

(** ** Index mapper *)

Definition space_filler_indices : list Z :=
  [ 0x00; 0x01; 0x04; 0x05; 0x10; 0x11; 0x14; 0x15;
    0x40; 0x41; 0x44; 0x45; 0x50; 0x51; 0x54; 0x55 ].

(** Array read [space_filler_indices[i]]; an index outside the table has no
    defined value in C and reads as 0 here. *)
Definition table_at (i : Z) : Z :=
  if (0 <=? i) && (i <? 16) then nth (Z.to_nat i) space_filler_indices 0 else 0.

Definition space_filler_index (x y : Z) : Z :=
  Z.lor (table_at (Z.lxor y x)) (Z.shiftl (table_at y) 1).

(** The generator quoted in the source comment above the table. *)
Definition spread_bits (i : Z) : Z :=
  Z.lor (Z.lor (Z.lor (Z.shiftl (Z.land i 0x8) 3) (Z.shiftl (Z.land i 0x4) 2))
               (Z.shiftl (Z.land i 0x2) 1))
        (Z.shiftl (Z.land i 0x1) 0).

(** Inverse of the index mapper: de-interleave the even and odd bits. *)
Definition gather_bits (v : Z) : Z :=
  Z.lor (Z.lor (Z.lor (Z.land v 1) (Z.land (Z.shiftr v 1) 2))
               (Z.land (Z.shiftr v 2) 4))
        (Z.land (Z.shiftr v 3) 8).

Definition space_filler_coords (idx : Z) : Z * Z :=
  let y := gather_bits (Z.shiftr idx 1) in
  (Z.lxor (gather_bits idx) y, y).

(** ** Data model *)

(** Modelled from the spec: [struct limare_state] is declared in a header
    that is not part of the sources at hand; only the four arena fields
    that [texture.c] reads or writes are kept (CPU base address, physical
    base address, used offset, total size). *)
Record limare_state : Type := mk_state {
  aux_mem_address : Z;
  aux_mem_physical : Z;
  aux_mem_used : Z;
  aux_mem_size : Z
}.

(** Modelled from the spec: [struct texture_level] and [struct texture] are
    declared in [texture.h], which is not part of the sources at hand. The
    fields are the ones [texture.c] uses; the level array has one entry per
    level 0..12 and the descriptor has 16 words of 32 bits. *)
Record texture_level : Type := mk_level {
  lvl_level : Z;
  lvl_width : Z;
  lvl_height : Z;
  lvl_size : Z;
  lvl_dest : Z;
  lvl_mem_physical : Z
}.

Record texture : Type := mk_texture {
  width : Z;
  height : Z;
  format : Z;
  levels : Z;
  level : list texture_level;
  descriptor : list Z
}.

(** Modelled from the spec: the lengths of the two arrays of
    [struct texture] (levels 0..12; 16 descriptor words). *)
Definition LEVEL_CAPACITY : nat := 13.
Definition DESCRIPTOR_WORDS : nat := 16.

Definition zero_level : texture_level := mk_level 0 0 0 0 0 0.

#[global] Instance texture_level_inhabited : Inhabited texture_level :=
  populate zero_level.

(** [calloc(1, sizeof(struct texture))] *)
Definition calloc_texture : texture :=
  mk_texture 0 0 0 0 (replicate LEVEL_CAPACITY zero_level)
             (replicate DESCRIPTOR_WORDS 0).

(** [texture->level[i]] and [texture->descriptor[k]], read and written. *)
Definition level_at (t : texture) (i : Z) : texture_level :=
  level t !!! Z.to_nat i.

Definition set_level (t : texture) (i : Z) (l : texture_level) : texture :=
  mk_texture (width t) (height t) (format t) (levels t)
             (<[Z.to_nat i := l]> (level t)) (descriptor t).

Definition desc_at (t : texture) (k : nat) : Z := descriptor t !!! k.

Definition set_desc (t : texture) (k : nat) (v : Z) : texture :=
  mk_texture (width t) (height t) (format t) (levels t) (level t)
             (<[k := v]> (descriptor t)).

(** [descriptor[k] &= v] and [descriptor[k] |= v] on 32-bit words. *)
Definition desc_and (t : texture) (k : nat) (v : Z) : texture :=
  set_desc t k (u32 (Z.land (desc_at t k) v)).

Definition desc_or (t : texture) (k : nat) (v : Z) : texture :=
  set_desc t k (u32 (Z.lor (desc_at t k) v)).

(** ** Memory *)

Definition mem : Type := Z -> Z.

(** [p[0] = v] for an [unsigned char *p]. *)
Definition store (m : mem) (a v : Z) : mem :=
  fun a' => if a' =? a then u8 v else m a'.

Definition mem_bytes (m : mem) : Prop := forall a, 0 <= m a < 256.

(** ** Swizzle encoder *)

Definition texture_24_swizzle (t : texture) (pixels : Z -> Z) (m : mem) : mem :=
  let block_pitch := Z.shiftr (ALIGN (width t) 16) 4 in
  let source_pitch := ALIGN (width t * 3) 4 in
  for_range 0 (height t) (fun y m =>
    let block_y := Z.shiftr y 4 in
    let rem_y := Z.land y 0x0F in
    for_range 0 (width t) (fun x m =>
      let block_x := Z.shiftr x 4 in
      let rem_x := Z.land x 0x0F in
      let index := space_filler_index rem_x rem_y in
      let source := y * source_pitch + 3 * x in
      let dest := lvl_dest (level_at t 0)
                  + (3 * 256) * (block_y * block_pitch + block_x)
                  + 3 * index in
      let m := store m dest (pixels source) in
      let m := store m (dest + 1) (pixels (source + 1)) in
      store m (dest + 2) (pixels (source + 2))) m) m.

(** ** Mip generator *)

(** [dest[c] = (source[c] + source[c + k]) / 2] for c = 0, 1, 2, in order. *)
Definition average2 (m : mem) (dest source k : Z) : mem :=
  let m := store m dest (Z.quot (m source + m (source + k)) 2) in
  let m := store m (dest + 1) (Z.quot (m (source + 1) + m (source + 1 + k)) 2) in
  store m (dest + 2) (Z.quot (m (source + 2) + m (source + 2 + k)) 2).

(** [dest[c] = (source[c] + source[c+3] + source[c+6] + source[c+9]) / 4] *)
Definition average4 (m : mem) (dest source : Z) : mem :=
  let m := store m dest
             (Z.quot (m source + m (source + 3) + m (source + 6) + m (source + 9)) 4) in
  let m := store m (dest + 1)
             (Z.quot (m (source + 1) + m (source + 4) + m (source + 7) + m (source + 10)) 4) in
  store m (dest + 2)
        (Z.quot (m (source + 2) + m (source + 5) + m (source + 8) + m (source + 11)) 4).

Definition texture_24_mipmap (dst src : texture_level) (m : mem) : mem :=
  let block_pitch := Z.shiftr (ALIGN (lvl_width dst) 16) 4 in
  let source_pitch := Z.shiftr (ALIGN (lvl_width src) 16) 4 in
  if lvl_width src =? 1 then
    for_range 0 (lvl_height dst) (fun y m =>
      let block_y := Z.shiftr y 4 in
      let dy := Z.land y 0x0F in
      let source_y := Z.shiftr y 3 in
      let offset := space_filler_index 0 dy in
      let dest := lvl_dest dst + (3 * 256) * (block_pitch * block_y) + 3 * offset in
      let source := lvl_dest src + (3 * 256) * (source_pitch * source_y)
                    + 3 * Z.land (Z.shiftl offset 2) 0xFF in
      average2 m dest source 9) m
  else if lvl_height src =? 1 then
    for_range 0 (lvl_width dst) (fun x m =>
      let block_x := Z.shiftr x 4 in
      let dx := Z.land x 0x0F in
      let source_x := Z.shiftr x 3 in
      let offset := space_filler_index dx 0 in
      let dest := lvl_dest dst + (3 * 256) * block_x + 3 * offset in
      let source := lvl_dest src + (3 * 256) * source_x
                    + 3 * Z.land (Z.shiftl offset 2) 0xFF in
      average2 m dest source 3) m
  else
    for_range 0 (lvl_height dst) (fun y m =>
      let block_y := Z.shiftr y 4 in
      let dy := Z.land y 0x0F in
      let source_y := Z.shiftr y 3 in
      for_range 0 (lvl_width dst) (fun x m =>
        let block_x := Z.shiftr x 4 in
        let dx := Z.land x 0x0F in
        let source_x := Z.shiftr x 3 in
        let offset := space_filler_index dx dy in
        let dest := lvl_dest dst
                    + (3 * 256) * (block_pitch * block_y + block_x)
                    + 3 * offset in
        let source := lvl_dest src
                      + (3 * 256) * (source_pitch * source_y + source_x)
                      + 3 * Z.land (Z.shiftl offset 2) 0xFF in
        average4 m dest source) m) m.

(** ** Layout planner *)

(** Body of the first loop of [texture_24_create]: the dimensions and byte
    size of level [i], and the running total [size]. The source computes
    [width * 3], [pitch * height] and [size += ...] in [int]; here they are
    computed in [Z]. The two agree as long as no value leaves the range of
    [int], which is the case for a width and a height of 0..4096 and at
    most 13 levels (lemma [sizes_sum_bound]); beyond that the [int]
    arithmetic of the source overflows, which this definition does not
    follow. *)
Definition texture_24_create_size (i : Z) (acc : texture * Z) : texture * Z :=
  let '(t, size) := acc in
  let lw := Z.shiftr (width t) i in
  let lh := Z.shiftr (height t) i in
  let lw := if lw =? 0 then 1 else lw in
  let lh := if lh =? 0 then 1 else lh in
  let w := ALIGN lw 16 in
  let h := ALIGN lh 16 in
  let pitch := ALIGN (w * 3) 4 in
  let sz := ALIGN (pitch * h) 0x400 in
  let old := level_at t i in
  (set_level t i (mk_level i lw lh sz (lvl_dest old) (lvl_mem_physical old)),
   size + sz).

(** Body of the second loop: the addresses of level [i], and the bump of
    [aux_mem_used]. *)
Definition texture_24_create_reserve (i : Z) (acc : limare_state * texture)
    : limare_state * texture :=
  let '(state, t) := acc in
  let l := level_at t i in
  let l := mk_level (lvl_level l) (lvl_width l) (lvl_height l) (lvl_size l)
                    (aux_mem_address state + aux_mem_used state)
                    (aux_mem_physical state + aux_mem_used state) in
  (mk_state (aux_mem_address state) (aux_mem_physical state)
            (aux_mem_used state + lvl_size l) (aux_mem_size state),
   set_level t i l).

(** The result is the returned [int], the arena state, the texture and the
    memory after the call. *)
Definition texture_24_create (state : limare_state) (t : texture)
    (src : Z -> Z) (m : mem) : Z * limare_state * texture * mem :=
  let '(t, size) := for_range 0 (levels t) texture_24_create_size (t, 0) in
  if aux_mem_size state - aux_mem_used state <? size then
    (-1, state, t, m)
  else
    let '(state, t) :=
      for_range 0 (levels t) texture_24_create_reserve (state, t) in
    let m := texture_24_swizzle t src m in
    let m :=
      for_range 1 (levels t) (fun i m =>
        texture_24_mipmap (level_at t i) (level_at t (i - 1)) m) m in
    (0, state, t, m).

(** ** Descriptor packer *)

Definition texture_descriptor_level_attach (t : texture) (i : Z) : texture :=
  let p := lvl_mem_physical (level_at t i) in
  match i with
  | 0 =>
      let t := desc_and t 6 (Z.lnot 0xC0000000) in
      let t := desc_or t 6 (u32 (Z.shiftl p 24)) in
      let t := desc_and t 7 (Z.lnot 0x00FFFFFF) in
      desc_or t 7 (Z.shiftr p 8)
  | 1 =>
      let t := desc_and t 7 (Z.lnot 0xFF000000) in
      let t := desc_or t 7 (u32 (Z.shiftl p 18)) in
      let t := desc_and t 8 (Z.lnot 0x0003FFFF) in
      desc_or t 8 (Z.shiftr p 14)
  | 2 =>
      let t := desc_and t 8 (Z.lnot 0xFFFC0000) in
      let t := desc_or t 8 (u32 (Z.shiftl p 12)) in
      let t := desc_and t 9 (Z.lnot 0x00000FFF) in
      desc_or t 9 (Z.shiftr p 20)
  | 3 =>
      let t := desc_and t 9 (Z.lnot 0xFFFFF000) in
      let t := desc_or t 9 (u32 (Z.shiftl p 6)) in
      let t := desc_and t 10 (Z.lnot 0x0000003F) in
      desc_or t 10 (Z.shiftr p 26)
  | 4 =>
      let t := desc_and t 10 (Z.lnot 0xFFFFFFC0) in
      desc_or t 10 p
  | 5 =>
      let t := desc_and t 11 (Z.lnot 0x03FFFFFF) in
      desc_or t 11 (Z.shiftr p 6)
  | 6 =>
      let t := desc_and t 11 (Z.lnot 0xFC000000) in
      let t := desc_or t 11 (u32 (Z.shiftl p 20)) in
      let t := desc_and t 12 (Z.lnot 0x000FFFFF) in
      desc_or t 12 (Z.shiftr p 12)
  | 7 =>
      let t := desc_and t 12 (Z.lnot 0xFFF00000) in
      let t := desc_or t 12 (u32 (Z.shiftl p 14)) in
      let t := desc_and t 13 (Z.lnot 0x00003FFF) in
      desc_or t 13 (Z.shiftr p 18)
  | 8 =>
      let t := desc_and t 13 (Z.lnot 0xFFFFC000) in
      let t := desc_or t 13 (u32 (Z.shiftl p 8)) in
      let t := desc_and t 14 (Z.lnot 0x000000FF) in
      desc_or t 14 (Z.shiftr p 24)
  | 9 =>
      let t := desc_and t 14 (Z.lnot 0xFFFFFF00) in
      let t := desc_or t 14 (u32 (Z.shiftl p 2)) in
      let t := desc_and t 15 (Z.lnot 0x03) in
      desc_or t 15 (Z.shiftr p 30)
  | 10 =>
      let t := desc_and t 15 (Z.lnot 0x0FFFFFFC) in
      desc_or t 15 (Z.shiftr p 4)
  | 11 | 12 => t
  | _ => t
  end.

Definition texture_descriptor_levels_attach (t : texture) : texture :=
  for_range 0 (levels t) (fun i t => texture_descriptor_level_attach t i) t.

(** ** Construction *)

(** [for (i = 0; max >> i; i++) ;] on a 32-bit [int]: the shift counts 0..31
    are defined; a value still non-zero at count 31 would be shifted by 32
    next, which C leaves undefined: [None]. *)
Fixpoint count_levels (fuel : nat) (max i : Z) : option Z :=
  match fuel with
  | O => None
  | S fuel' =>
      if Z.shiftr max i =? 0 then Some i else count_levels fuel' max (i + 1)
  end.

Section Construction.

(** The format selector of 24-bit packed RGB; its value is given in
    [formats.h], which is not part of the sources at hand. *)
Variable LIMA_TEXEL_FORMAT_RGB_888 : Z.

(** The result is [None] when the C execution has no defined result (see
    [count_levels]); otherwise the returned pointer ([None] for [NULL]), the
    arena state and the memory after the call. *)
Definition texture_create (state : limare_state) (m : mem) (src : Z -> Z)
    (w h fmt mipmap : Z)
    : option (option texture * limare_state * mem) :=
  let t := calloc_texture in
  let flag0 := 0 in
  let flag1 := 1 in
  let layout := 0 in
  if (w >? 4096) || (h >? 4096) then Some (None, state, m)
  else
    let t := mk_texture w h fmt (levels t) (level t) (descriptor t) in
    let lv :=
      if negb (mipmap =? 0) then
        let max := if w >? h then w else h in
        count_levels 32 max 0
      else Some 1 in
    match lv with
    | None => None
    | Some n =>
      let t := mk_texture (width t) (height t) (format t) n (level t) (descriptor t) in
      if format t =? LIMA_TEXEL_FORMAT_RGB_888 then
        let '(rc, state', t, m') := texture_24_create state t src m in
        if negb (rc =? 0) then Some (None, state', m')
        else
          let flag0 := 1 in
          let flag1 := 0 in
          let layout := 3 in
          let t := set_desc t 0
                     (u32 (Z.lor (Z.lor (Z.shiftl flag0 7) (Z.shiftl flag1 6)) fmt)) in
          let t := set_desc t 1 0x00000400 in
          let t := set_desc t 2 (u32 (Z.shiftl w 22)) in
          let t := set_desc t 3
                     (u32 (Z.lor (Z.lor 0x10000 (Z.shiftl h 3)) (Z.shiftr w 10))) in
          let t := set_desc t 6 (u32 (Z.shiftl layout 13)) in
          Some (Some (texture_descriptor_levels_attach t), state', m')
      else Some (None, state, m)
    end.

End Construction.

(** ** Quantities used in the statements *)

(** The integers 0 .. n-1, for checks by enumeration. *)
Definition zrange (n : nat) : list Z := map Z.of_nat (seq 0 n).

(** Dimension of level [i]: [d >> i], replaced by 1 when it is 0. *)
Definition level_dim (d i : Z) : Z :=
  let v := Z.shiftr d i in if v =? 0 then 1 else v.

(** Byte size of a level of [w] x [h] texels. *)
Definition level_bytes (w h : Z) : Z :=
  ALIGN (ALIGN (ALIGN w 16 * 3) 4 * ALIGN h 16) 0x400.

Definition planned_size (w h i : Z) : Z :=
  level_bytes (level_dim w i) (level_dim h i).

(** Sum of the sizes of levels 0 .. n-1. *)
Fixpoint sizes_sum (w h : Z) (n : nat) : Z :=
  match n with
  | O => 0
  | S n' => sizes_sum w h n' + planned_size w h (Z.of_nat n')
  end.

(** The level entry the planner writes for level [i] when the arena stands
    at [state] before the call. *)
Definition planned_level (state : limare_state) (w h i : Z) : texture_level :=
  mk_level i (level_dim w i) (level_dim h i) (planned_size w h i)
           (aux_mem_address state + aux_mem_used state + sizes_sum w h (Z.to_nat i))
           (aux_mem_physical state + aux_mem_used state + sizes_sum w h (Z.to_nat i)).

(** Byte offset, inside a level [lw] texels wide, of texel (x, y): the tile
    of 16 x 16 texels it lies in, then its index inside the tile. *)
Definition texel_offset (lw x y : Z) : Z :=
  (3 * 256) * (Z.shiftr y 4 * Z.shiftr (ALIGN lw 16) 4 + Z.shiftr x 4)
  + 3 * space_filler_index (Z.land x 0x0F) (Z.land y 0x0F).

(** Channel [c] of texel (x, y) of level [l] in memory [m]. *)
Definition texel (m : mem) (l : texture_level) (x y c : Z) : Z :=
  m (lvl_dest l + texel_offset (lvl_width l) x y + c).

(** The level count [texture_create] computes. *)
Definition requested_levels (w h mipmap : Z) : option Z :=
  if negb (mipmap =? 0) then count_levels 32 (if w >? h then w else h) 0
  else Some 1.

(** The address field of each level in the descriptor, as the masks and
    shifts of [texture_descriptor_level_attach] give it: word, mask of the
    bits written, and the distance [d] such that bit [b] of the word holds
    bit [b + d] of the address. *)
Definition level_field (i : Z) : list (nat * Z * Z) :=
  match i with
  | 0 => [(6%nat, 0xC0000000, -24); (7%nat, 0x00FFFFFF, 8)]
  | 1 => [(7%nat, 0xFF000000, -18); (8%nat, 0x0003FFFF, 14)]
  | 2 => [(8%nat, 0xFFFC0000, -12); (9%nat, 0x00000FFF, 20)]
  | 3 => [(9%nat, 0xFFFFF000, -6); (10%nat, 0x0000003F, 26)]
  | 4 => [(10%nat, 0xFFFFFFC0, 0)]
  | 5 => [(11%nat, 0x03FFFFFF, 6)]
  | 6 => [(11%nat, 0xFC000000, -20); (12%nat, 0x000FFFFF, 12)]
  | 7 => [(12%nat, 0xFFF00000, -14); (13%nat, 0x00003FFF, 18)]
  | 8 => [(13%nat, 0xFFFFC000, -8); (14%nat, 0x000000FF, 24)]
  | 9 => [(14%nat, 0xFFFFFF00, -2); (15%nat, 0x03, 30)]
  | 10 => [(15%nat, 0x0FFFFFFC, 4)]
  | _ => []
  end.

(** The address bit held by bit [b] of word [k] under level [i]'s rule, or
    [None] when that bit is outside the level's field. *)
Fixpoint field_lookup (f : list (nat * Z * Z)) (k : nat) (b : Z) : option Z :=
  match f with
  | [] => None
  | (k', mask, d) :: f' =>
      if Nat.eqb k k' && Z.testbit mask b then Some (b + d)
      else field_lookup f' k b
  end.

Definition field_bit (i : Z) (k : nat) (b : Z) : option Z :=
  field_lookup (level_field i) k b.

(** A field rule keeps inside its mask: a bit of the word outside the mask
    would receive an address bit below bit 10 or above bit 31. *)
Definition rule_ok (mask d : Z) : bool :=
  forallb (fun b => Z.testbit mask b || (b + d <? 10) || (32 <=? b + d))
          (zrange 32).

(** The three error kinds the specification names, and the kind a failing
    request falls under, read off the three places where [texture_create]
    gives up (in the order the source tests them). The capacity test is the
    one of [texture_24_create] for non-negative dimensions, where the sum
    of the level sizes stays in the range of [int]. *)
Inductive error_kind : Type :=
  | InvalidDimension
  | UnsupportedFormat
  | OutOfMemory.

Definition failure_cause (rgb_888 : Z) (state : limare_state)
    (w h fmt mipmap : Z) : option error_kind :=
  if (w >? 4096) || (h >? 4096) then Some InvalidDimension
  else
    match requested_levels w h mipmap with
    | Some n =>
        if negb (fmt =? rgb_888) then Some UnsupportedFormat
        else if aux_mem_size state - aux_mem_used state
                <? sizes_sum w h (Z.to_nat n)
        then Some OutOfMemory else None
    | None => None
    end.

(** The texture header [texture_create] hands to the planner. *)
Definition new_texture (w h fmt n : Z) : texture :=
  mk_texture w h fmt n (level calloc_texture) (descriptor calloc_texture).

(** The descriptor words [texture_create] writes before the level
    addresses are attached. *)
Definition descriptor_header (t : texture) (w h fmt : Z) : texture :=
  let t := set_desc t 0 (u32 (Z.lor (Z.lor (Z.shiftl 1 7) (Z.shiftl 0 6)) fmt)) in
  let t := set_desc t 1 0x00000400 in
  let t := set_desc t 2 (u32 (Z.shiftl w 22)) in
  let t := set_desc t 3
             (u32 (Z.lor (Z.lor 0x10000 (Z.shiftl h 3)) (Z.shiftr w 10))) in
  set_desc t 6 (u32 (Z.shiftl 3 13)).

(** The arena after a successful construction of [n] levels. *)
Definition advanced (state : limare_state) (w h n : Z) : limare_state :=
  mk_state (aux_mem_address state) (aux_mem_physical state)
           (aux_mem_used state + sizes_sum w h (Z.to_nat n))
           (aux_mem_size state).

(** Two textures that differ at most in their descriptor. *)
Definition same_levels (t t' : texture) : Prop :=
  width t' = width t /\ height t' = height t /\ format t' = format t /\
  levels t' = levels t /\ level t' = level t.

(** ** The planner, loop by loop *)

(** What the first loop of [texture_24_create] has done after [n] rounds. *)
Definition sized (t : texture) (n : nat) (r : texture * Z) : Prop :=
  width (fst r) = width t /\ height (fst r) = height t /\
  format (fst r) = format t /\ levels (fst r) = levels t /\
  descriptor (fst r) = descriptor t /\
  length (level (fst r)) = length (level t) /\
  snd r = sizes_sum (width t) (height t) n /\
  (forall j, 0 <= j < Z.of_nat n ->
     level_at (fst r) j =
       mk_level j (level_dim (width t) j) (level_dim (height t) j)
                (planned_size (width t) (height t) j)
                (lvl_dest (level_at t j)) (lvl_mem_physical (level_at t j))) /\
  (forall j, Z.of_nat n <= j -> level_at (fst r) j = level_at t j).

(** What the second loop has done after [n] rounds, when the first loop
    has run over the same levels of a texture of [w] x [h] texels. *)
Definition reserved (state : limare_state) (w h : Z) (t : texture) (n : nat)
    (r : limare_state * texture) : Prop :=
  fst r = mk_state (aux_mem_address state) (aux_mem_physical state)
                   (aux_mem_used state + sizes_sum w h n) (aux_mem_size state) /\
  width (snd r) = width t /\ height (snd r) = height t /\
  format (snd r) = format t /\ levels (snd r) = levels t /\
  descriptor (snd r) = descriptor t /\
  length (level (snd r)) = length (level t) /\
  (forall j, 0 <= j < Z.of_nat n -> level_at (snd r) j = planned_level state w h j) /\
  (forall j, Z.of_nat n <= j -> level_at (snd r) j = level_at t j).

(** The levels of a texture are filled from the source buffer: level 0 by
    the swizzle encoder, each further level from its predecessor. *)
Definition fill_levels (t : texture) (src : Z -> Z) (m : mem) : mem :=
  for_range 1 (levels t)
    (fun i m => texture_24_mipmap (level_at t i) (level_at t (i - 1)) m)
    (texture_24_swizzle t src m).

(** The texture the planner leaves on success. *)
Definition planned (state : limare_state) (t t' : texture) : Prop :=
  width t' = width t /\ height t' = height t /\ format t' = format t /\
  levels t' = levels t /\ descriptor t' = descriptor t /\
  length (level t') = length (level t) /\
  (forall j, 0 <= j < levels t ->
     level_at t' j = planned_level state (width t) (height t) j) /\
  (forall j, Z.max 0 (levels t) <= j -> level_at t' j = level_at t j).

(** The bytes of level [l], in CPU and in physical addresses. *)
Definition in_level_cpu (l : texture_level) (a : Z) : Prop :=
  lvl_dest l <= a < lvl_dest l + lvl_size l.

Definition in_level_physical (l : texture_level) (a : Z) : Prop :=
  lvl_mem_physical l <= a < lvl_mem_physical l + lvl_size l.

(** ** Mip chain *)

(** Number of 16-texel tiles that cover [d] texels. *)
Definition tiles (d : Z) : Z := (d + 15) / 16.

(** The value the mip generator gives channel [c] of texel (x, y) of
    [dst]: the truncated mean of the window of [src] that the dimensions of
    [src] select. *)
Definition box_average (m : mem) (src : texture_level) (x y c : Z) : Z :=
  if lvl_width src =? 1 then
    (texel m src 0 (2 * y) c + texel m src 0 (2 * y + 1) c) / 2
  else if lvl_height src =? 1 then
    (texel m src (2 * x) 0 c + texel m src (2 * x + 1) 0 c) / 2
  else
    (texel m src (2 * x) (2 * y) c + texel m src (2 * x + 1) (2 * y) c
     + texel m src (2 * x + 1) (2 * y + 1) c + texel m src (2 * x) (2 * y + 1) c) / 4.

(** The single source address the mip generator derives from the swizzle
    index of the destination texel (x, y). *)
Definition mip_source (src : texture_level) (x y : Z) : Z :=
  lvl_dest src
  + (3 * 256) * (Z.shiftr (ALIGN (lvl_width src) 16) 4 * Z.shiftr y 3 + Z.shiftr x 3)
  + 3 * Z.land (Z.shiftl (space_filler_index (Z.land x 0x0F) (Z.land y 0x0F)) 2) 0xFF.

(** [written m0 m l value done]: memory [m] differs from [m0] only inside
    level [l], and the texels of [l] selected by [done] hold [value]. *)
Definition written (m0 m : mem) (l : texture_level)
    (value : Z -> Z -> Z -> Z) (done : Z -> Z -> Prop) : Prop :=
  (forall a,
     ~ (lvl_dest l <= a < lvl_dest l + level_bytes (lvl_width l) (lvl_height l)) ->
     m a = m0 a) /\
  (forall x y c, done x y -> 0 <= c < 3 -> texel m l x y c = value x y c).

(** The texels of a level: all of them, and the ones in the rows before
    [y] or in row [y] before column [x]. *)
Definition all_texels (l : texture_level) (x y : Z) : Prop :=
  0 <= x < lvl_width l /\ 0 <= y < lvl_height l.

Definition texels_before (l : texture_level) (x0 y0 x y : Z) : Prop :=
  0 <= x < lvl_width l /\ 0 <= y /\ (y < y0 \/ (y = y0 /\ x < x0)).

(** Memory [m] agrees with [m0] outside level [l]. *)
Definition level_frame (m0 : mem) (l : texture_level) (m : mem) : Prop :=
  forall a,
    ~ (lvl_dest l <= a < lvl_dest l + level_bytes (lvl_width l) (lvl_height l)) ->
    m a = m0 a.

(** Invariant of the loops of the mip generator: the texels before (x, y)
    hold their mean. *)
Definition mip_inv (m0 : mem) (dst src : texture_level) (x y : Z) (m : mem) : Prop :=
  mem_bytes m /\
  written m0 m dst (box_average m0 src) (texels_before dst x y).

(** The byte the swizzle encoder stores in channel [c] of texel (x, y). *)
Definition swizzle_value (t : texture) (pixels : Z -> Z) (x y c : Z) : Z :=
  u8 (pixels (y * ALIGN (width t * 3) 4 + 3 * x + c)).

(** Start of level [j] in the arena, in CPU addresses. *)
Definition level_start (state : limare_state) (w h j : Z) : Z :=
  aux_mem_address state + aux_mem_used state + sizes_sum w h (Z.to_nat j).

(** Invariant of the mip chain before level [i] is generated: memory is
    made of bytes, only levels 1 .. i-1 have been written since the swizzle
    encoder left memory [m1], and each of them holds the means of its
    predecessor. *)
Definition chain_inv (state : limare_state) (w h : Z) (m1 : mem) (i : Z) (m : mem)
    : Prop :=
  mem_bytes m /\
  (forall a, a < level_start state w h 1 \/ level_start state w h i <= a ->
             m a = m1 a) /\
  (forall j x y c, 1 <= j < i ->
     all_texels (planned_level state w h j) x y -> 0 <= c < 3 ->
     texel m (planned_level state w h j) x y c
     = box_average m (planned_level state w h (j - 1)) x y c).

(** ** Sample inputs *)

(** An arena of 64 KiB at CPU address 0x10000 and physical address
    0x40000000, of which 2 KiB are in use. *)
Definition sample_state : limare_state := mk_state 0x10000 0x40000000 0x800 0x10000.

(** The same arena with only 1 KiB left. *)
Definition full_state : limare_state := mk_state 0x10000 0x40000000 0xFC00 0x10000.

(** A freshly allocated texture header for [w] x [h] texels and [n] levels. *)
Definition sample_texture (w h n : Z) : texture :=
  mk_texture w h 0 n (level calloc_texture) (descriptor calloc_texture).

Definition zero_mem : mem := fun _ => 0.

(** An empty arena of 1 MiB. *)
Definition large_state : limare_state := mk_state 0x10000 0x40000000 0 0x100000.

(** A source image in which every byte is 0x5A. *)
Definition grey_pixels : Z -> Z := fun _ => 0x5A.

(** A texture with an all-ones descriptor whose level 3 lies at physical
    address 0x40000400. *)
Definition packed_sample : texture :=
  mk_texture 64 64 0 7
    (<[3%nat := mk_level 3 8 8 1024 0x10400 0x40000400]> (level calloc_texture))
    (replicate DESCRIPTOR_WORDS 0xFFFFFFFF).

(** ** Reading a level and a descriptor back *)

(** Inverse of the address computation of the swizzle encoder: the texel
    (x, y) and the channel that the byte at offset [off] of a level [lw]
    texels wide belongs to. *)
Definition texel_coords (lw off : Z) : Z * Z * Z :=
  let tile := off / (3 * 256) in
  let idx := (off mod (3 * 256)) / 3 in
  let r := space_filler_coords idx in
  (16 * (tile mod tiles lw) + fst r, 16 * (tile / tiles lw) + snd r, off mod 3).

(** Word [k] of a descriptor, 0 beyond its end. *)
Definition descriptor_word (d : list Z) (k : Z) : Z :=
  default 0 (d !! Z.to_nat k).

(** Width, height and memory layout as a reader of the descriptor finds
    them: the width has its low 10 bits in the top of word 2 and the rest
    in the low 3 bits of word 3, the height follows in word 3 from bit 3
    on, the layout sits in word 6 from bit 13 on. *)
Definition descriptor_width (d : list Z) : Z :=
  Z.lor (Z.shiftl (Z.land (descriptor_word d 3) 7) 10)
        (Z.shiftr (descriptor_word d 2) 22).

Definition descriptor_height (d : list Z) : Z :=
  Z.land (Z.shiftr (descriptor_word d 3) 3) 0x1FFF.

Definition descriptor_layout (d : list Z) : Z :=
  Z.land (Z.shiftr (descriptor_word d 6) 13) 7.

(** The physical address of level [i] as a reader of the descriptor finds
    it: the 26 bits from bit 222 + 26 i of the descriptor on, read through
    the two words they can span, are the address bits 6..31. *)
Definition descriptor_address (d : list Z) (i : Z) : Z :=
  let g := 222 + 26 * i in
  let k := g / 32 in
  let s := g mod 32 in
  let window :=
    Z.lor (descriptor_word d k) (Z.shiftl (descriptor_word d (k + 1)) 32) in
  Z.shiftl (Z.land (Z.shiftr window s) (Z.ones 26)) 6.

(** Every word of a descriptor is a 32-bit value. *)
Definition words32 (d : list Z) : Prop :=
  forall k : nat, (k < length d)%nat -> 0 <= d !!! k < 2 ^ 32.

(** Invariant of the loop of [texture_descriptor_levels_attach] before
    level [i] is attached to [t]: the levels attached so far hold their
    address bits, every other bit of the descriptor is the one of [t]. *)
Definition attached (t : texture) (i : Z) (t' : texture) : Prop :=
  same_levels t t' /\
  length (descriptor t') = length (descriptor t) /\
  forall (k : nat) (b : Z), (k < 16)%nat -> 0 <= b < 32 ->
    let g := 32 * Z.of_nat k + b in
    Z.testbit (desc_at t' k) b =
      if (222 <=? g) && (g <? 222 + 26 * Z.min i 11)
      then Z.testbit (lvl_mem_physical (level_at t ((g - 222) / 26)))
                     ((g - 222) mod 26 + 6)
      else Z.testbit (desc_at t k) b.

(** The bytes of the texels of a level [lw] x [lh] texels at [dest]. *)
Definition texel_byte (dest lw lh a : Z) : Prop :=
  exists x y c, 0 <= x < lw /\ 0 <= y < lh /\ 0 <= c < 3 /\
                a = dest + texel_offset lw x y + c.

(** A texture whose levels 0 and 1 lie at two aligned physical addresses,
    with a descriptor of arbitrary 32-bit words. *)
Definition two_level_sample : texture :=
  mk_texture 32 32 0 2
    (<[0%nat := mk_level 0 32 32 3072 0x10000 0x40000000]>
       (<[1%nat := mk_level 1 16 16 1024 0x10C00 0x40000C00]> (level calloc_texture)))
    (replicate DESCRIPTOR_WORDS 0xA5A5A5A5).

(** * Proofs *)

(** ** Enumeration *)

Lemma zrange_In (n : nat) (i : Z) : 0 <= i < Z.of_nat n -> In i (zrange n).
Proof.
  intros H. unfold zrange. apply in_map_iff. exists (Z.to_nat i). split.
  - lia.
  - apply in_seq. lia.
Qed.

Lemma check_range (P : Z -> bool) (n : nat) :
  forallb P (zrange n) = true -> forall i, 0 <= i < Z.of_nat n -> P i = true.
Proof.
  intros H i Hi. rewrite forallb_forall in H. apply H, zrange_In, Hi.
Qed.

Lemma check_range2 (P : Z -> Z -> bool) (n k : nat) :
  forallb (fun x => forallb (P x) (zrange k)) (zrange n) = true ->
  forall x y, 0 <= x < Z.of_nat n -> 0 <= y < Z.of_nat k -> P x y = true.
Proof.
  intros H x y Hx Hy.
  apply (check_range (P x) k); [|exact Hy].
  apply (check_range (fun x => forallb (P x) (zrange k)) n H x Hx).
Qed.

(** ** Bits *)

Lemma testbit_small (a n j : Z) :
  0 <= a < 2 ^ n -> 0 <= n <= j -> Z.testbit a j = false.
Proof.
  intros Ha Hj. destruct (Z.eq_dec a 0) as [->|Hne].
  - apply Z.bits_0.
  - apply Z.bits_above_log2; [lia|].
    assert (Z.log2 a < n) by (apply Z.log2_lt_pow2; lia). lia.
Qed.

(** ** Index mapper *)

Lemma table_spread (v : Z) : 0 <= v < 16 -> table_at v = spread_bits v.
Proof.
  intros H. apply Z.eqb_eq.
  apply (check_range (fun v => table_at v =? spread_bits v) 16); [|lia].
  vm_compute. reflexivity.
Qed.

Lemma table_at_range (v : Z) : 0 <= v < 16 -> 0 <= table_at v < 2 ^ 7.
Proof.
  intros H.
  pose proof (check_range (fun v => (0 <=? table_at v) && (table_at v <? 2 ^ 7))
                16 eq_refl v ltac:(lia)) as C.
  cbv beta in C. change (2 ^ 7) with 128 in *. lia.
Qed.

Lemma table_at_bits (v k : Z) :
  0 <= v < 16 -> 0 <= k ->
  Z.testbit (table_at v) (2 * k) = Z.testbit v k /\
  Z.testbit (table_at v) (2 * k + 1) = false.
Proof.
  intros Hv Hk. destruct (Z_lt_le_dec k 4) as [Hlt|Hge].
  - pose proof (check_range2
      (fun v k => Bool.eqb (Z.testbit (table_at v) (2 * k)) (Z.testbit v k)
                  && negb (Z.testbit (table_at v) (2 * k + 1)))
      16 4 eq_refl v k ltac:(lia) ltac:(lia)) as C.
    cbv beta in C. apply andb_true_iff in C. destruct C as [C1 C2].
    apply eqb_prop in C1. apply negb_true_iff in C2. auto.
  - pose proof (table_at_range v Hv) as R.
    rewrite (testbit_small (table_at v) 7 (2 * k)) by lia.
    rewrite (testbit_small (table_at v) 7 (2 * k + 1)) by lia.
    rewrite (testbit_small v 4 k) by (change (2 ^ 4) with 16; lia).
    auto.
Qed.

Lemma space_filler_index_range (x y : Z) :
  0 <= x < 16 -> 0 <= y < 16 -> 0 <= space_filler_index x y < 256.
Proof.
  intros Hx Hy.
  pose proof (check_range2
    (fun x y => (0 <=? space_filler_index x y) && (space_filler_index x y <? 256))
    16 16 eq_refl x y ltac:(lia) ltac:(lia)) as H.
  cbv beta in H. lia.
Qed.

Lemma space_filler_coords_index (x y : Z) :
  0 <= x < 16 -> 0 <= y < 16 ->
  space_filler_coords (space_filler_index x y) = (x, y).
Proof.
  intros Hx Hy.
  pose proof (check_range2
    (fun x y => let p := space_filler_coords (space_filler_index x y) in
                (fst p =? x) && (snd p =? y))
    16 16 eq_refl x y ltac:(lia) ltac:(lia)) as H.
  cbv beta zeta in H.
  set (p := space_filler_coords (space_filler_index x y)) in *. clearbody p.
  destruct p as [a b]. cbn [fst snd] in H. f_equal; lia.
Qed.

Lemma space_filler_index_coords (i : Z) :
  0 <= i < 256 ->
  0 <= fst (space_filler_coords i) < 16 /\
  0 <= snd (space_filler_coords i) < 16 /\
  space_filler_index (fst (space_filler_coords i)) (snd (space_filler_coords i)) = i.
Proof.
  intros Hi.
  pose proof (check_range
    (fun i => let p := space_filler_coords i in
              (0 <=? fst p) && (fst p <? 16) && (0 <=? snd p) && (snd p <? 16)
              && (space_filler_index (fst p) (snd p) =? i))
    256 eq_refl i ltac:(lia)) as H.
  cbv beta zeta in H. lia.
Qed.

Lemma space_filler_index_inj (x y x' y' : Z) :
  0 <= x < 16 -> 0 <= y < 16 -> 0 <= x' < 16 -> 0 <= y' < 16 ->
  space_filler_index x y = space_filler_index x' y' -> x = x' /\ y = y'.
Proof.
  intros Hx Hy Hx' Hy' E.
  pose proof (space_filler_coords_index x y Hx Hy) as H1.
  pose proof (space_filler_coords_index x' y' Hx' Hy') as H2.
  rewrite E in H1. rewrite H1 in H2. inversion H2. auto.
Qed.

(** C5. The index mapper is a bijection between the 256 coordinate pairs
    of a 16 x 16 tile and the offsets 0..255: the table entry of [x] is [x]
    with its four bits spread to positions 0, 2, 4, 6; the index of (x, y)
    is [T[y xor x] | (T[y] << 1)] and lies in [0, 255]; equal indices come
    from equal pairs; and every offset [i] of [0, 255] is the index of a
    pair of the tile. *)
Theorem space_filler_index_bijection (x y x' y' i : Z) :
  0 <= x < 16 -> 0 <= y < 16 -> 0 <= x' < 16 -> 0 <= y' < 16 ->
  0 <= i <= 255 ->
  (forall k, 0 <= k ->
     Z.testbit (table_at x) (2 * k) = Z.testbit x k /\
     Z.testbit (table_at x) (2 * k + 1) = false) /\
  space_filler_index x y =
    Z.lor (table_at (Z.lxor y x)) (Z.shiftl (table_at y) 1) /\
  0 <= space_filler_index x y <= 255 /\
  (space_filler_index x y = space_filler_index x' y' -> x = x' /\ y = y') /\
  (exists a b, 0 <= a < 16 /\ 0 <= b < 16 /\ space_filler_index a b = i).
Proof.
  intros Hx Hy Hx' Hy' Hi.
  split; [intros k Hk; apply table_at_bits; assumption|].
  split; [reflexivity|].
  split; [pose proof (space_filler_index_range x y Hx Hy); lia|].
  split; [apply space_filler_index_inj; assumption|].
  destruct (space_filler_index_coords i ltac:(lia)) as (Ha & Hb & E).
  eauto.
Qed.

Lemma space_filler_index_bijection_witness :
  0 <= space_filler_index 3 5 <= 255 /\
  (space_filler_index 3 5 = space_filler_index 7 9 -> 3 = 7 /\ 5 = 9).
Proof.
  pose proof (space_filler_index_bijection 3 5 7 9 200
                ltac:(lia) ltac:(lia) ltac:(lia) ltac:(lia) ltac:(lia)) as H.
  split; apply H.
Defined.

(** ** Loops *)

Lemma for_loop_snoc {A : Type} (n : nat) (i : Z) (body : Z -> A -> A) (a : A) :
  for_loop (S n) i body a = body (i + Z.of_nat n) (for_loop n i body a).
Proof.
  revert i a. induction n as [|n IH]; intros i a.
  - simpl. f_equal. lia.
  - change (for_loop (S (S n)) i body a)
      with (for_loop (S n) (i + 1) body (body i a)).
    rewrite IH. simpl. f_equal. lia.
Qed.

Lemma for_range_empty {A : Type} (lo hi : Z) (body : Z -> A -> A) (a : A) :
  hi <= lo -> for_range lo hi body a = a.
Proof.
  intros H. unfold for_range. replace (Z.to_nat (hi - lo)) with O by lia.
  reflexivity.
Qed.

Lemma for_range_snoc {A : Type} (lo hi : Z) (body : Z -> A -> A) (a : A) :
  lo <= hi ->
  for_range lo (hi + 1) body a = body hi (for_range lo hi body a).
Proof.
  intros H. unfold for_range.
  replace (Z.to_nat (hi + 1 - lo)) with (S (Z.to_nat (hi - lo))) by lia.
  rewrite for_loop_snoc. f_equal. lia.
Qed.

(** Loop invariants: [P i a] holds of the state [a] before iteration [i]. *)
Lemma for_range_ind {A : Type} (P : Z -> A -> Prop) (lo hi : Z)
    (body : Z -> A -> A) (a : A) :
  lo <= hi ->
  P lo a ->
  (forall i a, lo <= i < hi -> P i a -> P (i + 1) (body i a)) ->
  P hi (for_range lo hi body a).
Proof.
  intros Hle H0 Hstep.
  assert (G : forall n : nat, lo + Z.of_nat n <= hi ->
                P (lo + Z.of_nat n) (for_range lo (lo + Z.of_nat n) body a)).
  { induction n as [|n IH]; intros Hn.
    - rewrite Z.add_0_r, for_range_empty by lia. exact H0.
    - replace (lo + Z.of_nat (S n)) with (lo + Z.of_nat n + 1) by lia.
      rewrite for_range_snoc by lia. apply Hstep; [lia|]. apply IH. lia. }
  specialize (G (Z.to_nat (hi - lo)) ltac:(lia)).
  replace (lo + Z.of_nat (Z.to_nat (hi - lo))) with hi in G by lia. exact G.
Qed.

(** ** Alignment *)

Lemma land_lnot_ones (a k : Z) :
  0 <= k -> Z.land a (Z.lnot (2 ^ k - 1)) = 2 ^ k * (a / 2 ^ k).
Proof.
  intros Hk. rewrite <- Z.ldiff_land.
  replace (2 ^ k - 1) with (Z.ones k) by (rewrite Z.ones_equiv; lia).
  rewrite Z.ldiff_ones_r by assumption.
  rewrite Z.shiftl_mul_pow2, Z.shiftr_div_pow2 by assumption. lia.
Qed.

Lemma ALIGN_16 (x : Z) : ALIGN x 16 = 16 * ((x + 15) / 16).
Proof. unfold ALIGN. apply (land_lnot_ones (x + 15) 4). lia. Qed.

Lemma ALIGN_4 (x : Z) : ALIGN x 4 = 4 * ((x + 3) / 4).
Proof. unfold ALIGN. apply (land_lnot_ones (x + 3) 2). lia. Qed.

Lemma ALIGN_1024 (x : Z) : ALIGN x 0x400 = 1024 * ((x + 1023) / 1024).
Proof. unfold ALIGN. apply (land_lnot_ones (x + 1023) 10). lia. Qed.

Lemma shiftr_4 (x : Z) : Z.shiftr x 4 = x / 16.
Proof. apply (Z.shiftr_div_pow2 x 4). lia. Qed.

Lemma shiftr_3 (x : Z) : Z.shiftr x 3 = x / 8.
Proof. apply (Z.shiftr_div_pow2 x 3). lia. Qed.

Lemma land_15 (x : Z) : Z.land x 0x0F = x mod 16.
Proof. apply (Z.land_ones x 4). lia. Qed.

(** The byte size of a level is the number of its 16 x 16 tiles times the
    768 bytes of a tile, rounded up to 1024. *)
Lemma level_bytes_tiles (w h : Z) :
  level_bytes w h = 1024 * ((768 * (((w + 15) / 16) * ((h + 15) / 16)) + 1023) / 1024).
Proof.
  unfold level_bytes. rewrite ALIGN_1024, ALIGN_4, !ALIGN_16.
  replace ((16 * ((w + 15) / 16) * 3 + 3) / 4) with (12 * ((w + 15) / 16)).
  - do 3 f_equal. lia.
  - apply Z.div_unique with (r := 3); lia.
Qed.

(** ** Layout planner *)

Lemma level_at_set_level_eq (t : texture) (i : Z) (l : texture_level) :
  (Z.to_nat i < length (level t))%nat -> level_at (set_level t i l) i = l.
Proof. intros H. unfold level_at, set_level. simpl. apply list_lookup_total_insert_eq, H. Qed.

Lemma level_at_set_level_ne (t : texture) (i j : Z) (l : texture_level) :
  Z.to_nat i <> Z.to_nat j -> level_at (set_level t i l) j = level_at t j.
Proof. intros H. unfold level_at, set_level. simpl. apply list_lookup_total_insert_ne, H. Qed.

Lemma size_loop (t : texture) (n : nat) :
  (n <= length (level t))%nat ->
  sized t n (for_loop n 0 texture_24_create_size (t, 0)).
Proof.
  induction n as [|n IH]; intros Hn.
  - simpl. unfold sized. simpl. repeat split; auto. intros j Hj. lia.
  - rewrite for_loop_snoc. specialize (IH ltac:(lia)).
    destruct (for_loop n 0 texture_24_create_size (t, 0)) as [t1 s1].
    destruct IH as (Hw & Hh & Hf & Hl & Hd & Hlen & Hs & Hlo & Hhi).
    simpl in Hw, Hh, Hf, Hl, Hd, Hlen, Hs, Hlo, Hhi.
    unfold texture_24_create_size. cbv zeta.
    unfold sized. cbn [fst snd]. rewrite Z.add_0_l.
    repeat split; try assumption.
    + simpl. rewrite length_insert. exact Hlen.
    + cbn [sizes_sum]. rewrite Hs, Hw, Hh. reflexivity.
    + intros j Hj. destruct (Z.eq_dec j (Z.of_nat n)) as [->|Hne].
      * rewrite level_at_set_level_eq by lia.
        rewrite Hw, Hh, (Hhi (Z.of_nat n)) by lia. reflexivity.
      * rewrite level_at_set_level_ne by lia. apply Hlo. lia.
    + intros j Hj. rewrite level_at_set_level_ne by lia. apply Hhi. lia.
Qed.

Lemma reserve_loop (state : limare_state) (w h : Z) (t : texture) (n : nat) :
  (n <= length (level t))%nat ->
  (forall j, 0 <= j < Z.of_nat n ->
     exists d p, level_at t j =
       mk_level j (level_dim w j) (level_dim h j) (planned_size w h j) d p) ->
  reserved state w h t n (for_loop n 0 texture_24_create_reserve (state, t)).
Proof.
  induction n as [|n IH]; intros Hn Hsz.
  - simpl. unfold reserved. simpl. rewrite Z.add_0_r.
    repeat split; auto; [destruct state; reflexivity | intros j Hj; lia].
  - rewrite for_loop_snoc.
    specialize (IH ltac:(lia) ltac:(intros j Hj; apply Hsz; lia)).
    destruct (for_loop n 0 texture_24_create_reserve (state, t)) as [s1 t1].
    destruct IH as (Hst & Hw & Hh & Hf & Hl & Hd & Hlen & Hlo & Hhi).
    simpl in Hst, Hw, Hh, Hf, Hl, Hd, Hlen, Hlo, Hhi. subst s1.
    destruct (Hsz (Z.of_nat n) ltac:(lia)) as (d & p & Hcur).
    unfold texture_24_create_reserve. cbv zeta.
    unfold reserved. cbn [fst snd]. rewrite Z.add_0_l.
    rewrite (Hhi (Z.of_nat n)) by lia. rewrite Hcur. cbn.
    repeat split; try assumption.
    + f_equal. lia.
    + rewrite length_insert. exact Hlen.
    + intros j Hj. destruct (Z.eq_dec j (Z.of_nat n)) as [->|Hne].
      * rewrite level_at_set_level_eq by lia.
        unfold planned_level. rewrite Nat2Z.id. f_equal; lia.
      * rewrite level_at_set_level_ne by lia. apply Hlo. lia.
    + intros j Hj. rewrite level_at_set_level_ne by lia. apply Hhi. lia.
Qed.

Lemma texture_24_create_fail (state : limare_state) (t : texture)
    (src : Z -> Z) (m : mem) :
  (Z.to_nat (levels t) <= length (level t))%nat ->
  aux_mem_size state - aux_mem_used state
    < sizes_sum (width t) (height t) (Z.to_nat (levels t)) ->
  exists t', texture_24_create state t src m = (-1, state, t', m).
Proof.
  intros Hcap Hlt. unfold texture_24_create, for_range. rewrite Z.sub_0_r.
  pose proof (size_loop t (Z.to_nat (levels t)) Hcap) as Hs.
  destruct (for_loop _ 0 texture_24_create_size (t, 0)) as [t1 s1].
  destruct Hs as (_ & _ & _ & _ & _ & _ & Hs & _). simpl in Hs. subst s1.
  destruct (Z.ltb_spec (aux_mem_size state - aux_mem_used state)
              (sizes_sum (width t) (height t) (Z.to_nat (levels t)))); [|lia].
  eauto.
Qed.

Lemma texture_24_create_ok (state : limare_state) (t : texture)
    (src : Z -> Z) (m : mem) :
  (Z.to_nat (levels t) <= length (level t))%nat ->
  sizes_sum (width t) (height t) (Z.to_nat (levels t))
    <= aux_mem_size state - aux_mem_used state ->
  exists t',
    texture_24_create state t src m =
      (0,
       mk_state (aux_mem_address state) (aux_mem_physical state)
                (aux_mem_used state
                 + sizes_sum (width t) (height t) (Z.to_nat (levels t)))
                (aux_mem_size state),
       t', fill_levels t' src m) /\
    planned state t t'.
Proof.
  intros Hcap Hle. unfold texture_24_create, for_range. rewrite Z.sub_0_r.
  pose proof (size_loop t (Z.to_nat (levels t)) Hcap) as Hs.
  destruct (for_loop _ 0 texture_24_create_size (t, 0)) as [t1 s1].
  destruct Hs as (Hw & Hh & Hf & Hl & Hd & Hlen & Hs & Hlo & Hhi).
  simpl in Hw, Hh, Hf, Hl, Hd, Hlen, Hs, Hlo, Hhi. subst s1.
  destruct (Z.ltb_spec (aux_mem_size state - aux_mem_used state)
              (sizes_sum (width t) (height t) (Z.to_nat (levels t)))); [lia|].
  rewrite Hl, Z.sub_0_r.
  pose proof (reserve_loop state (width t) (height t) t1 (Z.to_nat (levels t))
                ltac:(lia)) as Hr.
  destruct (for_loop _ 0 texture_24_create_reserve (state, t1)) as [s2 t2].
  destruct Hr as (Hst & Hw2 & Hh2 & Hf2 & Hl2 & Hd2 & Hlen2 & Hlo2 & Hhi2).
  { intros j Hj. rewrite Hlo by lia. eauto. }
  simpl in Hst, Hw2, Hh2, Hf2, Hl2, Hd2, Hlen2, Hlo2, Hhi2. subst s2.
  exists t2. split.
  - unfold fill_levels, for_range. rewrite Hl2, Hl. reflexivity.
  - unfold planned. repeat split; try congruence.
    + intros j Hj. apply Hlo2. lia.
    + intros j Hj. rewrite Hhi2 by lia. apply Hhi. lia.
Qed.

(** ** Signs and sums of the level sizes *)

Lemma level_dim_sign (d i : Z) :
  (0 <= d -> 1 <= level_dim d i) /\ (d < 0 -> level_dim d i <= -1).
Proof.
  unfold level_dim. cbv zeta.
  pose proof (Z.shiftr_nonneg d i) as Hn.
  destruct (Z.eqb_spec (Z.shiftr d i) 0) as [E|E]; split; intros H; lia.
Qed.

Lemma level_bytes_sign (w h : Z) :
  (0 <= ((w + 15) / 16) * ((h + 15) / 16) -> 0 <= level_bytes w h) /\
  (((w + 15) / 16) * ((h + 15) / 16) <= 0 -> level_bytes w h <= 0).
Proof.
  rewrite level_bytes_tiles.
  set (p := ((w + 15) / 16) * ((h + 15) / 16)). split; intros H.
  - assert (0 <= (768 * p + 1023) / 1024) by (apply Z.div_pos; lia). lia.
  - assert ((768 * p + 1023) / 1024 <= 0).
    { apply Z.lt_succ_r. apply Z.div_lt_upper_bound; lia. }
    lia.
Qed.

Lemma tiles_sign (d : Z) :
  (1 <= d -> 1 <= (d + 15) / 16) /\ (d <= -1 -> (d + 15) / 16 <= 0).
Proof.
  split; intros H.
  - apply Z.div_le_lower_bound; lia.
  - apply Z.lt_succ_r. apply Z.div_lt_upper_bound; lia.
Qed.

(** Either every level has a size of at least 0, or every level has a size
    of at most 0 (the latter only for a negative dimension). *)
Lemma planned_size_sign (w h : Z) :
  (forall i, 0 <= planned_size w h i) \/ (forall i, planned_size w h i <= 0).
Proof.
  assert (Hc : (0 <= w /\ 0 <= h) \/ (w < 0 /\ h < 0)
               \/ (0 <= w /\ h < 0) \/ (w < 0 /\ 0 <= h)) by lia.
  destruct Hc as [[Hw Hh]|[[Hw Hh]|[[Hw Hh]|[Hw Hh]]]];
    [left|left|right|right]; intros i; unfold planned_size;
    pose proof (level_dim_sign w i) as [W1 W2];
    pose proof (level_dim_sign h i) as [H1 H2];
    pose proof (tiles_sign (level_dim w i)) as [T1 T2];
    pose proof (tiles_sign (level_dim h i)) as [T3 T4];
    pose proof (level_bytes_sign (level_dim w i) (level_dim h i)) as [B1 B2];
    first [apply B1 | apply B2]; nia.
Qed.

Lemma planned_size_nonneg (w h i : Z) : 0 <= w -> 0 <= h -> 0 <= planned_size w h i.
Proof.
  intros Hw Hh. unfold planned_size.
  pose proof (level_dim_sign w i) as [W1 _].
  pose proof (level_dim_sign h i) as [H1 _].
  pose proof (tiles_sign (level_dim w i)) as [T1 _].
  pose proof (tiles_sign (level_dim h i)) as [T3 _].
  apply level_bytes_sign. nia.
Qed.

Lemma sizes_sum_le (w h : Z) (j k : nat) :
  (forall i, 0 <= planned_size w h i) -> (j <= k)%nat ->
  sizes_sum w h j <= sizes_sum w h k.
Proof.
  intros Hpos Hjk. induction Hjk as [|k Hjk IH]; [lia|].
  simpl. specialize (Hpos (Z.of_nat k)). lia.
Qed.

Lemma sizes_sum_succ (w h j : Z) :
  0 <= j ->
  sizes_sum w h (Z.to_nat (j + 1)) = sizes_sum w h (Z.to_nat j) + planned_size w h j.
Proof.
  intros Hj. replace (Z.to_nat (j + 1)) with (S (Z.to_nat j)) by lia.
  simpl. rewrite Z2Nat.id by assumption. reflexivity.
Qed.

(** Two planned levels share no byte, whatever the base address. *)
Lemma planned_regions_disjoint (w h base j k a : Z) :
  0 <= j < k ->
  ~ (base + sizes_sum w h (Z.to_nat j) <= a
       < base + sizes_sum w h (Z.to_nat j) + planned_size w h j /\
     base + sizes_sum w h (Z.to_nat k) <= a
       < base + sizes_sum w h (Z.to_nat k) + planned_size w h k).
Proof.
  intros Hjk [Hj Hk].
  destruct (planned_size_sign w h) as [Hpos|Hneg].
  - pose proof (sizes_sum_le w h (Z.to_nat (j + 1)) (Z.to_nat k) Hpos ltac:(lia)) as Hle.
    rewrite sizes_sum_succ in Hle by lia. lia.
  - specialize (Hneg j). lia.
Qed.


(** ** Level count *)

Lemma count_levels_Some (fuel : nat) (max i n : Z) :
  count_levels fuel max i = Some n ->
  i <= n /\ Z.shiftr max n = 0 /\ (forall j, i <= j < n -> Z.shiftr max j <> 0).
Proof.
  revert i. induction fuel as [|fuel IH]; intros i H; simpl in H; [discriminate|].
  destruct (Z.eqb_spec (Z.shiftr max i) 0) as [E|E].
  - inversion H; subst. repeat split; [lia|assumption|intros; lia].
  - destruct (IH _ H) as (H1 & H2 & H3). repeat split; [lia|assumption|].
    intros j Hj. destruct (Z.eq_dec j i) as [->|]; [assumption|apply H3; lia].
Qed.

Lemma count_levels_value (fuel : nat) (max n : Z) :
  count_levels fuel max 0 = Some n ->
  0 <= max /\ (max = 0 -> n = 0) /\ (0 < max -> n = Z.log2 max + 1).
Proof.
  intros H. destruct (count_levels_Some _ _ _ _ H) as (H1 & H2 & H3).
  apply Z.shiftr_eq_0_iff in H2.
  destruct H2 as [->|[Hpos Hlog]].
  - repeat split; [lia| |lia]. intros _.
    destruct (Z.eq_dec n 0) as [|Hn]; [assumption|].
    exfalso. apply (H3 0); [lia|]. apply Z.shiftr_0_l.
  - repeat split; [lia|lia|]. intros _.
    destruct (Z.eq_dec n (Z.log2 max + 1)) as [|Hn]; [assumption|].
    exfalso. apply (H3 (n - 1)).
    + pose proof (Z.log2_nonneg max). lia.
    + apply Z.shiftr_eq_0_iff. right. split; [assumption|lia].
Qed.

Lemma count_levels_pos (fuel : nat) (max i : Z) :
  0 < max -> 0 <= i <= Z.log2 max + 1 ->
  Z.log2 max + 1 - i < Z.of_nat fuel ->
  count_levels fuel max i = Some (Z.log2 max + 1).
Proof.
  intros Hmax. revert i. induction fuel as [|fuel IH]; intros i Hi Hf; [lia|].
  simpl. destruct (Z.eqb_spec (Z.shiftr max i) 0) as [E|E].
  - apply Z.shiftr_eq_0_iff in E. destruct E as [E|[_ E]]; [lia|].
    f_equal. lia.
  - apply IH; [|lia].
    assert (i <> Z.log2 max + 1); [|lia].
    intros ->. apply E. apply Z.shiftr_eq_0_iff. right. split; [assumption|lia].
Qed.

Lemma log2_le_12 (max : Z) : 0 < max <= 4096 -> Z.log2 max <= 12.
Proof.
  intros H. change 12 with (Z.log2 4096). apply Z.log2_le_mono. lia.
Qed.

Lemma code_max (w h : Z) : (if w >? h then w else h) = Z.max w h.
Proof. destruct (Z.gtb_spec w h); lia. Qed.

Lemma requested_levels_Some (w h mipmap n : Z) :
  requested_levels w h mipmap = Some n -> w <= 4096 -> h <= 4096 ->
  0 <= n <= 13.
Proof.
  unfold requested_levels. intros H Hw Hh.
  destruct (Z.eqb_spec mipmap 0); cbn [negb] in H.
  - inversion H. lia.
  - rewrite code_max in H. apply count_levels_value in H.
    destruct H as (H0 & H1 & H2).
    destruct (Z.eq_dec (Z.max w h) 0) as [E|E]; [rewrite (H1 E); lia|].
    rewrite H2 by lia.
    pose proof (log2_le_12 (Z.max w h) ltac:(lia)).
    pose proof (Z.log2_nonneg (Z.max w h)). lia.
Qed.

Lemma requested_levels_valid (w h mipmap : Z) :
  1 <= w <= 4096 -> 1 <= h <= 4096 ->
  requested_levels w h mipmap =
    Some (if mipmap =? 0 then 1 else Z.log2 (Z.max w h) + 1).
Proof.
  intros Hw Hh. unfold requested_levels.
  destruct (Z.eqb_spec mipmap 0); cbn [negb]; [reflexivity|].
  rewrite code_max. apply count_levels_pos; [lia| |].
  - pose proof (Z.log2_nonneg (Z.max w h)). lia.
  - pose proof (log2_le_12 (Z.max w h) ltac:(lia)). lia.
Qed.

Lemma requested_levels_defined (w h mipmap : Z) :
  mipmap = 0 \/ 0 <= Z.max w h <= 4096 ->
  exists n, requested_levels w h mipmap = Some n.
Proof.
  intros H. unfold requested_levels.
  destruct (Z.eqb_spec mipmap 0); cbn [negb]; [eauto|].
  destruct H as [H|H]; [contradiction|]. rewrite code_max.
  destruct (Z.eq_dec (Z.max w h) 0) as [->|E]; [exists 0; reflexivity|].
  exists (Z.log2 (Z.max w h) + 1). apply count_levels_pos; [lia| |].
  - pose proof (Z.log2_nonneg (Z.max w h)). lia.
  - pose proof (log2_le_12 (Z.max w h) ltac:(lia)). lia.
Qed.

(** ** Construction, path by path *)

Lemma texture_create_unfold (rgb : Z) (state : limare_state) (m : mem)
    (src : Z -> Z) (w h fmt mipmap : Z) :
  texture_create rgb state m src w h fmt mipmap =
  if (w >? 4096) || (h >? 4096) then Some (None, state, m)
  else
    match requested_levels w h mipmap with
    | None => None
    | Some n =>
      if fmt =? rgb then
        let '(rc, state', t, m') :=
          texture_24_create state (new_texture w h fmt n) src m in
        if negb (rc =? 0) then Some (None, state', m')
        else
          let t := set_desc t 0
                     (u32 (Z.lor (Z.lor (Z.shiftl 1 7) (Z.shiftl 0 6)) fmt)) in
          let t := set_desc t 1 0x00000400 in
          let t := set_desc t 2 (u32 (Z.shiftl w 22)) in
          let t := set_desc t 3
                     (u32 (Z.lor (Z.lor 0x10000 (Z.shiftl h 3)) (Z.shiftr w 10))) in
          let t := set_desc t 6 (u32 (Z.shiftl 3 13)) in
          Some (Some (texture_descriptor_levels_attach t), state', m')
      else Some (None, state, m)
    end.
Proof. reflexivity. Qed.

Lemma texture_create_dimension (rgb : Z) (state : limare_state) (m : mem)
    (src : Z -> Z) (w h fmt mipmap : Z) :
  w > 4096 \/ h > 4096 ->
  texture_create rgb state m src w h fmt mipmap = Some (None, state, m).
Proof.
  intros H. rewrite texture_create_unfold.
  destruct (Z.gtb_spec w 4096), (Z.gtb_spec h 4096); cbn [orb]; try reflexivity. lia.
Qed.

Lemma texture_create_format (rgb : Z) (state : limare_state) (m : mem)
    (src : Z -> Z) (w h fmt mipmap : Z) :
  fmt <> rgb ->
  texture_create rgb state m src w h fmt mipmap = None \/
  texture_create rgb state m src w h fmt mipmap = Some (None, state, m).
Proof.
  intros H. rewrite texture_create_unfold.
  destruct ((w >? 4096) || (h >? 4096)); [auto|].
  destruct (requested_levels w h mipmap); [|auto].
  destruct (Z.eqb_spec fmt rgb); [contradiction|auto].
Qed.

Lemma new_texture_capacity (w h fmt n : Z) :
  0 <= n <= 13 -> (Z.to_nat (levels (new_texture w h fmt n))
                   <= length (level (new_texture w h fmt n)))%nat.
Proof. intros H. cbn [new_texture levels level]. change (length (level calloc_texture)) with 13%nat. lia. Qed.

Lemma texture_create_memory (rgb : Z) (state : limare_state) (m : mem)
    (src : Z -> Z) (w h fmt mipmap n : Z) :
  w <= 4096 -> h <= 4096 -> fmt = rgb ->
  requested_levels w h mipmap = Some n ->
  aux_mem_size state - aux_mem_used state < sizes_sum w h (Z.to_nat n) ->
  texture_create rgb state m src w h fmt mipmap = Some (None, state, m).
Proof.
  intros Hw Hh Hf Hn Hlt. rewrite texture_create_unfold, Hn.
  destruct (Z.gtb_spec w 4096), (Z.gtb_spec h 4096); try lia. cbn [orb].
  destruct (Z.eqb_spec fmt rgb); [|contradiction].
  pose proof (requested_levels_Some w h mipmap n Hn Hw Hh) as Hr.
  destruct (texture_24_create_fail state (new_texture w h fmt n) src m
              (new_texture_capacity w h fmt n Hr) Hlt) as (t' & E).
  rewrite E. reflexivity.
Qed.

Lemma texture_create_success (rgb : Z) (state : limare_state) (m : mem)
    (src : Z -> Z) (w h fmt mipmap n : Z) :
  w <= 4096 -> h <= 4096 -> fmt = rgb ->
  requested_levels w h mipmap = Some n ->
  sizes_sum w h (Z.to_nat n) <= aux_mem_size state - aux_mem_used state ->
  exists t2,
    planned state (new_texture w h fmt n) t2 /\
    texture_create rgb state m src w h fmt mipmap =
      Some (Some (texture_descriptor_levels_attach (descriptor_header t2 w h fmt)),
            advanced state w h n, fill_levels t2 src m).
Proof.
  intros Hw Hh Hf Hn Hle. rewrite texture_create_unfold, Hn.
  destruct (Z.gtb_spec w 4096), (Z.gtb_spec h 4096); try lia. cbn [orb].
  destruct (Z.eqb_spec fmt rgb); [|contradiction].
  pose proof (requested_levels_Some w h mipmap n Hn Hw Hh) as Hr.
  destruct (texture_24_create_ok state (new_texture w h fmt n) src m
              (new_texture_capacity w h fmt n Hr) Hle) as (t2 & E & P).
  exists t2. split; [exact P|]. rewrite E. reflexivity.
Qed.

(** Every outcome of [texture_create], read back from its result. *)
Lemma texture_create_inv (rgb : Z) (state : limare_state) (m : mem)
    (src : Z -> Z) (w h fmt mipmap : Z) (t : texture)
    (state' : limare_state) (m' : mem) :
  texture_create rgb state m src w h fmt mipmap = Some (Some t, state', m') ->
  w <= 4096 /\ h <= 4096 /\ fmt = rgb /\
  exists n t2,
    requested_levels w h mipmap = Some n /\
    sizes_sum w h (Z.to_nat n) <= aux_mem_size state - aux_mem_used state /\
    planned state (new_texture w h fmt n) t2 /\
    t = texture_descriptor_levels_attach (descriptor_header t2 w h fmt) /\
    state' = advanced state w h n /\ m' = fill_levels t2 src m.
Proof.
  intros H.
  assert (Hw : w <= 4096).
  { destruct (Z_le_gt_dec w 4096); [assumption|].
    rewrite texture_create_dimension in H by lia. discriminate. }
  assert (Hh : h <= 4096).
  { destruct (Z_le_gt_dec h 4096); [assumption|].
    rewrite texture_create_dimension in H by lia. discriminate. }
  assert (Hf : fmt = rgb).
  { destruct (Z.eq_dec fmt rgb) as [|Hne]; [assumption|].
    destruct (texture_create_format rgb state m src w h fmt mipmap Hne) as [E|E];
      rewrite E in H; discriminate. }
  repeat (split; [assumption|]).
  destruct (requested_levels w h mipmap) as [n|] eqn:Hn.
  - exists n.
    destruct (Z_lt_le_dec (aux_mem_size state - aux_mem_used state)
                (sizes_sum w h (Z.to_nat n))) as [Hlt|Hle].
    + rewrite (texture_create_memory rgb state m src w h fmt mipmap n) in H
        by assumption. discriminate.
    + destruct (texture_create_success rgb state m src w h fmt mipmap n
                  Hw Hh Hf Hn Hle) as (t2 & P & E).
      rewrite E in H. inversion H; subst. exists t2. repeat split; auto; apply P.
  - rewrite texture_create_unfold, Hn in H.
    destruct ((w >? 4096) || (h >? 4096)); discriminate.
Qed.

(** ** The descriptor packer leaves the level table alone *)

Lemma level_at_set_desc (t : texture) (k : nat) (v j : Z) :
  level_at (set_desc t k v) j = level_at t j.
Proof. reflexivity. Qed.

Lemma same_levels_refl (t : texture) : same_levels t t.
Proof. unfold same_levels. auto. Qed.

Lemma same_levels_trans (t1 t2 t3 : texture) :
  same_levels t1 t2 -> same_levels t2 t3 -> same_levels t1 t3.
Proof. unfold same_levels. intuition congruence. Qed.

Lemma same_levels_set_desc (t : texture) (k : nat) (v : Z) :
  same_levels t (set_desc t k v).
Proof. unfold same_levels. simpl. auto. Qed.

Lemma level_attach_same_levels (t : texture) (i : Z) :
  same_levels t (texture_descriptor_level_attach t i).
Proof.
  unfold texture_descriptor_level_attach, desc_or, desc_and.
  destruct i as [|p|p]; try apply same_levels_refl;
    repeat (destruct p as [p|p|]; try apply same_levels_refl);
    unfold same_levels; simpl; auto.
Qed.

Lemma levels_attach_same_levels (t : texture) :
  same_levels t (texture_descriptor_levels_attach t).
Proof.
  unfold texture_descriptor_levels_attach.
  destruct (Z_le_gt_dec 0 (levels t)) as [Hle|Hgt].
  - apply (for_range_ind (fun _ t' => same_levels t t')); [assumption| |].
    + apply same_levels_refl.
    + intros i a _ Ha. eapply same_levels_trans; [exact Ha|].
      apply level_attach_same_levels.
  - rewrite for_range_empty by lia. apply same_levels_refl.
Qed.

Lemma descriptor_header_same_levels (t : texture) (w h fmt : Z) :
  same_levels t (descriptor_header t w h fmt).
Proof. unfold same_levels, descriptor_header. simpl. auto. Qed.

(** The level table of a constructed texture is the planned one. *)
Lemma texture_create_levels_planned (rgb : Z) (state : limare_state) (m : mem)
    (src : Z -> Z) (w h fmt mipmap : Z) (t : texture)
    (state' : limare_state) (m' : mem) :
  texture_create rgb state m src w h fmt mipmap = Some (Some t, state', m') ->
  w <= 4096 /\ h <= 4096 /\ fmt = rgb /\
  width t = w /\ height t = h /\
  requested_levels w h mipmap = Some (levels t) /\
  sizes_sum w h (Z.to_nat (levels t)) <= aux_mem_size state - aux_mem_used state /\
  state' = advanced state w h (levels t) /\
  (forall j, 0 <= j < levels t -> level_at t j = planned_level state w h j).
Proof.
  intros H. apply texture_create_inv in H.
  destruct H as (Hw & Hh & Hf & n & t2 & Hn & Hle & P & -> & -> & ->).
  pose proof (same_levels_trans _ _ _
                (descriptor_header_same_levels t2 w h fmt)
                (levels_attach_same_levels (descriptor_header t2 w h fmt))) as S.
  destruct S as (Sw & Sh & Sf & Sl & Slv).
  destruct P as (Pw & Ph & Pf & Pl & Pd & Plen & Plo & Phi).
  simpl in Pw, Ph, Pl, Plo.
  rewrite Sw, Sh, Sl, Pw, Ph, Pl.
  repeat (split; [assumption || reflexivity|]).
  intros j Hj. unfold level_at. rewrite Slv. apply (Plo j Hj).
Qed.

(** ** Level count and level dimensions *)

Lemma level_dim_max (d i : Z) : 0 <= d -> level_dim d i = Z.max 1 (Z.shiftr d i).
Proof.
  intros Hd. unfold level_dim. cbv zeta.
  pose proof (proj2 (Z.shiftr_nonneg d i) Hd).
  destruct (Z.eqb_spec (Z.shiftr d i) 0); lia.
Qed.

(** C6. For a request of 1..4096 by 1..4096 texels the level count is
    floor(log2(max(width, height))) + 1 when mipmapping is requested and 1
    otherwise; the request yields a texture as soon as the format is the
    supported one and the arena has room; and in every texture it yields,
    level [i] is tagged [i] and measures max(1, width >> i) by
    max(1, height >> i). *)
Theorem texture_create_level_dimensions (rgb : Z) (state : limare_state)
    (m : mem) (src : Z -> Z) (w h fmt mipmap : Z) :
  1 <= w <= 4096 -> 1 <= h <= 4096 ->
  let n := if mipmap =? 0 then 1 else Z.log2 (Z.max w h) + 1 in
  requested_levels w h mipmap = Some n /\
  (fmt = rgb ->
   sizes_sum w h (Z.to_nat n) <= aux_mem_size state - aux_mem_used state ->
   exists t state' m',
     texture_create rgb state m src w h fmt mipmap = Some (Some t, state', m')) /\
  (forall t state' m',
     texture_create rgb state m src w h fmt mipmap = Some (Some t, state', m') ->
     levels t = n /\
     forall i, 0 <= i < n ->
       lvl_level (level_at t i) = i /\
       lvl_width (level_at t i) = Z.max 1 (Z.shiftr w i) /\
       lvl_height (level_at t i) = Z.max 1 (Z.shiftr h i)).
Proof.
  intros Hw Hh n.
  pose proof (requested_levels_valid w h mipmap Hw Hh) as Hn. fold n in Hn.
  split; [exact Hn|]. split.
  - intros Hf Hle.
    destruct (texture_create_success rgb state m src w h fmt mipmap n
                ltac:(lia) ltac:(lia) Hf Hn Hle) as (t2 & _ & E).
    eauto.
  - intros t state' m' E.
    apply texture_create_levels_planned in E.
    destruct E as (_ & _ & _ & _ & _ & Hl & _ & _ & Hlv).
    rewrite Hn in Hl. inversion Hl as [Hl']. split; [reflexivity|].
    intros i Hi. rewrite Hlv by lia. cbn.
    rewrite !level_dim_max by lia. auto.
Qed.

Lemma texture_create_level_dimensions_witness :
  exists t state' m',
    texture_create 0x15 large_state zero_mem grey_pixels 300 200 0x15 1
      = Some (Some t, state', m') /\
    levels t = 9 /\
    lvl_width (level_at t 0) = 300 /\ lvl_height (level_at t 0) = 200 /\
    lvl_width (level_at t 8) = 1 /\ lvl_height (level_at t 8) = 1.
Proof.
  destruct (texture_create_level_dimensions 0x15 large_state zero_mem
              grey_pixels 300 200 0x15 1 ltac:(lia) ltac:(lia))
    as (_ & Hex & Hall).
  destruct Hex as (t & state' & m' & E); [reflexivity|vm_compute; discriminate|].
  exists t, state', m'. split; [exact E|].
  destruct (Hall t state' m' E) as (Hl & Hd).
  change (if 1 =? 0 then 1 else Z.log2 (Z.max 300 200) + 1) with 9 in Hl, Hd.
  split; [exact Hl|].
  destruct (Hd 0 ltac:(lia)) as (_ & W0 & H0).
  destruct (Hd 8 ltac:(lia)) as (_ & W8 & H8).
  repeat split; assumption.
Defined.

(** ** Rejected requests *)

(** C8. A request with a width or a height above 4096 is rejected: no
    texture is returned, and the arena state and the memory are the ones
    before the call, so nothing has been reserved. *)
Theorem texture_create_invalid_dimension (rgb : Z) (state : limare_state)
    (m : mem) (src : Z -> Z) (w h fmt mipmap : Z) :
  w > 4096 \/ h > 4096 ->
  texture_create rgb state m src w h fmt mipmap = Some (None, state, m).
Proof.
  intros Hdim. rewrite texture_create_unfold.
  destruct Hdim as [Hw|Hh].
  - destruct (Z.gtb_spec w 4096) as [_|Hle]; [reflexivity|lia].
  - destruct (Z.gtb_spec h 4096) as [_|Hle]; [|lia].
    rewrite orb_true_r. reflexivity.
Qed.

Lemma texture_create_invalid_dimension_witness :
  texture_create 0x15 sample_state zero_mem grey_pixels 5000 16 0x15 1
    = Some (None, sample_state, zero_mem).
Proof.
  apply (texture_create_invalid_dimension 0x15 sample_state zero_mem
           grey_pixels 5000 16 0x15 1).
  left. lia.
Defined.

Lemma texture_create_format_rejected (rgb : Z) (state : limare_state)
    (m : mem) (src : Z -> Z) (w h fmt mipmap n : Z) :
  fmt <> rgb -> w <= 4096 -> h <= 4096 ->
  requested_levels w h mipmap = Some n ->
  texture_create rgb state m src w h fmt mipmap = Some (None, state, m).
Proof.
  intros Hf Hw Hh Hn. rewrite texture_create_unfold, Hn.
  destruct (Z.gtb_spec w 4096), (Z.gtb_spec h 4096); try lia. cbn [orb].
  destruct (Z.eqb_spec fmt rgb); [contradiction|reflexivity].
Qed.

(** C9. A request whose format selector is not the 24-bit RGB one never
    yields a texture and never changes the arena or the memory: whenever
    the call has a result it is "no texture" with the state and the memory
    of before; and it has this result for every request without mipmapping
    and for every request whose larger dimension is not negative (for a
    negative one the level-count loop of a mipmapped request has no defined
    result). *)
Theorem texture_create_unsupported_format (rgb : Z) (state : limare_state)
    (m : mem) (src : Z -> Z) (w h fmt mipmap : Z) :
  fmt <> rgb ->
  (forall r, texture_create rgb state m src w h fmt mipmap = Some r ->
             r = (None, state, m)) /\
  (mipmap = 0 \/ 0 <= Z.max w h ->
   texture_create rgb state m src w h fmt mipmap = Some (None, state, m)).
Proof.
  intros Hf. split.
  - intros r E.
    destruct (texture_create_format rgb state m src w h fmt mipmap Hf) as [E'|E'];
      rewrite E' in E; [discriminate|]. inversion E. reflexivity.
  - intros Hdef.
    destruct (Z_le_gt_dec w 4096) as [Hw|Hw];
      [|apply texture_create_dimension; lia].
    destruct (Z_le_gt_dec h 4096) as [Hh|Hh];
      [|apply texture_create_dimension; lia].
    destruct (requested_levels_defined w h mipmap ltac:(lia)) as (n & Hn).
    apply (texture_create_format_rejected rgb state m src w h fmt mipmap n);
      assumption.
Qed.

Lemma texture_create_unsupported_format_witness :
  texture_create 0x15 sample_state zero_mem grey_pixels 64 64 0x16 1
    = Some (None, sample_state, zero_mem).
Proof.
  apply (texture_create_unsupported_format 0x15 sample_state zero_mem
           grey_pixels 64 64 0x16 1).
  - lia.
  - right. lia.
Defined.

(** ** Failure causes *)

(** The three causes are all the ways to fail: a call of non-negative
    dimensions that returns no texture has one of them. *)
Lemma failure_cause_complete (rgb : Z) (state : limare_state) (m : mem)
    (src : Z -> Z) (w h fmt mipmap : Z) (state' : limare_state) (m' : mem) :
  0 <= w -> 0 <= h ->
  texture_create rgb state m src w h fmt mipmap = Some (None, state', m') ->
  exists k, failure_cause rgb state w h fmt mipmap = Some k.
Proof.
  intros _ _ E. unfold failure_cause.
  destruct ((w >? 4096) || (h >? 4096)) eqn:Hd; [eauto|].
  apply orb_false_iff in Hd. destruct Hd as [Hw Hh].
  destruct (requested_levels w h mipmap) as [n|] eqn:Hn.
  - destruct (Z.eqb_spec fmt rgb) as [Hf|Hf]; cbn [negb]; [|eauto].
    destruct (Z.ltb_spec (aux_mem_size state - aux_mem_used state)
                (sizes_sum w h (Z.to_nat n))) as [Hlt|Hle]; [eauto|].
    destruct (texture_create_success rgb state m src w h fmt mipmap n
                ltac:(lia) ltac:(lia) Hf Hn Hle) as (t2 & _ & E').
    rewrite E' in E. discriminate.
  - rewrite texture_create_unfold, Hn, Hw, Hh in E. cbn [orb] in E.
    discriminate.
Qed.

(** C10. For a request of non-negative dimensions, whatever makes it fail
    (a dimension above 4096, an unsupported format, an arena without room),
    the result of [texture_create] is the same: no texture, with the arena
    state and the memory of before the call. The result does not carry the
    cause. *)
Theorem texture_create_failure_result (rgb : Z) (state : limare_state)
    (m : mem) (src : Z -> Z) (w h fmt mipmap : Z) (k : error_kind) :
  0 <= w -> 0 <= h ->
  failure_cause rgb state w h fmt mipmap = Some k ->
  texture_create rgb state m src w h fmt mipmap = Some (None, state, m).
Proof.
  unfold failure_cause. intros Hw0 Hh0 H.
  destruct (Z.gtb_spec w 4096) as [Hw|Hw];
    [apply texture_create_dimension; lia|].
  destruct (Z.gtb_spec h 4096) as [Hh|Hh];
    [apply texture_create_dimension; lia|].
  cbn [orb] in H.
  destruct (requested_levels w h mipmap) as [n|] eqn:Hn; [|discriminate].
  destruct (Z.eqb_spec fmt rgb) as [Hf|Hf]; cbn [negb] in H.
  - destruct (Z.ltb_spec (aux_mem_size state - aux_mem_used state)
                (sizes_sum w h (Z.to_nat n))) as [Hlt|Hle]; [|discriminate].
    apply (texture_create_memory rgb state m src w h fmt mipmap n); assumption.
  - apply (texture_create_format_rejected rgb state m src w h fmt mipmap n);
      assumption.
Qed.

Lemma texture_create_failure_result_witness :
  texture_create 0x15 full_state zero_mem grey_pixels 64 64 0x15 1
    = Some (None, full_state, zero_mem).
Proof.
  apply (texture_create_failure_result 0x15 full_state zero_mem grey_pixels
           64 64 0x15 1 OutOfMemory); [lia|lia|].
  vm_compute. reflexivity.
Defined.

(** C10 as the specification words it (the failure result carries the error
    kind) does not hold, even among the requests of non-negative
    dimensions: no function of the result recovers the cause of failure,
    since a request rejected for its dimension and a request rejected for
    its format return the very same result. *)
Lemma failure_kind_not_in_result :
  ~ exists kind_of : option (option texture * limare_state * mem) -> error_kind,
      forall rgb state m src w h fmt mipmap k,
        0 <= w -> 0 <= h ->
        failure_cause rgb state w h fmt mipmap = Some k ->
        kind_of (texture_create rgb state m src w h fmt mipmap) = k.
Proof.
  intros [kind_of H].
  pose proof (H 0x15 full_state zero_mem grey_pixels 5000 16 0x15 1
                InvalidDimension ltac:(lia) ltac:(lia) eq_refl) as H1.
  pose proof (H 0x15 full_state zero_mem grey_pixels 16 16 0x16 1
                UnsupportedFormat ltac:(lia) ltac:(lia) eq_refl) as H2.
  rewrite (texture_create_dimension 0x15 full_state zero_mem grey_pixels
             5000 16 0x15 1 ltac:(lia)) in H1.
  rewrite (texture_create_format_rejected 0x15 full_state zero_mem grey_pixels
             16 16 0x16 1 5 ltac:(lia) ltac:(lia) ltac:(lia) eq_refl) in H2.
  rewrite H1 in H2. discriminate.
Qed.

(** ** Small levels *)

Lemma small_level_bytes (lw lh : Z) :
  1 <= lw <= 16 -> 1 <= lh <= 16 -> level_bytes lw lh = 1024.
Proof.
  intros Hw Hh. rewrite level_bytes_tiles.
  replace ((lw + 15) / 16) with 1 by (apply Z.div_unique with (r := lw - 1); lia).
  replace ((lh + 15) / 16) with 1 by (apply Z.div_unique with (r := lh - 1); lia).
  reflexivity.
Qed.

Lemma level_dim_small (d i : Z) :
  0 <= d <= 4096 -> 8 <= i -> 1 <= level_dim d i <= 16.
Proof.
  intros Hd Hi. rewrite level_dim_max by lia.
  rewrite Z.shiftr_div_pow2 by lia.
  assert (2 ^ 8 <= 2 ^ i) by (apply Z.pow_le_mono_r; lia).
  change (2 ^ 8) with 256 in *.
  assert (d / 2 ^ i < 17) by (apply Z.div_lt_upper_bound; lia).
  lia.
Qed.

Lemma planned_size_small (w h i : Z) :
  0 <= w <= 4096 -> 0 <= h <= 4096 -> 8 <= i -> planned_size w h i = 1024.
Proof.
  intros Hw Hh Hi. unfold planned_size.
  apply small_level_bytes; apply level_dim_small; assumption.
Qed.

(** C3. In a constructed texture of non-negative dimensions that has
    levels 11 and 12, levels 10, 11 and 12 each take exactly 1024 bytes and
    follow one another: level 11 lies 1024 bytes and level 12 lies 2048
    bytes after level 10, in physical as in CPU addresses. *)
Theorem texture_create_tail_levels_adjacent (rgb : Z) (state : limare_state)
    (m : mem) (src : Z -> Z) (w h fmt mipmap : Z) (t : texture)
    (state' : limare_state) (m' : mem) :
  0 <= w -> 0 <= h ->
  texture_create rgb state m src w h fmt mipmap = Some (Some t, state', m') ->
  12 < levels t ->
  lvl_size (level_at t 10) = 1024 /\
  lvl_size (level_at t 11) = 1024 /\
  lvl_size (level_at t 12) = 1024 /\
  lvl_mem_physical (level_at t 11) = lvl_mem_physical (level_at t 10) + 1024 /\
  lvl_mem_physical (level_at t 12) = lvl_mem_physical (level_at t 10) + 2048 /\
  lvl_dest (level_at t 11) = lvl_dest (level_at t 10) + 1024 /\
  lvl_dest (level_at t 12) = lvl_dest (level_at t 10) + 2048.
Proof.
  intros Hw Hh E Hl. apply texture_create_levels_planned in E.
  destruct E as (Hw' & Hh' & _ & _ & _ & _ & _ & _ & Hlv).
  rewrite (Hlv 10), (Hlv 11), (Hlv 12) by lia.
  unfold planned_level. cbn [lvl_size lvl_mem_physical lvl_dest].
  pose proof (planned_size_small w h 10 ltac:(lia) ltac:(lia) ltac:(lia)) as S10.
  pose proof (planned_size_small w h 11 ltac:(lia) ltac:(lia) ltac:(lia)) as S11.
  pose proof (planned_size_small w h 12 ltac:(lia) ltac:(lia) ltac:(lia)) as S12.
  pose proof (sizes_sum_succ w h 10 ltac:(lia)) as A11.
  pose proof (sizes_sum_succ w h 11 ltac:(lia)) as A12.
  change (10 + 1) with 11 in A11. change (11 + 1) with 12 in A12.
  rewrite S10, S11, S12, A12, A11, S10, S11. repeat split; lia.
Qed.

Lemma texture_create_tail_levels_adjacent_witness :
  exists t state' m',
    texture_create 0x15 large_state zero_mem grey_pixels 4096 1 0x15 1
      = Some (Some t, state', m') /\
    lvl_mem_physical (level_at t 11) = lvl_mem_physical (level_at t 10) + 1024 /\
    lvl_mem_physical (level_at t 12) = lvl_mem_physical (level_at t 10) + 2048.
Proof.
  destruct (texture_create_success 0x15 large_state zero_mem grey_pixels
              4096 1 0x15 1 13 ltac:(lia) ltac:(lia) eq_refl eq_refl)
    as (t2 & P & E).
  { vm_compute. discriminate. }
  eexists _, _, _. split; [exact E|].
  pose proof (texture_create_tail_levels_adjacent 0x15 large_state zero_mem
                grey_pixels 4096 1 0x15 1 _ _ _ ltac:(lia) ltac:(lia) E) as H.
  destruct H as (_ & _ & _ & H11 & H12 & _).
  - destruct (levels_attach_same_levels (descriptor_header t2 4096 1 0x15))
      as (_ & _ & _ & Hl & _).
    rewrite Hl. destruct P as (_ & _ & _ & Pl & _).
    cbn [descriptor_header set_desc levels]. rewrite Pl. cbn. lia.
  - split; assumption.
Defined.

(** ** Descriptor packer *)

Lemma u32_testbit (x b : Z) : 0 <= b < 32 -> Z.testbit (u32 x) b = Z.testbit x b.
Proof. intros H. unfold u32. apply Z.mod_pow2_bits_low. lia. Qed.

Lemma masked_word_bit (d mask v b : Z) :
  0 <= b < 32 ->
  Z.testbit (u32 (Z.lor (u32 (Z.land d (Z.lnot mask))) v)) b
  = (Z.testbit d b && negb (Z.testbit mask b)) || Z.testbit v b.
Proof.
  intros H.
  rewrite u32_testbit, Z.lor_spec, u32_testbit, Z.land_spec, Z.lnot_spec by lia.
  reflexivity.
Qed.

(** The bits of a 1024-aligned 32-bit address below bit 10 and above bit 31
    are clear. *)
Lemma aligned_address_bit (p j : Z) :
  0 <= p < 2 ^ 32 -> p mod 1024 = 0 -> j < 10 \/ 32 <= j ->
  Z.testbit p j = false.
Proof.
  intros Hp Ha [Hj|Hj].
  - destruct (Z_lt_le_dec j 0) as [Hneg|Hpos]; [apply Z.testbit_neg_r, Hneg|].
    rewrite (Z.div_mod p 1024), Ha, Z.add_0_r by lia.
    rewrite Z.mul_comm. apply (Z.mul_pow2_bits_low (p / 1024) 10 j). lia.
  - apply (testbit_small p 32 j); lia.
Qed.

Lemma rule_ok_bit (mask d b : Z) :
  rule_ok mask d = true -> 0 <= b < 32 ->
  Z.testbit mask b = false -> b + d < 10 \/ 32 <= b + d.
Proof.
  intros Hr Hb Hm.
  pose proof (check_range _ 32 Hr b ltac:(lia)) as C. cbv beta in C.
  rewrite Hm in C. cbn [orb] in C. lia.
Qed.

Lemma rule_word_bit (d mask dist v p b : Z) :
  rule_ok mask dist = true ->
  0 <= p < 2 ^ 32 -> p mod 1024 = 0 ->
  (forall b, 0 <= b < 32 -> Z.testbit v b = Z.testbit p (b + dist)) ->
  0 <= b < 32 ->
  Z.testbit (u32 (Z.lor (u32 (Z.land d (Z.lnot mask))) v)) b
  = if Z.testbit mask b then Z.testbit p (b + dist) else Z.testbit d b.
Proof.
  intros Hr Hp Ha Hv Hb. rewrite masked_word_bit, Hv by assumption.
  destruct (Z.testbit mask b) eqn:Hm; cbn [negb].
  - rewrite andb_false_r. reflexivity.
  - rewrite (aligned_address_bit p (b + dist) Hp Ha
               (rule_ok_bit mask dist b Hr Hb Hm)).
    rewrite andb_true_r, orb_false_r. reflexivity.
Qed.

Lemma shifted_left_bit (p s b : Z) :
  0 <= b < 32 -> Z.testbit (u32 (Z.shiftl p s)) b = Z.testbit p (b + - s).
Proof. intros H. rewrite u32_testbit, Z.shiftl_spec by lia. f_equal. Qed.

Lemma shifted_right_bit (p s b : Z) :
  0 <= b < 32 -> Z.testbit (Z.shiftr p s) b = Z.testbit p (b + s).
Proof. intros H. apply Z.shiftr_spec. lia. Qed.

Lemma unshifted_bit (p b : Z) :
  0 <= b < 32 -> Z.testbit p b = Z.testbit p (b + 0).
Proof. intros _. rewrite Z.add_0_r. reflexivity. Qed.

Lemma desc_at_set_desc (t : texture) (k k' : nat) (v : Z) :
  (k < length (descriptor t))%nat ->
  desc_at (set_desc t k v) k' = if Nat.eqb k' k then v else desc_at t k'.
Proof.
  intros H. unfold desc_at, set_desc. cbn [descriptor].
  destruct (Nat.eqb_spec k' k) as [->|Hne].
  - apply list_lookup_total_insert_eq, H.
  - apply list_lookup_total_insert_ne. auto.
Qed.

Lemma length_set_desc (t : texture) (k : nat) (v : Z) :
  length (descriptor (set_desc t k v)) = length (descriptor t).
Proof. unfold set_desc. cbn [descriptor]. apply length_insert. Qed.

(** One masked write: [descriptor[k] &= ~mask; descriptor[k] |= v]. *)
Lemma masked_write_word (t : texture) (k k' : nat) (mask v : Z) :
  (k < length (descriptor t))%nat ->
  desc_at (desc_or (desc_and t k (Z.lnot mask)) k v) k'
  = if Nat.eqb k' k
    then u32 (Z.lor (u32 (Z.land (desc_at t k) (Z.lnot mask))) v)
    else desc_at t k'.
Proof.
  intros H. unfold desc_or, desc_and.
  rewrite !desc_at_set_desc by (rewrite ?length_set_desc; exact H).
  rewrite Nat.eqb_refl. destruct (Nat.eqb k' k); reflexivity.
Qed.

Lemma masked_write_length (t : texture) (k : nat) (mask v : Z) :
  length (descriptor (desc_or (desc_and t k (Z.lnot mask)) k v))
  = length (descriptor t).
Proof. unfold desc_or, desc_and. rewrite !length_set_desc. reflexivity. Qed.

Section Rules.

Variable p : Z.
Hypothesis p_range : 0 <= p < 2 ^ 32.
Hypothesis p_aligned : p mod 1024 = 0.

Lemma attach_one_word (t : texture) (k : nat) (mask dist v : Z) (k' : nat) (b : Z) :
  (k < length (descriptor t))%nat ->
  rule_ok mask dist = true ->
  (forall b, 0 <= b < 32 -> Z.testbit v b = Z.testbit p (b + dist)) ->
  0 <= b < 32 ->
  Z.testbit (desc_at (desc_or (desc_and t k (Z.lnot mask)) k v) k') b
  = match field_lookup [(k, mask, dist)] k' b with
    | Some j => Z.testbit p j
    | None => Z.testbit (desc_at t k') b
    end.
Proof.
  intros Hk Hr Hv Hb. rewrite masked_write_word by exact Hk.
  cbn [field_lookup]. destruct (Nat.eqb_spec k' k) as [->|Hne]; cbn [andb].
  - rewrite (rule_word_bit _ mask dist v p b Hr p_range p_aligned Hv Hb).
    destruct (Z.testbit mask b); reflexivity.
  - reflexivity.
Qed.

Lemma attach_two_words (t : texture) (k1 : nat) (m1 d1 v1 : Z)
    (k2 : nat) (m2 d2 v2 : Z) (k' : nat) (b : Z) :
  (k1 < length (descriptor t))%nat -> (k2 < length (descriptor t))%nat ->
  k1 <> k2 ->
  rule_ok m1 d1 = true -> rule_ok m2 d2 = true ->
  (forall b, 0 <= b < 32 -> Z.testbit v1 b = Z.testbit p (b + d1)) ->
  (forall b, 0 <= b < 32 -> Z.testbit v2 b = Z.testbit p (b + d2)) ->
  0 <= b < 32 ->
  Z.testbit
    (desc_at (desc_or (desc_and (desc_or (desc_and t k1 (Z.lnot m1)) k1 v1)
                                k2 (Z.lnot m2)) k2 v2) k') b
  = match field_lookup [(k1, m1, d1); (k2, m2, d2)] k' b with
    | Some j => Z.testbit p j
    | None => Z.testbit (desc_at t k') b
    end.
Proof.
  intros Hk1 Hk2 Hne Hr1 Hr2 Hv1 Hv2 Hb.
  rewrite (attach_one_word _ k2 m2 d2 v2 k' b)
    by (rewrite ?masked_write_length; assumption).
  rewrite (attach_one_word t k1 m1 d1 v1 k' b) by assumption.
  cbn [field_lookup].
  destruct (Nat.eqb_spec k' k1) as [E1|E1], (Nat.eqb_spec k' k2) as [E2|E2];
    cbn [andb]; try congruence;
    destruct (Z.testbit m1 b), (Z.testbit m2 b); reflexivity.
Qed.

End Rules.

Ltac address_bits :=
  intros ? ?;
  first [ apply shifted_left_bit; assumption
        | apply shifted_right_bit; assumption
        | apply unshifted_bit; assumption ].

Ltac attach_side :=
  match goal with
  | |- (_ < length _)%nat => match goal with H : forall n : nat, _ |- _ => apply H; lia end
  | |- _ <> _ => lia
  | |- rule_ok _ _ = true => vm_compute; reflexivity
  | |- forall b : Z, _ => address_bits
  | |- _ <= _ < _ => assumption
  end.

(** The bits of the descriptor after the address of a level 0..10 has been
    attached: inside the level's field the address bit its rule puts there,
    outside it the bit of before. *)
Lemma level_attach_bits (t : texture) (i : Z)
    (k : nat) (b : Z) :
  0 <= i <= 10 ->
  length (descriptor t) = 16%nat ->
  0 <= lvl_mem_physical (level_at t i) < 2 ^ 32 ->
  lvl_mem_physical (level_at t i) mod 1024 = 0 ->
  (k < 16)%nat -> 0 <= b < 32 ->
  same_levels t (texture_descriptor_level_attach t i) /\
  length (descriptor (texture_descriptor_level_attach t i)) = 16%nat /\
  Z.testbit (desc_at (texture_descriptor_level_attach t i) k) b
  = match field_bit i k b with
    | Some j => Z.testbit (lvl_mem_physical (level_at t i)) j
    | None => Z.testbit (desc_at t k) b
    end.
Proof.
  intros Hi Hlen Hp Ha Hk Hb.
  split; [apply level_attach_same_levels|].
  assert (Hc : i = 0 \/ i = 1 \/ i = 2 \/ i = 3 \/ i = 4 \/ i = 5 \/ i = 6
               \/ i = 7 \/ i = 8 \/ i = 9 \/ i = 10) by lia.
  set (p := lvl_mem_physical (level_at t i)) in *.
  unfold field_bit.
  assert (Hw : forall n : nat, (n < 16)%nat -> (n < length (descriptor t))%nat)
    by (intros n Hn; rewrite Hlen; exact Hn).
  repeat (destruct Hc as [Hc|Hc]); subst i;
    unfold texture_descriptor_level_attach, level_field;
    cbv zeta; cbv iota; fold p;
    (split; [rewrite ?masked_write_length; exact Hlen|]).
  - apply (attach_two_words p Hp Ha); attach_side.
  - apply (attach_two_words p Hp Ha); attach_side.
  - apply (attach_two_words p Hp Ha); attach_side.
  - apply (attach_two_words p Hp Ha); attach_side.
  - apply (attach_one_word p Hp Ha); attach_side.
  - apply (attach_one_word p Hp Ha); attach_side.
  - apply (attach_two_words p Hp Ha); attach_side.
  - apply (attach_two_words p Hp Ha); attach_side.
  - apply (attach_two_words p Hp Ha); attach_side.
  - apply (attach_two_words p Hp Ha); attach_side.
  - apply (attach_one_word p Hp Ha); attach_side.
Qed.

(** The fields of levels 0..10 are consecutive runs of 26 bits that start
    at bit 30 of word 6, and each holds the address bits 6..31. *)
Lemma field_bit_layout (i : Z) (k : nat) (b : Z) :
  0 <= i <= 10 -> (k < 16)%nat -> 0 <= b < 32 ->
  field_bit i k b =
    let g := 32 * Z.of_nat k + b in
    if (222 + 26 * i <=? g) && (g <? 248 + 26 * i)
    then Some (g - 216 - 26 * i) else None.
Proof.
  intros Hi Hk Hb.
  pose (ok := fun (i kz b : Z) =>
    let g := 32 * kz + b in
    match field_bit i (Z.to_nat kz) b,
          (if (222 + 26 * i <=? g) && (g <? 248 + 26 * i)
           then Some (g - 216 - 26 * i) else None) with
    | Some a, Some a' => a =? a'
    | None, None => true
    | _, _ => false
    end).
  assert (C : forall i kz b, 0 <= i < 11 -> 0 <= kz < 16 -> 0 <= b < 32 ->
                ok i kz b = true).
  { intros i' kz b' Hi' Hkz Hb'.
    apply (check_range2 (ok i') 16 32); [|lia|lia].
    apply (check_range
      (fun i => forallb (fun x => forallb (ok i x) (zrange 32)) (zrange 16)) 11);
      [vm_compute; reflexivity|lia]. }
  specialize (C i (Z.of_nat k) b ltac:(lia) ltac:(lia) Hb).
  unfold ok in C. cbv zeta in C. rewrite Nat2Z.id in C. cbv zeta.
  destruct (field_bit i k b) as [a|];
    destruct ((222 + 26 * i <=? 32 * Z.of_nat k + b)
              && (32 * Z.of_nat k + b <? 248 + 26 * i));
    try discriminate; [|reflexivity].
  f_equal. lia.
Qed.

(** C1. Attaching the physical address of a level 0..10, when that address
    is 1024-byte aligned and fits in 32 bits, changes in the 16-word
    descriptor only the bits of that level's field: bit [b] of word [k]
    holds afterwards the address bit the level's rule puts there when the rule
    covers it, and its value of before otherwise. The field of level [i] is
    the run of 26 bits that starts at bit 222 + 26 i of the descriptor (bit
    30 of word 6 for level 0) and holds the address bits 6..31. The other
    parts of the texture and the length of the descriptor are unchanged. *)
Theorem texture_descriptor_level_attach_frame (t : texture) (i : Z)
    (k : nat) (b : Z) :
  0 <= i <= 10 ->
  length (descriptor t) = 16%nat ->
  0 <= lvl_mem_physical (level_at t i) < 2 ^ 32 ->
  lvl_mem_physical (level_at t i) mod 1024 = 0 ->
  (k < 16)%nat -> 0 <= b < 32 ->
  same_levels t (texture_descriptor_level_attach t i) /\
  length (descriptor (texture_descriptor_level_attach t i)) = 16%nat /\
  Z.testbit (desc_at (texture_descriptor_level_attach t i) k) b
  = match field_bit i k b with
    | Some j => Z.testbit (lvl_mem_physical (level_at t i)) j
    | None => Z.testbit (desc_at t k) b
    end /\
  field_bit i k b =
    let g := 32 * Z.of_nat k + b in
    if (222 + 26 * i <=? g) && (g <? 248 + 26 * i)
    then Some (g - 216 - 26 * i) else None.
Proof.
  intros Hi Hlen Hp Ha Hk Hb.
  destruct (level_attach_bits t i k b Hi Hlen Hp Ha Hk Hb) as (H1 & H2 & H3).
  repeat (split; [assumption|]).
  apply field_bit_layout; assumption.
Qed.

Lemma texture_descriptor_level_attach_frame_witness :
  Z.testbit (desc_at (texture_descriptor_level_attach packed_sample 3) 9) 5 = true /\
  Z.testbit (desc_at (texture_descriptor_level_attach packed_sample 3) 9) 12 = false.
Proof.
  split.
  - exact (proj1 (proj2 (proj2 (texture_descriptor_level_attach_frame
             packed_sample 3 9 5
             ltac:(lia) eq_refl ltac:(vm_compute; split; discriminate || reflexivity)
             eq_refl ltac:(lia) ltac:(lia))))).
  - exact (proj1 (proj2 (proj2 (texture_descriptor_level_attach_frame
             packed_sample 3 9 12
             ltac:(lia) eq_refl ltac:(vm_compute; split; discriminate || reflexivity)
             eq_refl ltac:(lia) ltac:(lia))))).
Defined.

(** ** Texel addresses *)

Lemma tiles_block_pitch (lw : Z) : Z.shiftr (ALIGN lw 16) 4 = tiles lw.
Proof.
  rewrite shiftr_4, ALIGN_16. unfold tiles.
  rewrite Z.mul_comm. apply Z.div_mul. lia.
Qed.

Lemma texel_offset_tiles (lw x y : Z) :
  texel_offset lw x y =
    768 * ((y / 16) * tiles lw + x / 16)
    + 3 * space_filler_index (x mod 16) (y mod 16).
Proof.
  unfold texel_offset.
  rewrite tiles_block_pitch, !shiftr_4, !land_15. reflexivity.
Qed.

Lemma tiles_cover (d : Z) : d <= 16 * tiles d.
Proof. unfold tiles. pose proof (Z.mod_pos_bound (d + 15) 16).
  pose proof (Z.div_mod (d + 15) 16). lia. Qed.

Lemma level_bytes_cover (w h : Z) :
  0 <= tiles w * tiles h -> 768 * (tiles w * tiles h) <= level_bytes w h.
Proof.
  intros H. rewrite level_bytes_tiles. fold (tiles w) (tiles h).
  pose proof (Z.mod_pos_bound (768 * (tiles w * tiles h) + 1023) 1024).
  pose proof (Z.div_mod (768 * (tiles w * tiles h) + 1023) 1024). lia.
Qed.

(** A texel of the tile grid of a level lies inside the level. *)
Lemma texel_offset_bound (lw lh x y : Z) :
  0 <= x < 16 * tiles lw -> 0 <= y < 16 * tiles lh ->
  0 <= texel_offset lw x y /\ texel_offset lw x y + 3 <= level_bytes lw lh.
Proof.
  intros Hx Hy. rewrite texel_offset_tiles.
  pose proof (space_filler_index_range (x mod 16) (y mod 16)
                ltac:(apply Z.mod_pos_bound; lia)
                ltac:(apply Z.mod_pos_bound; lia)) as Hi.
  assert (Hbx : 0 <= x / 16 < tiles lw).
  { split; [apply Z.div_pos; lia|apply Z.div_lt_upper_bound; lia]. }
  assert (Hby : 0 <= y / 16 < tiles lh).
  { split; [apply Z.div_pos; lia|apply Z.div_lt_upper_bound; lia]. }
  assert (Hp : 0 <= tiles lw * tiles lh) by nia.
  pose proof (level_bytes_cover lw lh Hp).
  assert (0 <= y / 16 * tiles lw) by nia.
  assert (y / 16 * tiles lw + x / 16 + 1 <= tiles lw * tiles lh) by nia.
  lia.
Qed.

(** Distinct bytes of distinct texels of the tile grid have distinct
    addresses. *)
Lemma texel_offset_inj (lw x y c x' y' c' : Z) :
  0 <= x < 16 * tiles lw -> 0 <= x' < 16 * tiles lw ->
  0 <= y -> 0 <= y' -> 0 <= c < 3 -> 0 <= c' < 3 ->
  texel_offset lw x y + c = texel_offset lw x' y' + c' ->
  x = x' /\ y = y' /\ c = c'.
Proof.
  intros Hx Hx' Hy Hy' Hc Hc' E. rewrite !texel_offset_tiles in E.
  pose proof (Z.mod_pos_bound x 16 ltac:(lia)) as Mx.
  pose proof (Z.mod_pos_bound y 16 ltac:(lia)) as My.
  pose proof (Z.mod_pos_bound x' 16 ltac:(lia)) as Mx'.
  pose proof (Z.mod_pos_bound y' 16 ltac:(lia)) as My'.
  pose proof (space_filler_index_range _ _ Mx My) as Hi.
  pose proof (space_filler_index_range _ _ Mx' My') as Hi'.
  assert (Hbx : 0 <= x / 16 < tiles lw).
  { split; [apply Z.div_pos; lia|apply Z.div_lt_upper_bound; lia]. }
  assert (Hbx' : 0 <= x' / 16 < tiles lw).
  { split; [apply Z.div_pos; lia|apply Z.div_lt_upper_bound; lia]. }
  assert (Hby : 0 <= y / 16) by (apply Z.div_pos; lia).
  assert (Hby' : 0 <= y' / 16) by (apply Z.div_pos; lia).
  set (I := space_filler_index (x mod 16) (y mod 16)) in *.
  set (I' := space_filler_index (x' mod 16) (y' mod 16)) in *.
  set (T := y / 16 * tiles lw + x / 16) in *.
  set (T' := y' / 16 * tiles lw + x' / 16) in *.
  assert (Ec : c = c') by lia.
  assert (EI : I = I') by lia.
  assert (ET : T = T') by lia.
  destruct (space_filler_index_inj _ _ _ _ Mx My Mx' My' EI) as [Ex Ey].
  assert (Eby : y / 16 = y' / 16) by (subst T T'; nia).
  assert (Ebx : x / 16 = x' / 16) by (subst T T'; nia).
  pose proof (Z.div_mod x 16 ltac:(lia)). pose proof (Z.div_mod x' 16 ltac:(lia)).
  pose proof (Z.div_mod y 16 ltac:(lia)). pose proof (Z.div_mod y' 16 ltac:(lia)).
  repeat split; lia.
Qed.

(** ** Memory *)

Lemma u8_range (v : Z) : 0 <= u8 v < 256.
Proof. unfold u8. apply Z.mod_pos_bound. reflexivity. Qed.

Lemma u8_small (v : Z) : 0 <= v < 256 -> u8 v = v.
Proof. intros H. unfold u8. apply Z.mod_small. exact H. Qed.

Lemma store_eq (m : mem) (a v : Z) : store m a v a = u8 v.
Proof. unfold store. rewrite Z.eqb_refl. reflexivity. Qed.

Lemma store_ne (m : mem) (a v a' : Z) : a' <> a -> store m a v a' = m a'.
Proof. intros H. unfold store. destruct (Z.eqb_spec a' a); [contradiction|reflexivity]. Qed.

Lemma mem_bytes_store (m : mem) (a v : Z) : mem_bytes m -> mem_bytes (store m a v).
Proof.
  intros H a'. unfold store. destruct (a' =? a); [apply u8_range|apply H].
Qed.

(** Three stores in a row, as every loop body of the file ends with. *)
Lemma store3_frame (m : mem) (d v0 v1 v2 a : Z) :
  ~ (d <= a < d + 3) ->
  store (store (store m d v0) (d + 1) v1) (d + 2) v2 a = m a.
Proof. intros H. rewrite !store_ne by lia. reflexivity. Qed.

Lemma average2_frame (m : mem) (d s k a : Z) :
  ~ (d <= a < d + 3) -> average2 m d s k a = m a.
Proof. intros H. unfold average2. cbv zeta. apply store3_frame, H. Qed.

Lemma average4_frame (m : mem) (d s a : Z) :
  ~ (d <= a < d + 3) -> average4 m d s a = m a.
Proof. intros H. unfold average4. cbv zeta. apply store3_frame, H. Qed.

Lemma mem_bytes_average2 (m : mem) (d s k : Z) :
  mem_bytes m -> mem_bytes (average2 m d s k).
Proof. intros H. unfold average2. cbv zeta. repeat apply mem_bytes_store. exact H. Qed.

Lemma mem_bytes_average4 (m : mem) (d s : Z) :
  mem_bytes m -> mem_bytes (average4 m d s).
Proof. intros H. unfold average4. cbv zeta. repeat apply mem_bytes_store. exact H. Qed.

Lemma mean2_byte (a b : Z) :
  0 <= a < 256 -> 0 <= b < 256 -> u8 (Z.quot (a + b) 2) = (a + b) / 2.
Proof.
  intros Ha Hb. rewrite Z.quot_div_nonneg by lia.
  apply u8_small. split; [apply Z.div_pos; lia|apply Z.div_lt_upper_bound; lia].
Qed.

Lemma mean4_byte (a b c d : Z) :
  0 <= a < 256 -> 0 <= b < 256 -> 0 <= c < 256 -> 0 <= d < 256 ->
  u8 (Z.quot (a + b + c + d) 4) = (a + b + c + d) / 4.
Proof.
  intros Ha Hb Hc Hd. rewrite Z.quot_div_nonneg by lia.
  apply u8_small. split; [apply Z.div_pos; lia|apply Z.div_lt_upper_bound; lia].
Qed.

(** The values stored by the two averaging bodies, when the bytes read do
    not overlap the three bytes written. *)
Lemma average2_value (m : mem) (d s k c : Z) :
  mem_bytes m ->
  (s + 12 <= d \/ d + 3 <= s) -> 0 <= k <= 9 -> 0 <= c < 3 ->
  average2 m d s k (d + c) = (m (s + c) + m (s + c + k)) / 2.
Proof.
  intros Hm Hd Hk Hc. unfold average2. cbv zeta.
  assert (Hcases : c = 0 \/ c = 1 \/ c = 2) by lia.
  destruct Hcases as [-> | [-> | ->]]; rewrite ?Z.add_0_r;
    repeat first [rewrite store_eq | rewrite store_ne by lia];
    apply mean2_byte; apply Hm.
Qed.

Lemma average4_value (m : mem) (d s c : Z) :
  mem_bytes m ->
  (s + 12 <= d \/ d + 3 <= s) -> 0 <= c < 3 ->
  average4 m d s (d + c)
  = (m (s + c) + m (s + 3 + c) + m (s + 6 + c) + m (s + 9 + c)) / 4.
Proof.
  intros Hm Hd Hc. unfold average4. cbv zeta.
  assert (Hcases : c = 0 \/ c = 1 \/ c = 2) by lia.
  destruct Hcases as [-> | [-> | ->]].
  - rewrite !Z.add_0_r.
    repeat first [rewrite store_eq | rewrite store_ne by lia].
    apply mean4_byte; apply Hm.
  - replace (s + 3 + 1) with (s + 4) by lia.
    replace (s + 6 + 1) with (s + 7) by lia.
    replace (s + 9 + 1) with (s + 10) by lia.
    repeat first [rewrite store_eq | rewrite store_ne by lia].
    apply mean4_byte; apply Hm.
  - replace (s + 3 + 2) with (s + 5) by lia.
    replace (s + 6 + 2) with (s + 8) by lia.
    replace (s + 9 + 2) with (s + 11) by lia.
    repeat first [rewrite store_eq | rewrite store_ne by lia].
    apply mean4_byte; apply Hm.
Qed.

(** ** The 2 x 2 block behind a swizzle index *)

Lemma index_shifted (dx dy : Z) :
  0 <= dx < 16 -> 0 <= dy < 16 ->
  Z.land (Z.shiftl (space_filler_index dx dy) 2) 0xFF
  = space_filler_index (2 * (dx mod 8)) (2 * (dy mod 8)).
Proof.
  intros Hx Hy. apply Z.eqb_eq.
  apply (check_range2
    (fun dx dy => Z.land (Z.shiftl (space_filler_index dx dy) 2) 0xFF
                  =? space_filler_index (2 * (dx mod 8)) (2 * (dy mod 8)))
    16 16); [vm_compute; reflexivity|lia|lia].
Qed.

Lemma index_block (a b : Z) :
  0 <= a < 8 -> 0 <= b < 8 ->
  space_filler_index (2 * a + 1) (2 * b) = space_filler_index (2 * a) (2 * b) + 1 /\
  space_filler_index (2 * a + 1) (2 * b + 1) = space_filler_index (2 * a) (2 * b) + 2 /\
  space_filler_index (2 * a) (2 * b + 1) = space_filler_index (2 * a) (2 * b) + 3.
Proof.
  intros Ha Hb.
  pose proof (check_range2
    (fun a b =>
       let i := space_filler_index (2 * a) (2 * b) in
       (space_filler_index (2 * a + 1) (2 * b) =? i + 1)
       && (space_filler_index (2 * a + 1) (2 * b + 1) =? i + 2)
       && (space_filler_index (2 * a) (2 * b + 1) =? i + 3))
    8 8 eq_refl a b ltac:(lia) ltac:(lia)) as C.
  cbv beta zeta in C. lia.
Qed.

Lemma double_div_mod (x : Z) :
  (2 * x) / 16 = x / 8 /\ (2 * x + 1) / 16 = x / 8 /\
  (2 * x) mod 16 = 2 * (x mod 8) /\ (2 * x + 1) mod 16 = 2 * (x mod 8) + 1.
Proof.
  pose proof (Z.div_mod x 8 ltac:(lia)) as E.
  pose proof (Z.mod_pos_bound x 8 ltac:(lia)) as B.
  assert (D0 : (2 * x) / 16 = x / 8)
    by (symmetry; apply Z.div_unique with (r := 2 * (x mod 8)); lia).
  assert (D1 : (2 * x + 1) / 16 = x / 8)
    by (symmetry; apply Z.div_unique with (r := 2 * (x mod 8) + 1); lia).
  repeat split; try assumption.
  - symmetry. apply Z.mod_unique with (q := x / 8); lia.
  - symmetry. apply Z.mod_unique with (q := x / 8); lia.
Qed.

Lemma mod_16_8 (x : Z) : (x mod 16) mod 8 = x mod 8.
Proof.
  pose proof (Z.div_mod x 16 ltac:(lia)) as E.
  pose proof (Z.mod_pos_bound x 16 ltac:(lia)) as B.
  pose proof (Z.div_mod (x mod 16) 8 ltac:(lia)) as E'.
  pose proof (Z.mod_pos_bound (x mod 16) 8 ltac:(lia)) as B'.
  apply Z.mod_unique with (q := 2 * (x / 16) + (x mod 16) / 8); lia.
Qed.

(** The source address of the mip generator is the address of texel
    (2x, 2y) of the source level, and the three other texels of the 2 x 2
    block follow it at 3, 6 and 9 bytes. *)
Lemma mip_source_texel (src : texture_level) (x y : Z) :
  mip_source src x y = lvl_dest src + texel_offset (lvl_width src) (2 * x) (2 * y).
Proof.
  unfold mip_source. rewrite texel_offset_tiles, tiles_block_pitch.
  rewrite !shiftr_3, !land_15.
  destruct (double_div_mod x) as (Dx & _ & Mx & _).
  destruct (double_div_mod y) as (Dy & _ & My & _).
  rewrite Dx, Dy, Mx, My.
  rewrite index_shifted by (apply Z.mod_pos_bound; lia).
  rewrite !mod_16_8. lia.
Qed.

Lemma texel_offset_block (lw x y : Z) :
  texel_offset lw (2 * x + 1) (2 * y) = texel_offset lw (2 * x) (2 * y) + 3 /\
  texel_offset lw (2 * x + 1) (2 * y + 1) = texel_offset lw (2 * x) (2 * y) + 6 /\
  texel_offset lw (2 * x) (2 * y + 1) = texel_offset lw (2 * x) (2 * y) + 9.
Proof.
  rewrite !texel_offset_tiles.
  destruct (double_div_mod x) as (Dx & Dx' & Mx & Mx').
  destruct (double_div_mod y) as (Dy & Dy' & My & My').
  rewrite Dx, Dx', Dy, Dy', Mx, Mx', My, My'.
  destruct (index_block (x mod 8) (y mod 8)
              ltac:(apply Z.mod_pos_bound; lia) ltac:(apply Z.mod_pos_bound; lia))
    as (B1 & B2 & B3).
  rewrite B1, B2, B3. lia.
Qed.

(** The window read for a destination texel stays inside the tile grid of
    the source level, and inside its texels when the source has at least
    two of them in that direction. *)
Lemma window_in_grid (s v : Z) :
  1 <= s -> 0 <= v < Z.max 1 (Z.shiftr s 1) -> 2 * v + 1 < 16 * tiles s.
Proof.
  intros Hs Hv. pose proof (tiles_cover s).
  rewrite (Z.shiftr_div_pow2 s 1) in Hv by lia. change (2 ^ 1) with 2 in Hv.
  pose proof (Z.div_mod s 2 ltac:(lia)). pose proof (Z.mod_pos_bound s 2 ltac:(lia)).
  assert (1 <= tiles s) by (apply tiles_sign; lia).
  lia.
Qed.

Lemma window_in_level (s v : Z) :
  2 <= s -> 0 <= v < Z.max 1 (Z.shiftr s 1) -> 2 * v + 1 < s.
Proof.
  intros Hs Hv.
  rewrite (Z.shiftr_div_pow2 s 1) in Hv by lia. change (2 ^ 1) with 2 in Hv.
  pose proof (Z.div_mod s 2 ltac:(lia)). pose proof (Z.mod_pos_bound s 2 ltac:(lia)).
  lia.
Qed.

(** ** Filling a level texel by texel *)

Lemma written_weaken (m0 m : mem) (l : texture_level)
    (value : Z -> Z -> Z -> Z) (done done' : Z -> Z -> Prop) :
  (forall x y, done' x y -> done x y) ->
  written m0 m l value done -> written m0 m l value done'.
Proof. intros H [F V]. split; [exact F|]. intros x y c Hd. apply V, H, Hd. Qed.

Lemma written_start (m0 : mem) (l : texture_level) (value : Z -> Z -> Z -> Z) :
  written m0 m0 l value (texels_before l 0 0).
Proof.
  split; [reflexivity|]. intros x y c (Hx & Hy & H) _. lia.
Qed.

Lemma written_step (m0 m m' : mem) (l : texture_level)
    (value : Z -> Z -> Z -> Z) (done : Z -> Z -> Prop) (x y : Z) :
  written m0 m l value done ->
  0 <= x < 16 * tiles (lvl_width l) -> 0 <= y < 16 * tiles (lvl_height l) ->
  (forall x' y', done x' y' ->
     0 <= x' < 16 * tiles (lvl_width l) /\ 0 <= y' /\ (x' <> x \/ y' <> y)) ->
  (forall a, ~ (lvl_dest l + texel_offset (lvl_width l) x y <= a
                < lvl_dest l + texel_offset (lvl_width l) x y + 3) -> m' a = m a) ->
  (forall c, 0 <= c < 3 ->
     m' (lvl_dest l + texel_offset (lvl_width l) x y + c) = value x y c) ->
  written m0 m' l value (fun x' y' => done x' y' \/ (x' = x /\ y' = y)).
Proof.
  intros [F V] Hx Hy Hdone Hframe Hval.
  pose proof (texel_offset_bound (lvl_width l) (lvl_height l) x y Hx Hy) as B.
  split.
  - intros a Ha. rewrite Hframe by lia. apply F, Ha.
  - intros x' y' c [Hd|[-> ->]] Hc.
    + destruct (Hdone x' y' Hd) as (Hx' & Hy' & Hne).
      unfold texel. rewrite Hframe; [apply V; assumption|].
      intros Hin.
      set (c' := lvl_dest l + texel_offset (lvl_width l) x' y' + c
                 - (lvl_dest l + texel_offset (lvl_width l) x y)) in *.
      destruct (texel_offset_inj (lvl_width l) x' y' c x y c'
                  Hx' Hx Hy' ltac:(lia) Hc ltac:(subst c'; lia)
                  ltac:(subst c'; lia)) as (Ex & Ey & _).
      lia.
    + unfold texel. apply Hval, Hc.
Qed.

(** ** One step of the mip generator *)

Section MipStep.

Variables dst src : texture_level.
Variable m0 : mem.

Hypothesis src_width : 1 <= lvl_width src.
Hypothesis src_height : 1 <= lvl_height src.
Hypothesis dst_width : lvl_width dst = Z.max 1 (Z.shiftr (lvl_width src) 1).
Hypothesis dst_height : lvl_height dst = Z.max 1 (Z.shiftr (lvl_height src) 1).
Hypothesis src_before_dst :
  lvl_dest src + level_bytes (lvl_width src) (lvl_height src) <= lvl_dest dst.
Hypothesis m0_bytes : mem_bytes m0.

Lemma src_texel_stable (m : mem) (x y c : Z) :
  level_frame m0 dst m ->
  0 <= x < 16 * tiles (lvl_width src) -> 0 <= y < 16 * tiles (lvl_height src) ->
  0 <= c < 3 ->
  m (lvl_dest src + texel_offset (lvl_width src) x y + c)
  = m0 (lvl_dest src + texel_offset (lvl_width src) x y + c).
Proof.
  intros F Hx Hy Hc.
  pose proof (texel_offset_bound _ _ x y Hx Hy). apply F. lia.
Qed.

Lemma dst_grid (x y : Z) :
  0 <= x < lvl_width dst -> 0 <= y < lvl_height dst ->
  0 <= x < 16 * tiles (lvl_width dst) /\ 0 <= y < 16 * tiles (lvl_height dst).
Proof.
  intros Hx Hy. pose proof (tiles_cover (lvl_width dst)).
  pose proof (tiles_cover (lvl_height dst)). lia.
Qed.

Lemma mip_pixel (m : mem) (x y : Z) :
  mem_bytes m -> level_frame m0 dst m ->
  0 <= x < lvl_width dst -> 0 <= y < lvl_height dst ->
  let d := lvl_dest dst + texel_offset (lvl_width dst) x y in
  let s := mip_source src x y in
  let m' := if lvl_width src =? 1 then average2 m d s 9
            else if lvl_height src =? 1 then average2 m d s 3
            else average4 m d s in
  mem_bytes m' /\
  (forall a, ~ (d <= a < d + 3) -> m' a = m a) /\
  (forall c, 0 <= c < 3 -> m' (d + c) = box_average m0 src x y c).
Proof.
  intros Hm F Hx Hy d s m'.
  destruct (dst_grid x y Hx Hy) as [Gx Gy].
  pose proof (texel_offset_bound _ _ x y Gx Gy) as Bd.
  pose proof (window_in_grid (lvl_width src) x src_width ltac:(lia)) as Wx.
  pose proof (window_in_grid (lvl_height src) y src_height ltac:(lia)) as Wy.
  destruct (texel_offset_block (lvl_width src) x y) as (B1 & B2 & B3).
  pose proof (texel_offset_bound (lvl_width src) (lvl_height src)
                (2 * x) (2 * y) ltac:(lia) ltac:(lia)) as Bs0.
  pose proof (texel_offset_bound (lvl_width src) (lvl_height src)
                (2 * x) (2 * y + 1) ltac:(lia) ltac:(lia)) as Bs3.
  assert (Es : s = lvl_dest src + texel_offset (lvl_width src) (2 * x) (2 * y))
    by apply mip_source_texel.
  assert (Hsep : s + 12 <= d \/ d + 3 <= s) by (left; subst d; lia).
  assert (St : forall k c, 0 <= k -> k + c < 12 -> 0 <= c < 3 ->
                 m (s + k + c) = m0 (s + k + c)).
  { intros k c Hk Hkc Hc. apply F. lia. }
  unfold box_average, texel. subst m'.
  destruct (Z.eqb_spec (lvl_width src) 1) as [E1|E1];
    [|destruct (Z.eqb_spec (lvl_height src) 1) as [E2|E2]].
  - assert (Ew : lvl_width dst = 1) by (rewrite dst_width, E1; reflexivity).
    assert (x = 0) by lia. subst x.
    change (2 * 0) with 0 in *.
    split; [apply mem_bytes_average2, Hm|].
    split; [intros a Ha; apply average2_frame, Ha|].
    intros c Hc. rewrite average2_value by (assumption || lia).
    pose proof (St 0 c ltac:(lia) ltac:(lia) Hc) as S0.
    pose proof (St 9 c ltac:(lia) ltac:(lia) Hc) as S9.
    rewrite Z.add_0_r in S0.
    replace (lvl_dest src + texel_offset (lvl_width src) 0 (2 * y) + c)
      with (s + c) by lia.
    replace (lvl_dest src + texel_offset (lvl_width src) 0 (2 * y + 1) + c)
      with (s + 9 + c) by lia.
    replace (s + c + 9) with (s + 9 + c) by lia. rewrite S0, S9. reflexivity.
  - assert (Eh : lvl_height dst = 1) by (rewrite dst_height, E2; reflexivity).
    assert (y = 0) by lia. subst y.
    change (2 * 0) with 0 in *.
    split; [apply mem_bytes_average2, Hm|].
    split; [intros a Ha; apply average2_frame, Ha|].
    intros c Hc. rewrite average2_value by (assumption || lia).
    pose proof (St 0 c ltac:(lia) ltac:(lia) Hc) as S0.
    pose proof (St 3 c ltac:(lia) ltac:(lia) Hc) as S3.
    rewrite Z.add_0_r in S0.
    replace (lvl_dest src + texel_offset (lvl_width src) (2 * x) 0 + c)
      with (s + c) by lia.
    replace (lvl_dest src + texel_offset (lvl_width src) (2 * x + 1) 0 + c)
      with (s + 3 + c) by lia.
    replace (s + c + 3) with (s + 3 + c) by lia. rewrite S0, S3. reflexivity.
  - split; [apply mem_bytes_average4, Hm|].
    split; [intros a Ha; apply average4_frame, Ha|].
    intros c Hc. rewrite average4_value by (assumption || lia).
    pose proof (St 0 c ltac:(lia) ltac:(lia) Hc) as S0.
    pose proof (St 3 c ltac:(lia) ltac:(lia) Hc) as S3.
    pose proof (St 6 c ltac:(lia) ltac:(lia) Hc) as S6.
    pose proof (St 9 c ltac:(lia) ltac:(lia) Hc) as S9.
    rewrite Z.add_0_r in S0.
    replace (lvl_dest src + texel_offset (lvl_width src) (2 * x) (2 * y) + c)
      with (s + c) by lia.
    replace (lvl_dest src + texel_offset (lvl_width src) (2 * x + 1) (2 * y) + c)
      with (s + 3 + c) by lia.
    replace (lvl_dest src + texel_offset (lvl_width src) (2 * x + 1) (2 * y + 1) + c)
      with (s + 6 + c) by lia.
    replace (lvl_dest src + texel_offset (lvl_width src) (2 * x) (2 * y + 1) + c)
      with (s + 9 + c) by lia.
    rewrite S0, S3, S6, S9. reflexivity.
Qed.

Lemma mip_pixel_inv (m : mem) (x y : Z) :
  mip_inv m0 dst src x y m ->
  0 <= x < lvl_width dst -> 0 <= y < lvl_height dst ->
  mip_inv m0 dst src (x + 1) y
    (if lvl_width src =? 1
     then average2 m (lvl_dest dst + texel_offset (lvl_width dst) x y)
                   (mip_source src x y) 9
     else if lvl_height src =? 1
     then average2 m (lvl_dest dst + texel_offset (lvl_width dst) x y)
                   (mip_source src x y) 3
     else average4 m (lvl_dest dst + texel_offset (lvl_width dst) x y)
                   (mip_source src x y)).
Proof.
  intros [Hm W] Hx Hy.
  destruct (mip_pixel m x y Hm (proj1 W) Hx Hy) as (Hm' & Fr & Va).
  split; [exact Hm'|].
  destruct (dst_grid x y Hx Hy) as [Gx Gy].
  pose proof (tiles_cover (lvl_width dst)) as Tc.
  eapply written_weaken;
    [|apply (written_step m0 m _ dst _ (texels_before dst x y) x y W Gx Gy);
      [|exact Fr|exact Va]].
  - unfold texels_before. intros x' y' H. cbv beta. lia.
  - unfold texels_before. intros x' y' H. lia.
Qed.

Lemma inv_next_row (m : mem) (y : Z) :
  mip_inv m0 dst src (lvl_width dst) y m -> mip_inv m0 dst src 0 (y + 1) m.
Proof.
  intros [Hm W]. split; [exact Hm|].
  eapply written_weaken; [|exact W].
  unfold texels_before. intros x' y' H. lia.
Qed.

Lemma dest_general (x y : Z) :
  lvl_dest dst
  + 3 * 256 * (Z.shiftr (ALIGN (lvl_width dst) 16) 4 * Z.shiftr y 4 + Z.shiftr x 4)
  + 3 * space_filler_index (Z.land x 0x0F) (Z.land y 0x0F)
  = lvl_dest dst + texel_offset (lvl_width dst) x y.
Proof. unfold texel_offset. lia. Qed.

(** The mip generator writes only inside [dst], keeps memory made of
    bytes, and leaves in every texel of [dst] the truncated mean of its
    window in [src]. *)
Lemma texture_24_mipmap_spec :
  mem_bytes (texture_24_mipmap dst src m0) /\
  written m0 (texture_24_mipmap dst src m0) dst (box_average m0 src)
          (all_texels dst).
Proof.
  assert (Hdw : 1 <= lvl_width dst) by lia.
  assert (Hdh : 1 <= lvl_height dst) by lia.
  assert (Hstart : mip_inv m0 dst src 0 0 m0) by (split; [exact m0_bytes|apply written_start]).
  assert (Hend : forall m, mip_inv m0 dst src 0 (lvl_height dst) m \/
                           (lvl_height dst = 1 /\ mip_inv m0 dst src (lvl_width dst) 0 m) ->
                 mem_bytes m /\
                 written m0 m dst (box_average m0 src) (all_texels dst)).
  { intros m [[Hm W]|[E [Hm W]]]; (split; [exact Hm|]);
      (eapply written_weaken; [|exact W]);
      unfold all_texels, texels_before; intros x y H; lia. }
  unfold texture_24_mipmap. cbv zeta.
  destruct (Z.eqb_spec (lvl_width src) 1) as [E1|E1];
    [|destruct (Z.eqb_spec (lvl_height src) 1) as [E2|E2]].
  - apply Hend. left.
    assert (Ew : lvl_width dst = 1) by (rewrite dst_width, E1; reflexivity).
    apply (for_range_ind (fun y m => mip_inv m0 dst src 0 y m)); [lia|exact Hstart|].
    intros y m Hy Hi. apply inv_next_row.
    assert (G : forall mm, mip_inv m0 dst src (0 + 1) y mm -> mip_inv m0 dst src (lvl_width dst) y mm)
      by (rewrite Ew; auto).
    apply G.
    pose proof (mip_pixel_inv m 0 y Hi ltac:(lia) Hy) as H.
    rewrite E1 in H. cbn [Z.eqb Pos.eqb] in H.
    unfold mip_source in H.
    change (Z.shiftr 0 3) with 0 in H. change (Z.land 0 15) with 0 in H.
    rewrite Z.add_0_r in H.
    rewrite <- dest_general in H.
    change (Z.shiftr 0 4) with 0 in H. change (Z.land 0 15) with 0 in H.
    rewrite Z.add_0_r in H. exact H.
  - apply Hend. right.
    assert (Eh : lvl_height dst = 1) by (rewrite dst_height, E2; reflexivity).
    split; [exact Eh|].
    apply (for_range_ind (fun x m => mip_inv m0 dst src x 0 m)); [lia|exact Hstart|].
    intros x m Hx Hi.
    pose proof (mip_pixel_inv m x 0 Hi Hx ltac:(lia)) as H.
    destruct (Z.eqb_spec (lvl_width src) 1) as [|_]; [contradiction|].
    rewrite E2 in H. cbn [Z.eqb Pos.eqb] in H.
    unfold mip_source in H.
    change (Z.shiftr 0 3) with 0 in H. change (Z.land 0 15) with 0 in H.
    rewrite Z.mul_0_r, Z.add_0_l in H.
    rewrite <- dest_general in H.
    change (Z.shiftr 0 4) with 0 in H. change (Z.land 0 15) with 0 in H.
    rewrite Z.mul_0_r, Z.add_0_l in H. exact H.
  - apply Hend. left.
    apply (for_range_ind (fun y m => mip_inv m0 dst src 0 y m)); [lia|exact Hstart|].
    intros y m Hy Hi. apply inv_next_row.
    apply (for_range_ind (fun x m => mip_inv m0 dst src x y m)); [lia|exact Hi|].
    intros x m' Hx Hi'.
    pose proof (mip_pixel_inv m' x y Hi' Hx Hy) as H.
    destruct (Z.eqb_spec (lvl_width src) 1) as [|_]; [contradiction|].
    destruct (Z.eqb_spec (lvl_height src) 1) as [|_]; [contradiction|].
    rewrite <- dest_general in H. exact H.
Qed.

End MipStep.

(** ** Swizzle encoder *)

Lemma mem_bytes_for_loop (n : nat) (i : Z) (body : Z -> mem -> mem) (m : mem) :
  (forall i m, mem_bytes m -> mem_bytes (body i m)) ->
  mem_bytes m -> mem_bytes (for_loop n i body m).
Proof.
  intros Hb. revert i m. induction n as [|n IH]; intros i m Hm; simpl.
  - exact Hm.
  - apply IH, Hb, Hm.
Qed.

Lemma mem_bytes_swizzle (t : texture) (pixels : Z -> Z) (m : mem) :
  mem_bytes m -> mem_bytes (texture_24_swizzle t pixels m).
Proof.
  intros Hm. unfold texture_24_swizzle, for_range. cbv zeta.
  apply mem_bytes_for_loop; [|exact Hm].
  intros y m1 Hm1. apply mem_bytes_for_loop; [|exact Hm1].
  intros x m2 Hm2. repeat apply mem_bytes_store. exact Hm2.
Qed.

Lemma store3_value (m : mem) (d : Z) (v : Z -> Z) (c : Z) :
  0 <= c < 3 ->
  store (store (store m d (v 0)) (d + 1) (v 1)) (d + 2) (v 2) (d + c) = u8 (v c).
Proof.
  intros Hc. assert (Hcases : c = 0 \/ c = 1 \/ c = 2) by lia.
  destruct Hcases as [-> | [-> | ->]]; rewrite ?Z.add_0_r;
    repeat first [rewrite store_eq | rewrite store_ne by lia]; reflexivity.
Qed.

(** The swizzle encoder writes only inside level 0 and leaves in every
    texel of level 0 the bytes of the source pixel. *)
Lemma texture_24_swizzle_spec (t : texture) (pixels : Z -> Z) (m0 : mem) :
  1 <= width t -> 1 <= height t ->
  lvl_width (level_at t 0) = width t -> lvl_height (level_at t 0) = height t ->
  written m0 (texture_24_swizzle t pixels m0) (level_at t 0)
          (swizzle_value t pixels) (all_texels (level_at t 0)).
Proof.
  intros Hw Hh Ew Eh. set (l := level_at t 0) in *.
  pose proof (tiles_cover (lvl_width l)) as Tw.
  pose proof (tiles_cover (lvl_height l)) as Th.
  assert (Hrow : forall y m, 0 <= y < height t ->
            written m0 m l (swizzle_value t pixels) (texels_before l 0 y) ->
            forall x, 0 <= x <= width t ->
            written m0
              (for_range 0 x (fun x m =>
                 let block_x := Z.shiftr x 4 in
                 let rem_x := Z.land x 0x0F in
                 let index := space_filler_index rem_x (Z.land y 0x0F) in
                 let source := y * ALIGN (width t * 3) 4 + 3 * x in
                 let dest := lvl_dest l
                             + (3 * 256) * (Z.shiftr y 4 * Z.shiftr (ALIGN (width t) 16) 4
                                            + block_x)
                             + 3 * index in
                 let m := store m dest (pixels source) in
                 let m := store m (dest + 1) (pixels (source + 1)) in
                 store m (dest + 2) (pixels (source + 2))) m)
              l (swizzle_value t pixels) (texels_before l x y)).
  { intros y m Hy W x Hx.
    apply (for_range_ind
             (fun x m => written m0 m l (swizzle_value t pixels) (texels_before l x y)));
      [lia|exact W|].
    clear W m. intros x' m Hx' W. cbv zeta.
    assert (Hxx : 0 <= x' < width t) by lia. clear Hx' Hx x.
    rename x' into x.
    replace (lvl_dest l
             + 3 * 256 * (Z.shiftr y 4 * Z.shiftr (ALIGN (width t) 16) 4 + Z.shiftr x 4)
             + 3 * space_filler_index (Z.land x 15) (Z.land y 15))
      with (lvl_dest l + texel_offset (lvl_width l) x y)
      by (unfold texel_offset; rewrite Ew; lia).
    eapply written_weaken;
      [|apply (written_step m0 m _ l _ (texels_before l x y) x y W);
        [lia|lia| | |]].
    - unfold texels_before. intros x' y' H. cbv beta. lia.
    - unfold texels_before. intros x' y' H. lia.
    - intros a Ha. apply store3_frame, Ha.
    - intros c Hc. unfold swizzle_value.
      rewrite <- (store3_value m (lvl_dest l + texel_offset (lvl_width l) x y)
                    (fun c => pixels (y * ALIGN (width t * 3) 4 + 3 * x + c)) c Hc).
      cbv beta. rewrite Z.add_0_r. reflexivity. }
  unfold texture_24_swizzle. cbv zeta. fold l.
  eapply written_weaken;
    [|apply (for_range_ind
               (fun y m => written m0 m l (swizzle_value t pixels) (texels_before l 0 y)));
      [lia|apply written_start|]].
  - unfold all_texels, texels_before. intros x y H. lia.
  - intros y m Hy W. eapply written_weaken; [|apply (Hrow y m Hy W (width t)); lia].
    unfold texels_before. intros x' y' H. lia.
Qed.

(** ** The mip chain *)

Lemma level_dim_succ (d i : Z) :
  0 <= d -> 0 <= i ->
  level_dim d (i + 1) = Z.max 1 (Z.shiftr (level_dim d i) 1).
Proof.
  intros Hd Hi. rewrite !level_dim_max by assumption.
  rewrite <- Z.shiftr_shiftr by lia.
  pose proof (proj2 (Z.shiftr_nonneg d i) Hd) as H0.
  destruct (Z.eq_dec (Z.shiftr d i) 0) as [E|E].
  - rewrite E. reflexivity.
  - replace (Z.max 1 (Z.shiftr d i)) with (Z.shiftr d i) by lia. reflexivity.
Qed.

Lemma level_start_succ (state : limare_state) (w h j : Z) :
  0 <= j ->
  level_start state w h (j + 1) = level_start state w h j + planned_size w h j.
Proof. intros Hj. unfold level_start. rewrite sizes_sum_succ by assumption. lia. Qed.

Lemma level_start_mono (state : limare_state) (w h j k : Z) :
  0 <= w -> 0 <= h -> 0 <= j <= k ->
  level_start state w h j <= level_start state w h k.
Proof.
  intros Hw Hh Hjk. unfold level_start.
  pose proof (sizes_sum_le w h (Z.to_nat j) (Z.to_nat k)
                (fun i => planned_size_nonneg w h i Hw Hh) ltac:(lia)).
  lia.
Qed.

Lemma texel_in_level (l : texture_level) (x y c : Z) :
  0 <= x < 16 * tiles (lvl_width l) -> 0 <= y < 16 * tiles (lvl_height l) ->
  0 <= c < 3 ->
  lvl_dest l <= lvl_dest l + texel_offset (lvl_width l) x y + c
  < lvl_dest l + level_bytes (lvl_width l) (lvl_height l).
Proof.
  intros Hx Hy Hc. pose proof (texel_offset_bound _ _ x y Hx Hy). lia.
Qed.

Lemma valid_texel_in_level (l : texture_level) (x y c : Z) :
  all_texels l x y -> 0 <= c < 3 ->
  lvl_dest l <= lvl_dest l + texel_offset (lvl_width l) x y + c
  < lvl_dest l + level_bytes (lvl_width l) (lvl_height l).
Proof.
  intros [Hx Hy] Hc. pose proof (tiles_cover (lvl_width l)).
  pose proof (tiles_cover (lvl_height l)). apply texel_in_level; lia.
Qed.

(** The mean of a window depends only on the bytes of the source level. *)
Lemma box_average_ext (m m' : mem) (src : texture_level) (x y c : Z) :
  1 <= lvl_width src -> 1 <= lvl_height src ->
  0 <= x < Z.max 1 (Z.shiftr (lvl_width src) 1) ->
  0 <= y < Z.max 1 (Z.shiftr (lvl_height src) 1) ->
  0 <= c < 3 ->
  (forall a, lvl_dest src <= a
             < lvl_dest src + level_bytes (lvl_width src) (lvl_height src) ->
             m a = m' a) ->
  box_average m src x y c = box_average m' src x y c.
Proof.
  intros Hw Hh Hx Hy Hc E.
  pose proof (window_in_grid (lvl_width src) x Hw Hx) as Wx.
  pose proof (window_in_grid (lvl_height src) y Hh Hy) as Wy.
  assert (T : forall x' y', 0 <= x' < 16 * tiles (lvl_width src) ->
                0 <= y' < 16 * tiles (lvl_height src) ->
                texel m src x' y' c = texel m' src x' y' c).
  { intros x' y' Hx' Hy'. unfold texel. apply E, texel_in_level; assumption. }
  unfold box_average.
  rewrite (T 0 (2 * y)), (T 0 (2 * y + 1)), (T (2 * x) 0), (T (2 * x + 1) 0),
    (T (2 * x) (2 * y)), (T (2 * x + 1) (2 * y)), (T (2 * x + 1) (2 * y + 1)),
    (T (2 * x) (2 * y + 1)) by lia.
  reflexivity.
Qed.

Section Chain.

Variable state : limare_state.
Variables w h n : Z.
Variable t : texture.

Hypothesis w_nonneg : 0 <= w.
Hypothesis h_nonneg : 0 <= h.
Hypothesis t_levels :
  forall j, 0 <= j < n -> level_at t j = planned_level state w h j.

Lemma planned_level_region (j : Z) (a : Z) :
  0 <= j ->
  (lvl_dest (planned_level state w h j) <= a
   < lvl_dest (planned_level state w h j)
     + level_bytes (lvl_width (planned_level state w h j))
                   (lvl_height (planned_level state w h j)))
  <-> level_start state w h j <= a < level_start state w h (j + 1).
Proof.
  intros Hj. rewrite level_start_succ by assumption.
  unfold planned_level, planned_size, level_start. cbn. reflexivity.
Qed.

Lemma chain_step (m1 m : mem) (i : Z) :
  1 <= i < n ->
  chain_inv state w h m1 i m ->
  chain_inv state w h m1 (i + 1)
    (texture_24_mipmap (level_at t i) (level_at t (i - 1)) m).
Proof.
  intros Hi (Hm & Hframe & Hmeans).
  rewrite (t_levels i), (t_levels (i - 1)) by lia.
  set (dst := planned_level state w h i).
  set (src := planned_level state w h (i - 1)).
  assert (Hsw : 1 <= lvl_width src) by (apply level_dim_sign; assumption).
  assert (Hsh : 1 <= lvl_height src) by (apply level_dim_sign; assumption).
  assert (Hdw : lvl_width dst = Z.max 1 (Z.shiftr (lvl_width src) 1)).
  { subst dst src. cbn. replace i with (i - 1 + 1) at 1 by lia.
    apply level_dim_succ; lia. }
  assert (Hdh : lvl_height dst = Z.max 1 (Z.shiftr (lvl_height src) 1)).
  { subst dst src. cbn. replace i with (i - 1 + 1) at 1 by lia.
    apply level_dim_succ; lia. }
  pose proof (level_start_succ state w h (i - 1) ltac:(lia)) as Ss.
  replace (i - 1 + 1) with i in Ss by lia.
  assert (Hsep : lvl_dest src + level_bytes (lvl_width src) (lvl_height src)
                 <= lvl_dest dst).
  { subst dst src. unfold planned_level, planned_size, level_start in *. cbn. lia. }
  destruct (texture_24_mipmap_spec dst src m Hsw Hsh Hdw Hdh Hsep Hm)
    as (Hm' & Fr & Va).
  set (m' := texture_24_mipmap dst src m) in *.
  assert (Fr' : forall a, ~ (level_start state w h i <= a
                             < level_start state w h (i + 1)) -> m' a = m a).
  { intros a Ha. apply Fr. intros Hin. apply Ha.
    apply (planned_level_region i a); [lia|exact Hin]. }
  pose proof (level_start_mono state w h 1 i w_nonneg h_nonneg ltac:(lia)) as M1.
  pose proof (level_start_mono state w h i (i + 1) w_nonneg h_nonneg ltac:(lia)) as M2.
  split; [exact Hm'|]. split.
  - intros a Ha. rewrite Fr' by lia. apply Hframe. lia.
  - intros j x y c Hj Hv Hc.
    assert (Hsrc : forall a,
              level_start state w h (j - 1) <= a < level_start state w h j ->
              m' a = m a).
    { intros a Ha. apply Fr'.
      pose proof (level_start_mono state w h j i w_nonneg h_nonneg ltac:(lia)).
      lia. }
    assert (Ebox : box_average m' (planned_level state w h (j - 1)) x y c
                   = box_average m (planned_level state w h (j - 1)) x y c).
    { destruct Hv as [Hx Hy]. cbn in Hx, Hy.
      replace j with (j - 1 + 1) in Hx, Hy by lia.
      rewrite level_dim_succ in Hx, Hy by lia.
      apply box_average_ext; cbn; try assumption;
        try (apply level_dim_sign; assumption).
      intros a Ha. apply Hsrc.
      apply (planned_level_region (j - 1) a ltac:(lia)) in Ha.
      replace (j - 1 + 1) with j in Ha by lia. exact Ha. }
    rewrite Ebox.
    destruct (Z.eq_dec j i) as [->|Hne].
    + fold dst src. apply Va; assumption.
    + unfold texel at 1. rewrite Fr'.
      * apply Hmeans; [lia|assumption|assumption].
      * pose proof (valid_texel_in_level _ x y c Hv Hc) as R.
        apply (planned_level_region j _ ltac:(lia)) in R.
        pose proof (level_start_mono state w h (j + 1) i w_nonneg h_nonneg ltac:(lia)).
        lia.
Qed.

(** After the mip chain: memory is made of bytes, nothing below level 1
    has changed since the swizzle encoder, and every level from 1 on holds
    the means of its predecessor. *)
Lemma chain_spec (m1 : mem) :
  mem_bytes m1 ->
  let m := for_range 1 n
             (fun i m => texture_24_mipmap (level_at t i) (level_at t (i - 1)) m)
             m1 in
  mem_bytes m /\
  (forall a, a < level_start state w h 1 -> m a = m1 a) /\
  (forall j x y c, 1 <= j < n ->
     all_texels (planned_level state w h j) x y -> 0 <= c < 3 ->
     texel m (planned_level state w h j) x y c
     = box_average m (planned_level state w h (j - 1)) x y c).
Proof.
  intros Hm1 m. subst m.
  destruct (Z_le_gt_dec 1 n) as [Hn|Hn].
  - assert (C : chain_inv state w h m1 n
                  (for_range 1 n
                     (fun i m => texture_24_mipmap (level_at t i) (level_at t (i - 1)) m)
                     m1)).
    { apply (for_range_ind (chain_inv state w h m1)); [exact Hn| |].
      - split; [exact Hm1|]. split; [reflexivity|]. intros; lia.
      - intros i m Hi Hinv. apply chain_step; assumption. }
    destruct C as (C1 & C2 & C3). split; [exact C1|]. split; [|exact C3].
    intros a Ha. apply C2. lia.
  - rewrite for_range_empty by lia.
    split; [exact Hm1|]. split; [reflexivity|]. intros; lia.
Qed.

End Chain.

(** ** The memory of a constructed texture *)

Lemma texture_create_filled (rgb : Z) (state : limare_state) (m : mem)
    (src : Z -> Z) (w h fmt mipmap : Z) (t : texture)
    (state' : limare_state) (m' : mem) :
  0 <= w -> 0 <= h -> mem_bytes m ->
  texture_create rgb state m src w h fmt mipmap = Some (Some t, state', m') ->
  requested_levels w h mipmap = Some (levels t) /\
  (forall j, 0 <= j < levels t -> level_at t j = planned_level state w h j) /\
  mem_bytes m' /\
  (forall j x y c, 1 <= j < levels t ->
     all_texels (planned_level state w h j) x y -> 0 <= c < 3 ->
     texel m' (planned_level state w h j) x y c
     = box_average m' (planned_level state w h (j - 1)) x y c) /\
  (1 <= w -> 1 <= h -> 1 <= levels t ->
   forall x y c, 0 <= x < w -> 0 <= y < h -> 0 <= c < 3 ->
     texel m' (planned_level state w h 0) x y c
     = u8 (src (y * ALIGN (w * 3) 4 + 3 * x + c))).
Proof.
  intros Hw Hh Hm E.
  destruct (texture_create_levels_planned _ _ _ _ _ _ _ _ _ _ _ E)
    as (_ & _ & _ & _ & _ & Hn & _ & _ & Hlv).
  apply texture_create_inv in E.
  destruct E as (_ & _ & _ & n & t2 & Hn' & _ & P & Et & _ & Em).
  rewrite Hn in Hn'. inversion Hn' as [En]. clear Hn'.
  destruct P as (Pw & Ph & _ & Pl & _ & _ & Plo & _).
  cbn [new_texture width height levels] in Pw, Ph, Pl, Plo.
  split; [exact Hn|]. split; [exact Hlv|].
  assert (Hm1 : mem_bytes (texture_24_swizzle t2 src m))
    by (apply mem_bytes_swizzle, Hm).
  pose proof (chain_spec state w h n t2 Hw Hh Plo
                (texture_24_swizzle t2 src m) Hm1) as C.
  cbv zeta in C. unfold fill_levels in Em. rewrite Pl in Em. rewrite <- Em in C.
  destruct C as (C1 & C2 & C3). rewrite En.
  split; [exact C1|]. split; [exact C3|].
  intros Hw1 Hh1 Hn1 x y c Hx Hy Hc.
  assert (E0 : level_at t2 0 = planned_level state w h 0) by (apply Plo; lia).
  assert (Ed : level_dim w 0 = w /\ level_dim h 0 = h).
  { rewrite !level_dim_max, !Z.shiftr_0_r by lia. lia. }
  destruct Ed as [Edw Edh].
  pose proof (texture_24_swizzle_spec t2 src m) as S.
  rewrite E0, Pw, Ph in S. cbn [planned_level lvl_width lvl_height] in S.
  specialize (S Hw1 Hh1 Edw Edh). destruct S as [_ S].
  assert (V : all_texels (planned_level state w h 0) x y).
  { unfold all_texels. cbn. rewrite Edw, Edh. lia. }
  specialize (S x y c V Hc). unfold swizzle_value in S. rewrite Pw in S.
  rewrite <- S. unfold texel. apply C2.
  pose proof (valid_texel_in_level _ x y c V Hc) as R.
  apply (planned_level_region state w h 0 _ ltac:(lia)) in R.
  change (0 + 1) with 1 in R. lia.
Qed.

(** C4. In a texture constructed in a memory of bytes, every channel of
    every texel of every level [i >= 1] is the truncated integer mean of
    its window in level [i - 1]: the texels (0, 2y) and (0, 2y+1) when level
    [i - 1] is one texel wide, the texels (2x, 0) and (2x+1, 0) when it is
    one texel high, and the 2 x 2 block at (2x, 2y) otherwise. The window is
    read from the single source address derived from the swizzle index of
    the destination texel: that address is the one of texel (2x, 2y), and
    the texels (2x+1, 2y), (2x+1, 2y+1) and (2x, 2y+1) follow at 3, 6 and 9
    bytes. *)
Theorem texture_create_mip_average (rgb : Z) (state : limare_state) (m : mem)
    (src : Z -> Z) (w h fmt mipmap : Z) (t : texture)
    (state' : limare_state) (m' : mem) (i x y c : Z) :
  mem_bytes m ->
  texture_create rgb state m src w h fmt mipmap = Some (Some t, state', m') ->
  1 <= i < levels t ->
  0 <= x < lvl_width (level_at t i) -> 0 <= y < lvl_height (level_at t i) ->
  0 <= c < 3 ->
  let prev := level_at t (i - 1) in
  texel m' (level_at t i) x y c = box_average m' prev x y c /\
  mip_source prev x y
    = lvl_dest prev + texel_offset (lvl_width prev) (2 * x) (2 * y) /\
  lvl_dest prev + texel_offset (lvl_width prev) (2 * x + 1) (2 * y)
    = mip_source prev x y + 3 /\
  lvl_dest prev + texel_offset (lvl_width prev) (2 * x + 1) (2 * y + 1)
    = mip_source prev x y + 6 /\
  lvl_dest prev + texel_offset (lvl_width prev) (2 * x) (2 * y + 1)
    = mip_source prev x y + 9.
Proof.
  intros Hm E Hi Hx Hy Hc prev.
  split.
  - destruct (texture_create_levels_planned _ _ _ _ _ _ _ _ _ _ _ E)
      as (_ & _ & _ & _ & _ & _ & _ & _ & Hlv').
    assert (Hw : 0 <= w).
    { destruct (Z_lt_le_dec w 0) as [Hneg|]; [|assumption].
      rewrite (Hlv' i) in Hx by lia. cbn in Hx.
      pose proof (proj2 (level_dim_sign w i) Hneg). lia. }
    assert (Hh : 0 <= h).
    { destruct (Z_lt_le_dec h 0) as [Hneg|]; [|assumption].
      rewrite (Hlv' i) in Hy by lia. cbn in Hy.
      pose proof (proj2 (level_dim_sign h i) Hneg). lia. }
    destruct (texture_create_filled _ _ _ _ _ _ _ _ _ _ _ Hw Hh Hm E)
      as (_ & Hlv & _ & Hmean & _).
    subst prev. rewrite (Hlv i), (Hlv (i - 1)) in * by lia.
    apply Hmean; [lia| |exact Hc]. split; assumption.
  - destruct (texel_offset_block (lvl_width prev) x y) as (B1 & B2 & B3).
    rewrite mip_source_texel. repeat split; lia.
Qed.

Lemma texture_create_mip_average_witness :
  exists t state' m',
    texture_create 0x15 sample_state zero_mem grey_pixels 4 2 0x15 1
      = Some (Some t, state', m') /\
    texel m' (level_at t 1) 1 0 2 = box_average m' (level_at t 0) 1 0 2.
Proof.
  destruct (texture_create_success 0x15 sample_state zero_mem grey_pixels
              4 2 0x15 1 3 ltac:(lia) ltac:(lia) eq_refl eq_refl)
    as (t2 & P & E).
  { vm_compute. discriminate. }
  eexists _, _, _. split; [exact E|].
  pose proof (texture_create_levels_planned _ _ _ _ _ _ _ _ _ _ _ E)
    as (_ & _ & _ & _ & _ & Hn & _ & _ & Hlv).
  assert (Hl : levels (texture_descriptor_levels_attach
                         (descriptor_header t2 4 2 0x15)) = 3).
  { change (requested_levels 4 2 1) with (Some 3) in Hn. inversion Hn. reflexivity. }
  refine (proj1 (texture_create_mip_average 0x15 sample_state zero_mem
                   grey_pixels 4 2 0x15 1 _ _ _ 1 1 0 2
                   _ E _ _ _ ltac:(lia))).
  - intros a. unfold zero_mem. lia.
  - rewrite Hl. lia.
  - rewrite (Hlv 1) by (rewrite Hl; lia). vm_compute. split; [discriminate|reflexivity].
  - rewrite (Hlv 1) by (rewrite Hl; lia). vm_compute. split; [discriminate|reflexivity].
Defined.

(** ** Uniform images *)

(** A level that is not the last one of the chain has at least two texels
    in one direction. *)
Lemma not_last_level (w h i : Z) :
  1 <= w -> 1 <= h -> 0 <= i -> i < Z.log2 (Z.max w h) ->
  2 <= level_dim w i \/ 2 <= level_dim h i.
Proof.
  intros Hw Hh Hi Hl.
  assert (Hd : forall d, 1 <= d -> i < Z.log2 d -> 2 <= level_dim d i).
  { intros d Hd Hld. rewrite level_dim_max by lia.
    rewrite Z.shiftr_div_pow2 by lia.
    assert (0 < 2 ^ i) by (apply Z.pow_pos_nonneg; lia).
    assert (2 <= d / 2 ^ i); [|lia].
    apply Z.div_le_lower_bound; [assumption|].
    pose proof (Z.log2_spec d ltac:(lia)) as [Hlo _].
    assert (2 ^ (i + 1) <= 2 ^ Z.log2 d) by (apply Z.pow_le_mono_r; lia).
    rewrite Z.pow_add_r in * by lia. change (2 ^ 1) with 2 in *. lia. }
  destruct (Z.max_spec w h) as [[_ E]|[_ E]]; rewrite E in Hl.
  - right. apply Hd; assumption.
  - left. apply Hd; assumption.
Qed.

Lemma mean2_same (a : Z) : (a + a) / 2 = a.
Proof. replace (a + a) with (a * 2) by lia. apply Z.div_mul. lia. Qed.

Lemma mean4_same (a : Z) : (a + a + a + a) / 4 = a.
Proof. replace (a + a + a + a) with (a * 4) by lia. apply Z.div_mul. lia. Qed.

(** The mean of a window whose texels all hold the same colour. *)
Lemma box_average_uniform (m : mem) (src : texture_level) (col : Z -> Z)
    (x y c : Z) :
  1 <= lvl_width src -> 1 <= lvl_height src ->
  2 <= lvl_width src \/ 2 <= lvl_height src ->
  0 <= x < Z.max 1 (Z.shiftr (lvl_width src) 1) ->
  0 <= y < Z.max 1 (Z.shiftr (lvl_height src) 1) ->
  (forall x' y', all_texels src x' y' -> texel m src x' y' c = col c) ->
  box_average m src x y c = col c.
Proof.
  intros Hw Hh H2 Hx Hy U. unfold box_average.
  destruct (Z.eqb_spec (lvl_width src) 1) as [E1|E1];
    [|destruct (Z.eqb_spec (lvl_height src) 1) as [E2|E2]].
  - pose proof (window_in_level (lvl_height src) y ltac:(lia) Hy).
    rewrite !U by (unfold all_texels; lia). apply mean2_same.
  - pose proof (window_in_level (lvl_width src) x ltac:(lia) Hx).
    rewrite !U by (unfold all_texels; lia). apply mean2_same.
  - pose proof (window_in_level (lvl_width src) x ltac:(lia) Hx).
    pose proof (window_in_level (lvl_height src) y ltac:(lia) Hy).
    rewrite !U by (unfold all_texels; lia). apply mean4_same.
Qed.

(** C7. When the source image has at least one pixel and all its pixels
    have the same three channel bytes, every texel of every level of the
    constructed texture, level 0 and all generated levels, holds exactly
    these bytes. *)
Theorem texture_create_uniform_color (rgb : Z) (state : limare_state) (m : mem)
    (src : Z -> Z) (w h fmt mipmap : Z) (col : Z -> Z) (t : texture)
    (state' : limare_state) (m' : mem) (i x y c : Z) :
  1 <= w -> 1 <= h -> mem_bytes m ->
  (forall c, 0 <= c < 3 -> 0 <= col c < 256) ->
  (forall x y c, 0 <= x < w -> 0 <= y < h -> 0 <= c < 3 ->
     src (y * ALIGN (w * 3) 4 + 3 * x + c) = col c) ->
  texture_create rgb state m src w h fmt mipmap = Some (Some t, state', m') ->
  0 <= i < levels t ->
  0 <= x < lvl_width (level_at t i) -> 0 <= y < lvl_height (level_at t i) ->
  0 <= c < 3 ->
  texel m' (level_at t i) x y c = col c.
Proof.
  intros Hw Hh Hm Hcol Hsrc E Hi Hx Hy Hc.
  destruct (texture_create_filled rgb state m src w h fmt mipmap t state' m'
              ltac:(lia) ltac:(lia) Hm E) as (Hn & Hlv & _ & Hmean & Hzero).
  destruct (texture_create_levels_planned _ _ _ _ _ _ _ _ _ _ _ E)
    as (Hw' & Hh' & _).
  rewrite requested_levels_valid in Hn by lia. inversion Hn as [En]. clear Hn.
  rewrite (Hlv i Hi) in *.
  assert (G : forall k : nat, Z.of_nat k < levels t ->
            forall x y, all_texels (planned_level state w h (Z.of_nat k)) x y ->
            texel m' (planned_level state w h (Z.of_nat k)) x y c = col c).
  { induction k as [|k IH]; intros Hk x' y' V.
    - change (Z.of_nat 0) with 0 in *.
      destruct V as [Vx Vy]. cbn in Vx, Vy.
      rewrite level_dim_max, Z.shiftr_0_r in Vx, Vy by lia.
      rewrite Hzero by lia. rewrite Hsrc by lia. apply u8_small, Hcol, Hc.
    - rewrite Nat2Z.inj_succ in *. unfold Z.succ in *.
      rewrite Hmean by (assumption || lia).
      replace (Z.of_nat k + 1 - 1) with (Z.of_nat k) by lia.
      destruct V as [Vx Vy]. cbn in Vx, Vy.
      rewrite level_dim_succ in Vx, Vy by lia.
      apply box_average_uniform; cbn; try assumption;
        try (apply level_dim_sign; lia).
      + apply not_last_level; try lia.
        destruct (Z.eqb_spec mipmap 0); lia.
      + intros x'' y'' V'. apply IH; [lia|exact V']. }
  specialize (G (Z.to_nat i)). rewrite Z2Nat.id in G by lia.
  apply G; [lia|]. split; assumption.
Qed.

Lemma texture_create_uniform_color_witness :
  exists t state' m',
    texture_create 0x15 sample_state zero_mem grey_pixels 4 2 0x15 1
      = Some (Some t, state', m') /\
    texel m' (level_at t 2) 0 0 1 = 0x5A.
Proof.
  destruct (texture_create_success 0x15 sample_state zero_mem grey_pixels
              4 2 0x15 1 3 ltac:(lia) ltac:(lia) eq_refl eq_refl)
    as (t2 & P & E).
  { vm_compute. discriminate. }
  eexists _, _, _. split; [exact E|].
  pose proof (texture_create_levels_planned _ _ _ _ _ _ _ _ _ _ _ E)
    as (_ & _ & _ & _ & _ & Hn & _ & _ & Hlv).
  assert (Hl : levels (texture_descriptor_levels_attach
                         (descriptor_header t2 4 2 0x15)) = 3).
  { change (requested_levels 4 2 1) with (Some 3) in Hn. inversion Hn. reflexivity. }
  refine (texture_create_uniform_color 0x15 sample_state zero_mem
            grey_pixels 4 2 0x15 1 (fun _ => 0x5A) _ _ _ 2 0 0 1
            ltac:(lia) ltac:(lia) _ _ _ E _ _ _ ltac:(lia)).
  - intros a. unfold zero_mem. lia.
  - intros c _. lia.
  - intros x y c _ _ _. reflexivity.
  - rewrite Hl. lia.
  - rewrite (Hlv 2) by (rewrite Hl; lia). vm_compute. split; [discriminate|reflexivity].
  - rewrite (Hlv 2) by (rewrite Hl; lia). vm_compute. split; [discriminate|reflexivity].
Defined.

(** ** The [int] arithmetic of a valid request does not overflow *)

Lemma level_dim_le (d i : Z) : 0 <= d <= 4096 -> 0 <= i -> 1 <= level_dim d i <= 4096.
Proof.
  intros Hd Hi. rewrite level_dim_max by lia.
  rewrite Z.shiftr_div_pow2 by assumption.
  assert (0 < 2 ^ i) by (apply Z.pow_pos_nonneg; lia).
  assert (d / 2 ^ i <= d) by (apply Z.div_le_upper_bound; nia).
  lia.
Qed.

Lemma tiles_le (d : Z) : 1 <= d <= 4096 -> 1 <= tiles d <= 256.
Proof.
  intros H. unfold tiles. split.
  - apply Z.div_le_lower_bound; lia.
  - apply Z.lt_succ_r. apply Z.div_lt_upper_bound; lia.
Qed.

Lemma planned_size_bound (w h i : Z) :
  0 <= w <= 4096 -> 0 <= h <= 4096 -> 0 <= i ->
  0 <= planned_size w h i <= 0x3000000.
Proof.
  intros Hw Hh Hi. unfold planned_size. rewrite level_bytes_tiles.
  fold (tiles (level_dim w i)) (tiles (level_dim h i)).
  pose proof (tiles_le _ (level_dim_le w i Hw Hi)) as Tw.
  pose proof (tiles_le _ (level_dim_le h i Hh Hi)) as Th.
  set (p := tiles (level_dim w i) * tiles (level_dim h i)).
  assert (Hp : 1 <= p <= 65536) by (subst p; nia).
  assert (0 <= (768 * p + 1023) / 1024) by (apply Z.div_pos; lia).
  assert ((768 * p + 1023) / 1024 < 49153) by (apply Z.div_lt_upper_bound; lia).
  lia.
Qed.

(** For dimensions of 0..4096 and at most 13 levels, every size the planner
    computes, and their sum, stay below 2^31: the unbounded arithmetic of
    the embedding is the [int] arithmetic of the source. *)
Lemma sizes_sum_bound (w h : Z) (n : nat) :
  0 <= w <= 4096 -> 0 <= h <= 4096 -> (n <= 13)%nat ->
  0 <= sizes_sum w h n <= Z.of_nat n * 0x3000000 /\ sizes_sum w h n < 2 ^ 31.
Proof.
  intros Hw Hh Hn.
  assert (B : 0 <= sizes_sum w h n <= Z.of_nat n * 0x3000000).
  { clear Hn. induction n as [|n IH]; [simpl; lia|].
    cbn [sizes_sum].
    pose proof (planned_size_bound w h (Z.of_nat n) Hw Hh ltac:(lia)). lia. }
  split; [exact B|]. change (2 ^ 31) with 2147483648. lia.
Qed.

(** ** Layout planner: the check and the commit *)

(** C2. The layout planner checks, then commits. For a header of 0..4096 by
    0..4096 texels with at most 13 levels, with [total] the sum of the
    aligned sizes of all levels: [total] lies in 0 .. 2^31 - 1, so the [int]
    sum of the source does not overflow; when [total] exceeds the remaining
    capacity [aux_mem_size - aux_mem_used], [texture_24_create] returns -1
    and leaves the arena state (and the memory) as they were; otherwise it
    returns 0, [aux_mem_used] has grown by exactly [total], every level lies
    at the offset given by the sizes of the levels before it (so each level
    starts where its predecessor ends), and no two levels share a byte, in
    CPU as in physical addresses. *)
Theorem texture_24_create_check_then_commit
    (state : limare_state) (t : texture) (src : Z -> Z) (m : mem) :
  0 <= width t <= 4096 -> 0 <= height t <= 4096 -> levels t <= 13 ->
  (Z.to_nat (levels t) <= length (level t))%nat ->
  let w := width t in
  let h := height t in
  let total := sizes_sum w h (Z.to_nat (levels t)) in
  0 <= total < 2 ^ 31 /\
  (aux_mem_size state - aux_mem_used state < total ->
     exists t', texture_24_create state t src m = (-1, state, t', m)) /\
  (total <= aux_mem_size state - aux_mem_used state ->
     exists t' m',
       texture_24_create state t src m =
         (0,
          mk_state (aux_mem_address state) (aux_mem_physical state)
                   (aux_mem_used state + total) (aux_mem_size state),
          t', m') /\
       (forall j, 0 <= j < levels t ->
          lvl_size (level_at t' j) = planned_size w h j /\
          0 <= lvl_size (level_at t' j) <= 0x3000000 /\
          lvl_dest (level_at t' j) =
            aux_mem_address state + aux_mem_used state + sizes_sum w h (Z.to_nat j) /\
          lvl_mem_physical (level_at t' j) =
            aux_mem_physical state + aux_mem_used state + sizes_sum w h (Z.to_nat j)) /\
       (forall j, 0 <= j -> j + 1 < levels t ->
          lvl_dest (level_at t' (j + 1)) =
            lvl_dest (level_at t' j) + lvl_size (level_at t' j) /\
          lvl_mem_physical (level_at t' (j + 1)) =
            lvl_mem_physical (level_at t' j) + lvl_size (level_at t' j)) /\
       (forall j k a, 0 <= j < k -> k < levels t ->
          ~ (in_level_cpu (level_at t' j) a /\ in_level_cpu (level_at t' k) a) /\
          ~ (in_level_physical (level_at t' j) a /\
             in_level_physical (level_at t' k) a))).
Proof.
  intros Hw Hh Hn Hcap w h total. split; [|split].
  - pose proof (sizes_sum_bound w h (Z.to_nat (levels t)) Hw Hh ltac:(lia))
      as [B1 B2].
    fold total in B1, B2. lia.
  - intros Hlt. apply texture_24_create_fail; assumption.
  - intros Hle.
    destruct (texture_24_create_ok state t src m Hcap Hle) as (t' & E & P).
    destruct P as (_ & _ & _ & _ & _ & _ & Hlv & _).
    exists t', (fill_levels t' src m). split; [exact E|].
    split; [|split].
    + intros j Hj. rewrite (Hlv j Hj). cbn.
      pose proof (planned_size_bound w h j Hw Hh ltac:(lia)) as B.
      fold w h. auto.
    + intros j Hj0 Hj1.
      rewrite (Hlv j) by lia. rewrite (Hlv (j + 1)) by lia. cbn.
      rewrite sizes_sum_succ by lia. fold w h. lia.
    + intros j k a Hjk Hk.
      rewrite (Hlv j) by lia. rewrite (Hlv k) by lia.
      unfold in_level_cpu, in_level_physical. cbn. fold w h. split.
      * apply (planned_regions_disjoint w h
                 (aux_mem_address state + aux_mem_used state) j k a Hjk).
      * apply (planned_regions_disjoint w h
                 (aux_mem_physical state + aux_mem_used state) j k a Hjk).
Qed.

Lemma texture_24_create_check_then_commit_witness :
  (exists t', texture_24_create full_state (sample_texture 20 20 5) grey_pixels zero_mem
              = (-1, full_state, t', zero_mem)) /\
  (exists t' m', texture_24_create sample_state (sample_texture 20 20 5) grey_pixels zero_mem
              = (0, mk_state 0x10000 0x40000000 (0x800 + 7168) 0x10000, t', m')).
Proof.
  split.
  - apply (texture_24_create_check_then_commit
             full_state (sample_texture 20 20 5) grey_pixels zero_mem);
      try (cbn [sample_texture width height levels]; lia).
    + vm_compute. lia.
    + vm_compute. reflexivity.
  - destruct (texture_24_create_check_then_commit
             sample_state (sample_texture 20 20 5) grey_pixels zero_mem)
      as (_ & _ & H);
      try (cbn [sample_texture width height levels]; lia).
    + vm_compute. lia.
    + destruct H as (t' & m' & E & _).
      * vm_compute. discriminate.
      * exists t', m'. exact E.
Defined.

(** * Further properties of the code *)

(** ** Index mapper: halving the coordinates *)

(** X1. Inside a tile, dropping the [k] low bits of both coordinates drops
    the [2 k] low bits of the index: every aligned square of 2^k x 2^k
    texels occupies one aligned run of 4^k consecutive indices. This is
    what lets the mip generator find a 2 x 2 block from the index of the
    destination texel. *)
Theorem space_filler_index_halving (x y k : Z) :
  0 <= x < 16 -> 0 <= y < 16 -> 0 <= k <= 4 ->
  space_filler_index (Z.shiftr x k) (Z.shiftr y k)
  = Z.shiftr (space_filler_index x y) (2 * k).
Proof.
  intros Hx Hy Hk. apply Z.eqb_eq.
  pose proof (check_range2
    (fun x y => forallb (fun k =>
       space_filler_index (Z.shiftr x k) (Z.shiftr y k)
       =? Z.shiftr (space_filler_index x y) (2 * k)) (zrange 5))
    16 16 eq_refl x y ltac:(lia) ltac:(lia)) as C.
  cbv beta in C.
  apply (check_range _ 5 C k). lia.
Qed.

Lemma space_filler_index_halving_witness :
  space_filler_index (Z.shiftr 13 1) (Z.shiftr 6 1)
  = Z.shiftr (space_filler_index 13 6) (2 * 1).
Proof.
  apply (space_filler_index_halving 13 6 1); lia.
Defined.

(** ** Swizzle encoder: the address of a texel can be inverted *)

(** X2. Round trip of the swizzled address: from the byte offset the
    encoder computes for channel [c] of texel (x, y), the tile and index
    arithmetic run backwards recovers (x, y) and [c]. It holds for every
    column of the tile grid of the level, in particular for 0 <= x < width,
    and for every row. *)
Theorem texel_coords_offset (lw x y c : Z) :
  0 <= x < 16 * tiles lw -> 0 <= y -> 0 <= c < 3 ->
  texel_coords lw (texel_offset lw x y + c) = (x, y, c).
Proof.
  intros Hx Hy Hc. unfold texel_coords. cbv zeta.
  rewrite texel_offset_tiles.
  pose proof (Z.mod_pos_bound x 16 ltac:(lia)) as Mx.
  pose proof (Z.mod_pos_bound y 16 ltac:(lia)) as My.
  pose proof (space_filler_index_range _ _ Mx My) as Hi.
  pose proof (space_filler_coords_index _ _ Mx My) as Hinv.
  set (I := space_filler_index (x mod 16) (y mod 16)) in *.
  assert (Hbx : 0 <= x / 16 < tiles lw).
  { split; [apply Z.div_pos; lia|apply Z.div_lt_upper_bound; lia]. }
  assert (Hby : 0 <= y / 16) by (apply Z.div_pos; lia).
  set (T := y / 16 * tiles lw + x / 16) in *.
  change (3 * 256) with 768.
  assert (E1 : (768 * T + 3 * I + c) / 768 = T)
    by (symmetry; apply Z.div_unique with (r := 3 * I + c); lia).
  assert (E2 : (768 * T + 3 * I + c) mod 768 = 3 * I + c)
    by (symmetry; apply Z.mod_unique with (q := T); lia).
  assert (E3 : (3 * I + c) / 3 = I)
    by (symmetry; apply Z.div_unique with (r := c); lia).
  assert (E4 : (768 * T + 3 * I + c) mod 3 = c)
    by (symmetry; apply Z.mod_unique with (q := 256 * T + I); lia).
  assert (E5 : T mod tiles lw = x / 16)
    by (symmetry; apply Z.mod_unique with (q := y / 16); subst T; lia).
  assert (E6 : T / tiles lw = y / 16)
    by (symmetry; apply Z.div_unique with (r := x / 16); subst T; lia).
  rewrite E1, E2, E3, E4, E5, E6, Hinv. cbn [fst snd].
  pose proof (Z.div_mod x 16 ltac:(lia)). pose proof (Z.div_mod y 16 ltac:(lia)).
  repeat f_equal; lia.
Qed.

Lemma texel_coords_offset_witness :
  texel_coords 300 (texel_offset 300 299 77 + 2) = (299, 77, 2).
Proof.
  apply (texel_coords_offset 300 299 77 2); [vm_compute; split; discriminate || reflexivity|lia|lia].
Defined.

(** ** Construction: what every returned texture satisfies *)

Lemma level_attach_length (t : texture) (i : Z) :
  length (descriptor (texture_descriptor_level_attach t i)) = length (descriptor t).
Proof.
  unfold texture_descriptor_level_attach, desc_or, desc_and.
  destruct i as [|p|p]; try reflexivity;
    repeat (destruct p as [p|p|]; try reflexivity);
    cbv zeta; rewrite !length_set_desc; reflexivity.
Qed.

(** A loop keeps what each of its rounds keeps, whatever its bounds. *)
Lemma for_range_inv {A : Type} (P : A -> Prop) (lo hi : Z)
    (body : Z -> A -> A) (a : A) :
  (forall i a, lo <= i < hi -> P a -> P (body i a)) ->
  P a -> P (for_range lo hi body a).
Proof.
  intros Hstep Ha. destruct (Z_le_gt_dec lo hi) as [Hle|Hgt].
  - apply (for_range_ind (fun _ a => P a)); [assumption|assumption|].
    intros i a' Hi Hp. apply Hstep; assumption.
  - rewrite for_range_empty by lia. exact Ha.
Qed.

Lemma levels_attach_length (t : texture) :
  length (descriptor (texture_descriptor_levels_attach t)) = length (descriptor t).
Proof.
  unfold texture_descriptor_levels_attach.
  apply (for_range_inv (fun t' => length (descriptor t') = length (descriptor t)));
    [|reflexivity].
  intros i t' _ H. rewrite level_attach_length. exact H.
Qed.

Lemma descriptor_header_length (t : texture) (w h fmt : Z) :
  length (descriptor (descriptor_header t w h fmt)) = length (descriptor t).
Proof. unfold descriptor_header. cbv zeta. rewrite !length_set_desc. reflexivity. Qed.

(** A call that returns no texture has changed neither arena nor memory. *)
Lemma texture_create_none (rgb : Z) (state : limare_state) (m : mem)
    (src : Z -> Z) (w h fmt mipmap : Z) (state' : limare_state) (m' : mem) :
  texture_create rgb state m src w h fmt mipmap = Some (None, state', m') ->
  state' = state /\ m' = m.
Proof.
  intros E.
  destruct (Z_le_gt_dec w 4096) as [Hw|Hw];
    [|rewrite texture_create_dimension in E by lia; inversion E; auto].
  destruct (Z_le_gt_dec h 4096) as [Hh|Hh];
    [|rewrite texture_create_dimension in E by lia; inversion E; auto].
  destruct (requested_levels w h mipmap) as [n|] eqn:Hn.
  - destruct (Z.eq_dec fmt rgb) as [Hf|Hf].
    + destruct (Z_lt_le_dec (aux_mem_size state - aux_mem_used state)
                  (sizes_sum w h (Z.to_nat n))) as [Hlt|Hle].
      * rewrite (texture_create_memory rgb state m src w h fmt mipmap n) in E
          by assumption. inversion E; auto.
      * destruct (texture_create_success rgb state m src w h fmt mipmap n
                    Hw Hh Hf Hn Hle) as (t2 & _ & E').
        rewrite E' in E. discriminate.
    + rewrite (texture_create_format_rejected rgb state m src w h fmt mipmap n)
        in E by assumption. inversion E; auto.
  - rewrite texture_create_unfold, Hn in E.
    destruct ((w >? 4096) || (h >? 4096)); [inversion E; auto|discriminate].
Qed.

(** X3. Every texture [texture_create] returns has between 0 and 13 levels,
    a level table of 13 entries and a descriptor of 16 words, and carries
    the requested width, height and format: the loops over the levels never
    leave the level table, and the packer never leaves the descriptor. *)
Theorem texture_create_tables (rgb : Z) (state : limare_state) (m : mem)
    (src : Z -> Z) (w h fmt mipmap : Z) (t : texture)
    (state' : limare_state) (m' : mem) :
  texture_create rgb state m src w h fmt mipmap = Some (Some t, state', m') ->
  0 <= levels t <= 13 /\
  length (level t) = 13%nat /\ length (descriptor t) = 16%nat /\
  width t = w /\ height t = h /\ format t = fmt.
Proof.
  intros E. apply texture_create_inv in E.
  destruct E as (Hw & Hh & Hf & n & t2 & Hn & _ & P & -> & _ & _).
  pose proof (requested_levels_Some w h mipmap n Hn Hw Hh) as Hr.
  destruct (same_levels_trans _ _ _
              (descriptor_header_same_levels t2 w h fmt)
              (levels_attach_same_levels (descriptor_header t2 w h fmt)))
    as (Sw & Sh & Sf & Sl & Slv).
  destruct P as (Pw & Ph & Pf & Pl & Pd & Plen & _).
  rewrite Sw, Sh, Sf, Sl, Slv, Pw, Ph, Pf, Pl, Plen.
  rewrite levels_attach_length, descriptor_header_length, Pd.
  repeat split; try reflexivity; cbn; lia.
Qed.

Lemma texture_create_tables_witness :
  exists t state' m',
    texture_create 0x15 sample_state zero_mem grey_pixels 4 2 0x15 1
      = Some (Some t, state', m') /\
    0 <= levels t <= 13 /\ length (descriptor t) = 16%nat.
Proof.
  destruct (texture_create_success 0x15 sample_state zero_mem grey_pixels
              4 2 0x15 1 3 ltac:(lia) ltac:(lia) eq_refl eq_refl)
    as (t2 & P & E).
  { vm_compute. discriminate. }
  eexists _, _, _. split; [exact E|].
  destruct (texture_create_tables _ _ _ _ _ _ _ _ _ _ _ E) as (H1 & _ & H3 & _).
  split; assumption.
Defined.

(** X4. In a mipmapped texture of at least 1 x 1 texels the chain ends
    exactly at the 1 x 1 level: the last level is 1 x 1, and every level
    before it has at least two texels in one direction. *)
Theorem texture_create_last_level (rgb : Z) (state : limare_state) (m : mem)
    (src : Z -> Z) (w h fmt mipmap : Z) (t : texture)
    (state' : limare_state) (m' : mem) :
  1 <= w -> 1 <= h -> mipmap <> 0 ->
  texture_create rgb state m src w h fmt mipmap = Some (Some t, state', m') ->
  1 <= levels t /\
  lvl_width (level_at t (levels t - 1)) = 1 /\
  lvl_height (level_at t (levels t - 1)) = 1 /\
  forall i, 0 <= i < levels t - 1 ->
    2 <= lvl_width (level_at t i) \/ 2 <= lvl_height (level_at t i).
Proof.
  intros Hw Hh Hmip E.
  destruct (texture_create_levels_planned _ _ _ _ _ _ _ _ _ _ _ E)
    as (Hw' & Hh' & _ & _ & _ & Hn & _ & _ & Hlv).
  rewrite requested_levels_valid in Hn by lia.
  destruct (Z.eqb_spec mipmap 0) as [|_]; [contradiction|].
  assert (En : levels t = Z.log2 (Z.max w h) + 1) by congruence. clear Hn.
  pose proof (Z.log2_nonneg (Z.max w h)) as Hl0.
  assert (Hlast : forall d, 1 <= d <= Z.max w h ->
                    level_dim d (Z.log2 (Z.max w h)) = 1).
  { intros d Hd. rewrite level_dim_max by lia.
    rewrite Z.shiftr_div_pow2 by assumption.
    pose proof (Z.log2_spec (Z.max w h) ltac:(lia)) as [_ Hhi].
    unfold Z.succ in Hhi. rewrite Z.pow_add_r in Hhi by lia.
    change (2 ^ 1) with 2 in Hhi.
    assert (0 < 2 ^ Z.log2 (Z.max w h)) by (apply Z.pow_pos_nonneg; lia).
    assert (0 <= d / 2 ^ Z.log2 (Z.max w h)) by (apply Z.div_pos; lia).
    assert (d / 2 ^ Z.log2 (Z.max w h) < 2)
      by (apply Z.div_lt_upper_bound; lia).
    lia. }
  split; [lia|].
  rewrite (Hlv (levels t - 1)) by lia. cbn [planned_level lvl_width lvl_height].
  replace (levels t - 1) with (Z.log2 (Z.max w h)) by lia.
  split; [apply Hlast; lia|]. split; [apply Hlast; lia|].
  intros i Hi. rewrite (Hlv i) by lia. cbn [planned_level lvl_width lvl_height].
  apply not_last_level; lia.
Qed.

Lemma texture_create_last_level_witness :
  exists t state' m',
    texture_create 0x15 sample_state zero_mem grey_pixels 4 2 0x15 1
      = Some (Some t, state', m') /\
    lvl_width (level_at t (levels t - 1)) = 1.
Proof.
  destruct (texture_create_success 0x15 sample_state zero_mem grey_pixels
              4 2 0x15 1 3 ltac:(lia) ltac:(lia) eq_refl eq_refl)
    as (t2 & P & E).
  { vm_compute. discriminate. }
  eexists _, _, _. split; [exact E|].
  apply (texture_create_last_level 0x15 sample_state zero_mem grey_pixels
           4 2 0x15 1 _ _ _ ltac:(lia) ltac:(lia) ltac:(lia) E).
Defined.

(** ** Layout planner: alignment, arena bounds, level sizes *)

Lemma planned_size_aligned (w h i : Z) : planned_size w h i mod 1024 = 0.
Proof.
  unfold planned_size, level_bytes. rewrite ALIGN_1024.
  rewrite Z.mul_comm. apply Z.mod_mul. lia.
Qed.

Lemma sizes_sum_aligned (w h : Z) (n : nat) : sizes_sum w h n mod 1024 = 0.
Proof.
  induction n as [|n IH]; [reflexivity|].
  cbn [sizes_sum]. rewrite Z.add_mod, IH, planned_size_aligned by lia.
  reflexivity.
Qed.

Lemma aligned_add (a b : Z) : a mod 1024 = 0 -> b mod 1024 = 0 -> (a + b) mod 1024 = 0.
Proof. intros Ha Hb. rewrite Z.add_mod, Ha, Hb by lia. reflexivity. Qed.

(** X5. The planner keeps 1 KiB alignment: when the arena's CPU base, its
    physical base and its used offset are multiples of 1024, then in every
    texture returned the size, the CPU address and the physical address of
    every level are multiples of 1024, and so is the used offset the call
    leaves. (This is the alignment the descriptor packer relies on.) *)
Theorem texture_create_alignment (rgb : Z) (state : limare_state) (m : mem)
    (src : Z -> Z) (w h fmt mipmap : Z) (t : texture)
    (state' : limare_state) (m' : mem) :
  aux_mem_address state mod 1024 = 0 ->
  aux_mem_physical state mod 1024 = 0 ->
  aux_mem_used state mod 1024 = 0 ->
  texture_create rgb state m src w h fmt mipmap = Some (Some t, state', m') ->
  aux_mem_used state' mod 1024 = 0 /\
  forall i, 0 <= i < levels t ->
    lvl_size (level_at t i) mod 1024 = 0 /\
    lvl_dest (level_at t i) mod 1024 = 0 /\
    lvl_mem_physical (level_at t i) mod 1024 = 0.
Proof.
  intros Ha Hp Hu E.
  destruct (texture_create_levels_planned _ _ _ _ _ _ _ _ _ _ _ E)
    as (_ & _ & _ & _ & _ & _ & _ & -> & Hlv).
  split.
  - cbn. apply aligned_add; [assumption|apply sizes_sum_aligned].
  - intros i Hi. rewrite (Hlv i Hi). cbn.
    split; [apply planned_size_aligned|].
    split; repeat apply aligned_add; try assumption; apply sizes_sum_aligned.
Qed.

Lemma texture_create_alignment_witness :
  exists t state' m',
    texture_create 0x15 sample_state zero_mem grey_pixels 4 2 0x15 1
      = Some (Some t, state', m') /\
    aux_mem_used state' mod 1024 = 0.
Proof.
  destruct (texture_create_success 0x15 sample_state zero_mem grey_pixels
              4 2 0x15 1 3 ltac:(lia) ltac:(lia) eq_refl eq_refl)
    as (t2 & P & E).
  { vm_compute. discriminate. }
  eexists _, _, _. split; [exact E|].
  apply (texture_create_alignment 0x15 sample_state zero_mem grey_pixels
           4 2 0x15 1 _ _ _ eq_refl eq_refl eq_refl E).
Defined.

Lemma sizes_sum_nonneg (w h : Z) (n : nat) :
  0 <= w -> 0 <= h -> 0 <= sizes_sum w h n.
Proof.
  intros Hw Hh.
  pose proof (sizes_sum_le w h 0 n (fun i => planned_size_nonneg w h i Hw Hh)
                ltac:(lia)) as H.
  exact H.
Qed.

(** X6. The arena only grows and never overflows: for non-negative
    dimensions, whatever [texture_create] returns, the base addresses and
    the size of the arena are the ones of before, the used offset has not
    decreased, and it does not exceed the size of the arena if it did not
    before. *)
Theorem texture_create_arena_bounds (rgb : Z) (state : limare_state) (m : mem)
    (src : Z -> Z) (w h fmt mipmap : Z) (r : option texture)
    (state' : limare_state) (m' : mem) :
  0 <= w -> 0 <= h ->
  texture_create rgb state m src w h fmt mipmap = Some (r, state', m') ->
  aux_mem_address state' = aux_mem_address state /\
  aux_mem_physical state' = aux_mem_physical state /\
  aux_mem_size state' = aux_mem_size state /\
  aux_mem_used state <= aux_mem_used state' /\
  (aux_mem_used state <= aux_mem_size state ->
   aux_mem_used state' <= aux_mem_size state').
Proof.
  intros Hw Hh E. destruct r as [t|].
  - destruct (texture_create_levels_planned _ _ _ _ _ _ _ _ _ _ _ E)
      as (_ & _ & _ & _ & _ & _ & Hle & -> & _).
    pose proof (sizes_sum_nonneg w h (Z.to_nat (levels t)) Hw Hh).
    cbn. repeat split; lia.
  - destruct (texture_create_none _ _ _ _ _ _ _ _ _ _ E) as [-> _].
    repeat split; lia.
Qed.

Lemma texture_create_arena_bounds_witness :
  aux_mem_used full_state <= aux_mem_used full_state /\
  (aux_mem_used full_state <= aux_mem_size full_state ->
   aux_mem_used full_state <= aux_mem_size full_state).
Proof.
  apply (texture_create_arena_bounds 0x15 full_state zero_mem grey_pixels
           64 64 0x15 1 None full_state zero_mem ltac:(lia) ltac:(lia)).
  apply (texture_create_memory 0x15 full_state zero_mem grey_pixels
           64 64 0x15 1 7); [lia|lia|reflexivity|reflexivity|].
  vm_compute. reflexivity.
Defined.

Lemma planned_size_room (w h i : Z) :
  0 <= w -> 0 <= h ->
  1024 <= planned_size w h i /\
  3 * level_dim w i * level_dim h i <= planned_size w h i.
Proof.
  intros Hw Hh. unfold planned_size.
  pose proof (proj1 (level_dim_sign w i) Hw) as Lw.
  pose proof (proj1 (level_dim_sign h i) Hh) as Lh.
  pose proof (proj1 (tiles_sign (level_dim w i)) Lw) as Tw.
  pose proof (proj1 (tiles_sign (level_dim h i)) Lh) as Th.
  fold (tiles (level_dim w i)) in Tw. fold (tiles (level_dim h i)) in Th.
  pose proof (tiles_cover (level_dim w i)) as Cw.
  pose proof (tiles_cover (level_dim h i)) as Ch.
  pose proof (level_bytes_cover (level_dim w i) (level_dim h i) ltac:(nia)) as B.
  pose proof (planned_size_aligned w h i) as A. unfold planned_size in A.
  pose proof (Z.div_mod (level_bytes (level_dim w i) (level_dim h i)) 1024
                ltac:(lia)) as D.
  split; [nia|nia].
Qed.

(** X7. For non-negative dimensions every level of a returned texture
    takes at least 1024 bytes and at least 3 bytes per texel, at most
    0x3000000 bytes, and the whole chain takes less than 2^31 bytes: the
    [int] that accumulates the sizes cannot overflow. *)
Theorem texture_create_level_sizes (rgb : Z) (state : limare_state) (m : mem)
    (src : Z -> Z) (w h fmt mipmap : Z) (t : texture)
    (state' : limare_state) (m' : mem) :
  0 <= w -> 0 <= h ->
  texture_create rgb state m src w h fmt mipmap = Some (Some t, state', m') ->
  aux_mem_used state' - aux_mem_used state < 2 ^ 31 /\
  forall i, 0 <= i < levels t ->
    1024 <= lvl_size (level_at t i) <= 0x3000000 /\
    3 * lvl_width (level_at t i) * lvl_height (level_at t i)
      <= lvl_size (level_at t i).
Proof.
  intros Hw Hh E.
  destruct (texture_create_levels_planned _ _ _ _ _ _ _ _ _ _ _ E)
    as (Hw' & Hh' & _ & _ & _ & Hn & _ & -> & Hlv).
  pose proof (requested_levels_Some w h mipmap _ Hn Hw' Hh') as Hr.
  split.
  - cbn. pose proof (sizes_sum_bound w h (Z.to_nat (levels t))
                       ltac:(lia) ltac:(lia) ltac:(lia)) as [_ B]. lia.
  - intros i Hi. rewrite (Hlv i Hi). cbn.
    pose proof (planned_size_bound w h i ltac:(lia) ltac:(lia) ltac:(lia)).
    pose proof (planned_size_room w h i Hw Hh). lia.
Qed.

Lemma texture_create_level_sizes_witness :
  exists t state' m',
    texture_create 0x15 sample_state zero_mem grey_pixels 4 2 0x15 1
      = Some (Some t, state', m') /\
    aux_mem_used state' - aux_mem_used sample_state < 2 ^ 31.
Proof.
  destruct (texture_create_success 0x15 sample_state zero_mem grey_pixels
              4 2 0x15 1 3 ltac:(lia) ltac:(lia) eq_refl eq_refl)
    as (t2 & P & E).
  { vm_compute. discriminate. }
  eexists _, _, _. split; [exact E|].
  apply (texture_create_level_sizes 0x15 sample_state zero_mem grey_pixels
           4 2 0x15 1 _ _ _ ltac:(lia) ltac:(lia) E).
Defined.

(** ** Swizzle encoder: what is written and what is not *)

Lemma swizzle_untouched (t : texture) (pixels : Z -> Z) (m : mem) (a : Z) :
  ~ texel_byte (lvl_dest (level_at t 0)) (width t) (height t) a ->
  texture_24_swizzle t pixels m a = m a.
Proof.
  intros Ha. unfold texture_24_swizzle. cbv zeta.
  apply (for_range_inv (fun m' => m' a = m a)); [|reflexivity].
  intros y m1 Hy H1.
  apply (for_range_inv (fun m' => m' a = m a)); [|exact H1].
  intros x m2 Hx H2. rewrite store3_frame; [exact H2|].
  intros Hin. apply Ha.
  exists x, y,
    (a - (lvl_dest (level_at t 0)
          + 3 * 256 * (Z.shiftr y 4 * Z.shiftr (ALIGN (width t) 16) 4 + Z.shiftr x 4)
          + 3 * space_filler_index (Z.land x 15) (Z.land y 15))).
  unfold texel_offset. repeat split; lia.
Qed.

(** X8. The swizzle encoder copies the image and nothing else: channel [c]
    of texel (x, y), 0 <= x < width, 0 <= y < height, receives the byte at
    offset [y * pitch + 3 x + c] of the source buffer, where the pitch is
    the row size rounded up to 4; and every byte of memory that is not a
    channel of such a texel, the padding of the tiles included, keeps its
    value. *)
Theorem texture_24_swizzle_image (t : texture) (pixels : Z -> Z) (m : mem) :
  (forall x y c, 0 <= x < width t -> 0 <= y < height t -> 0 <= c < 3 ->
     texture_24_swizzle t pixels m
       (lvl_dest (level_at t 0) + texel_offset (width t) x y + c)
     = u8 (pixels (y * ALIGN (width t * 3) 4 + 3 * x + c))) /\
  (forall a,
     ~ texel_byte (lvl_dest (level_at t 0)) (width t) (height t) a ->
     texture_24_swizzle t pixels m a = m a).
Proof.
  split; [|intros a; apply swizzle_untouched].
  intros x y c Hx Hy Hc.
  set (l := mk_level 0 (width t) (height t) 0 (lvl_dest (level_at t 0)) 0).
  set (t' := mk_texture (width t) (height t) 0 0 [l] []).
  change (texture_24_swizzle t pixels m) with (texture_24_swizzle t' pixels m).
  destruct (texture_24_swizzle_spec t' pixels m ltac:(cbn; lia) ltac:(cbn; lia)
              eq_refl eq_refl) as [_ V].
  apply (V x y c); [|exact Hc]. split; assumption.
Qed.

Lemma texture_24_swizzle_image_witness :
  texture_24_swizzle (sample_texture 20 20 1) grey_pixels zero_mem
    (lvl_dest (level_at (sample_texture 20 20 1) 0) + texel_offset 20 17 3 + 1)
  = u8 (grey_pixels (3 * ALIGN (20 * 3) 4 + 3 * 17 + 1)).
Proof.
  apply (proj1 (texture_24_swizzle_image (sample_texture 20 20 1)
                  grey_pixels zero_mem) 17 3 1);
    cbn [sample_texture width height]; lia.
Defined.

(** ** Construction: the memory it writes *)

Lemma chain_outside (state : limare_state) (w h n : Z) (t : texture)
    (m1 : mem) (a : Z) :
  0 <= w -> 0 <= h ->
  (forall j, 0 <= j < n -> level_at t j = planned_level state w h j) ->
  mem_bytes m1 ->
  a < level_start state w h 1 \/ level_start state w h n <= a ->
  for_range 1 n
    (fun i m => texture_24_mipmap (level_at t i) (level_at t (i - 1)) m) m1 a
  = m1 a.
Proof.
  intros Hw Hh Ht Hm1 Ha.
  destruct (Z_le_gt_dec 1 n) as [Hn|Hn].
  - assert (C : chain_inv state w h m1 n
                  (for_range 1 n
                     (fun i m => texture_24_mipmap (level_at t i) (level_at t (i - 1)) m)
                     m1)).
    { apply (for_range_ind (chain_inv state w h m1)); [exact Hn| |].
      - split; [exact Hm1|]. split; [reflexivity|]. intros; lia.
      - intros i m Hi Hinv. apply (chain_step state w h n t); assumption. }
    destruct C as (_ & C2 & _). apply C2, Ha.
  - rewrite for_range_empty by lia. reflexivity.
Qed.

(** X9. Construction writes only the memory it has reserved: for
    non-negative dimensions and a memory of bytes, a successful
    [texture_create] leaves every byte outside the range from the old to the
    new used offset of the arena as it was, and the memory is still made of
    bytes. *)
Theorem texture_create_footprint (rgb : Z) (state : limare_state) (m : mem)
    (src : Z -> Z) (w h fmt mipmap : Z) (t : texture)
    (state' : limare_state) (m' : mem) :
  0 <= w -> 0 <= h -> mem_bytes m ->
  texture_create rgb state m src w h fmt mipmap = Some (Some t, state', m') ->
  mem_bytes m' /\
  forall a,
    ~ (aux_mem_address state + aux_mem_used state <= a
       < aux_mem_address state + aux_mem_used state') ->
    m' a = m a.
Proof.
  intros Hw Hh Hm E.
  destruct (texture_create_filled _ _ _ _ _ _ _ _ _ _ _ Hw Hh Hm E)
    as (_ & _ & Hm' & _).
  split; [exact Hm'|]. intros a Ha.
  apply texture_create_inv in E.
  destruct E as (Hw' & Hh' & _ & n & t2 & Hn & _ & P & _ & -> & ->).
  destruct P as (Pw & Ph & _ & Pl & _ & _ & Plo & _).
  cbn [new_texture width height levels] in Pw, Ph, Pl, Plo.
  pose proof (requested_levels_Some w h mipmap n Hn Hw' Hh') as Hr.
  cbn [advanced aux_mem_used] in Ha.
  assert (S0 : level_start state w h 0 = aux_mem_address state + aux_mem_used state)
    by (unfold level_start; change (Z.to_nat 0) with O; cbn [sizes_sum]; lia).
  assert (Sn : level_start state w h n
               = aux_mem_address state
                 + (aux_mem_used state + sizes_sum w h (Z.to_nat n)))
    by (unfold level_start; lia).
  unfold fill_levels. rewrite Pl.
  assert (Hsw : texture_24_swizzle t2 src m a = m a).
  { apply swizzle_untouched. rewrite Pw, Ph. intros (x & y & c & Hx & Hy & Hc & Ea).
    assert (Hn1 : 1 <= n).
    { unfold requested_levels in Hn. destruct (Z.eqb_spec mipmap 0); cbn [negb] in Hn.
      - inversion Hn. lia.
      - rewrite code_max in Hn. apply count_levels_value in Hn.
        destruct Hn as (_ & _ & Hpos). pose proof (Z.log2_nonneg (Z.max w h)).
        rewrite Hpos by lia. lia. }
    rewrite (Plo 0) in Ea by lia.
    assert (V : all_texels (planned_level state w h 0) x y).
    { unfold all_texels. cbn. rewrite !level_dim_max, !Z.shiftr_0_r by lia. lia. }
    pose proof (valid_texel_in_level _ x y c V Hc) as R.
    apply (planned_level_region state w h 0 _ ltac:(lia)) in R.
    cbn [planned_level lvl_dest lvl_width] in R.
    rewrite level_dim_max, Z.shiftr_0_r in R by lia.
    replace (Z.max 1 w) with w in R by lia.
    fold (level_start state w h 0) in R.
    cbn [planned_level lvl_dest] in Ea. fold (level_start state w h 0) in Ea.
    pose proof (level_start_mono state w h (0 + 1) n Hw Hh ltac:(lia)).
    lia. }
  rewrite <- Hsw.
  apply (chain_outside state w h n t2); try assumption.
  - apply mem_bytes_swizzle, Hm.
  - destruct (Z_le_gt_dec 1 n).
    + pose proof (level_start_mono state w h 0 1 Hw Hh ltac:(lia)).
      pose proof (level_start_mono state w h 1 n Hw Hh ltac:(lia)). lia.
    + assert (n = 0) by lia. subst n.
      pose proof (level_start_mono state w h 0 1 Hw Hh ltac:(lia)).
      cbn in Sn. lia.
Qed.

Lemma texture_create_footprint_witness :
  exists t state' m',
    texture_create 0x15 sample_state zero_mem grey_pixels 4 2 0x15 1
      = Some (Some t, state', m') /\
    mem_bytes m'.
Proof.
  destruct (texture_create_success 0x15 sample_state zero_mem grey_pixels
              4 2 0x15 1 3 ltac:(lia) ltac:(lia) eq_refl eq_refl)
    as (t2 & P & E).
  { vm_compute. discriminate. }
  eexists _, _, _. split; [exact E|].
  refine (proj1 (texture_create_footprint 0x15 sample_state zero_mem grey_pixels
                   4 2 0x15 1 _ _ _ ltac:(lia) ltac:(lia) _ E)).
  intros a. unfold zero_mem. lia.
Defined.

(** X10. The image survives the mip chain: in a texture constructed from an
    image of at least 1 x 1 pixels, in a memory of bytes, level 0 holds
    after the whole construction, in channel [c] of texel (x, y), the byte
    at offset [y * pitch + 3 x + c] of the source buffer. *)
Theorem texture_create_level0_image (rgb : Z) (state : limare_state) (m : mem)
    (src : Z -> Z) (w h fmt mipmap : Z) (t : texture)
    (state' : limare_state) (m' : mem) (x y c : Z) :
  1 <= w -> 1 <= h -> mem_bytes m ->
  texture_create rgb state m src w h fmt mipmap = Some (Some t, state', m') ->
  0 <= x < w -> 0 <= y < h -> 0 <= c < 3 ->
  1 <= levels t /\
  lvl_width (level_at t 0) = w /\ lvl_height (level_at t 0) = h /\
  texel m' (level_at t 0) x y c = u8 (src (y * ALIGN (w * 3) 4 + 3 * x + c)).
Proof.
  intros Hw Hh Hm E Hx Hy Hc.
  destruct (texture_create_filled rgb state m src w h fmt mipmap t state' m'
              ltac:(lia) ltac:(lia) Hm E) as (Hn & Hlv & _ & _ & Hzero).
  destruct (texture_create_levels_planned _ _ _ _ _ _ _ _ _ _ _ E)
    as (Hw' & Hh' & _).
  rewrite requested_levels_valid in Hn by lia.
  assert (Hl : 1 <= levels t).
  { pose proof (Z.log2_nonneg (Z.max w h)).
    destruct (Z.eqb_spec mipmap 0); inversion Hn; lia. }
  split; [exact Hl|]. rewrite (Hlv 0) by lia. cbn [planned_level lvl_width lvl_height].
  rewrite !level_dim_max, !Z.shiftr_0_r by lia.
  split; [lia|]. split; [lia|]. apply Hzero; assumption.
Qed.

Lemma texture_create_level0_image_witness :
  exists t state' m',
    texture_create 0x15 sample_state zero_mem grey_pixels 4 2 0x15 1
      = Some (Some t, state', m') /\
    texel m' (level_at t 0) 3 1 2
    = u8 (grey_pixels (1 * ALIGN (4 * 3) 4 + 3 * 3 + 2)).
Proof.
  destruct (texture_create_success 0x15 sample_state zero_mem grey_pixels
              4 2 0x15 1 3 ltac:(lia) ltac:(lia) eq_refl eq_refl)
    as (t2 & P & E).
  { vm_compute. discriminate. }
  eexists _, _, _. split; [exact E|].
  refine (proj2 (proj2 (proj2 (texture_create_level0_image 0x15 sample_state
            zero_mem grey_pixels 4 2 0x15 1 _ _ _ 3 1 2
            ltac:(lia) ltac:(lia) _ E ltac:(lia) ltac:(lia) ltac:(lia))))).
  intros a. unfold zero_mem. lia.
Defined.

(** ** Descriptor packer: all levels *)

Lemma level_attach_noop (t : texture) (i : Z) :
  11 <= i -> texture_descriptor_level_attach t i = t.
Proof.
  intros Hi. unfold texture_descriptor_level_attach.
  destruct i as [|p|p]; try lia;
    repeat (destruct p as [p|p|]; try reflexivity; try lia).
Qed.

Lemma attached_start (t : texture) (i : Z) :
  i <= 0 -> attached t i t.
Proof.
  intros Hi. split; [apply same_levels_refl|]. split; [reflexivity|].
  intros k b Hk Hb g.
  destruct (Z.leb_spec 222 g), (Z.ltb_spec g (222 + 26 * Z.min i 11));
    cbn [andb]; try reflexivity. lia.
Qed.

Lemma attached_step (t t' : texture) (i : Z) :
  length (descriptor t) = 16%nat ->
  (0 <= i <= 10 ->
   0 <= lvl_mem_physical (level_at t i) < 2 ^ 32 /\
   lvl_mem_physical (level_at t i) mod 1024 = 0) ->
  0 <= i ->
  attached t i t' ->
  attached t (i + 1) (texture_descriptor_level_attach t' i).
Proof.
  intros Hlen Hp Hi (S & L & B).
  destruct (Z_le_gt_dec 11 i) as [Hge|Hlt].
  - rewrite level_attach_noop by assumption.
    split; [exact S|]. split; [exact L|].
    intros k b Hk Hb. specialize (B k b Hk Hb). cbv zeta in *.
    replace (Z.min (i + 1) 11) with (Z.min i 11) by lia. exact B.
  - destruct (Hp ltac:(lia)) as [Hr Ha].
    assert (El : level_at t' i = level_at t i).
    { unfold level_at. destruct S as (_ & _ & _ & _ & ->). reflexivity. }
    split; [eapply same_levels_trans; [exact S|apply level_attach_same_levels]|].
    split; [rewrite level_attach_length; exact L|].
    intros k b Hk Hb. cbv zeta.
    destruct (level_attach_bits t' i k b ltac:(lia) ltac:(congruence)
                ltac:(rewrite El; exact Hr) ltac:(rewrite El; exact Ha) Hk Hb)
      as (_ & _ & Hbit).
    rewrite Hbit, (field_bit_layout i k b ltac:(lia) Hk Hb), El. cbv zeta.
    specialize (B k b Hk Hb). cbv zeta in B.
    set (g := 32 * Z.of_nat k + b) in *.
    replace (Z.min (i + 1) 11) with (i + 1) by lia.
    replace (Z.min i 11) with i in B by lia.
    destruct (Z.leb_spec (222 + 26 * i) g) as [H1|H1],
             (Z.ltb_spec g (248 + 26 * i)) as [H2|H2]; cbn [andb].
    + destruct (Z.leb_spec 222 g), (Z.ltb_spec g (222 + 26 * (i + 1)));
        cbn [andb]; try lia.
      replace ((g - 222) / 26) with i
        by (apply Z.div_unique with (r := g - 222 - 26 * i); lia).
      replace ((g - 222) mod 26) with (g - 222 - 26 * i)
        by (apply Z.mod_unique with (q := i); lia).
      f_equal. lia.
    + rewrite B.
      destruct (Z.leb_spec 222 g), (Z.ltb_spec g (222 + 26 * i)),
               (Z.ltb_spec g (222 + 26 * (i + 1))); cbn [andb];
        try reflexivity; lia.
    + rewrite B.
      destruct (Z.leb_spec 222 g), (Z.ltb_spec g (222 + 26 * i)),
               (Z.ltb_spec g (222 + 26 * (i + 1))); cbn [andb];
        try reflexivity; lia.
    + lia.
Qed.

(** X11. After [texture_descriptor_levels_attach] on a 16-word descriptor,
    when the physical addresses of the levels below 11 are 1024-byte
    aligned and fit in 32 bits: the 26 bits from bit 222 + 26 i of the
    descriptor on hold the address bits 6..31 of level [i], for every level
    [i] below [min(levels, 11)], and every other bit of the descriptor, the
    header words 0..5 and bits 0..29 of word 6 included, is as before. No
    attach overwrites the field of another level. *)
Theorem texture_descriptor_levels_attach_bits (t : texture) (k : nat) (b : Z) :
  length (descriptor t) = 16%nat ->
  (forall i, 0 <= i < levels t -> i <= 10 ->
     0 <= lvl_mem_physical (level_at t i) < 2 ^ 32 /\
     lvl_mem_physical (level_at t i) mod 1024 = 0) ->
  (k < 16)%nat -> 0 <= b < 32 ->
  let g := 32 * Z.of_nat k + b in
  Z.testbit (desc_at (texture_descriptor_levels_attach t) k) b =
    if (222 <=? g) && (g <? 222 + 26 * Z.min (levels t) 11)
    then Z.testbit (lvl_mem_physical (level_at t ((g - 222) / 26)))
                   ((g - 222) mod 26 + 6)
    else Z.testbit (desc_at t k) b.
Proof.
  intros Hlen Hp Hk Hb.
  assert (A : attached t (levels t) (texture_descriptor_levels_attach t)).
  { unfold texture_descriptor_levels_attach.
    destruct (Z_le_gt_dec 0 (levels t)) as [Hn|Hn].
    - apply (for_range_ind (attached t)); [exact Hn|apply attached_start; lia|].
      intros i t' Hi At. apply attached_step; try assumption; [|lia].
      intros Hi'. apply Hp; lia.
    - rewrite for_range_empty by lia. apply attached_start. lia. }
  destruct A as (_ & _ & B). apply B; assumption.
Qed.

Lemma texture_descriptor_levels_attach_bits_witness :
  Z.testbit (desc_at (texture_descriptor_levels_attach two_level_sample) 7) 25
  = Z.testbit (lvl_mem_physical (level_at two_level_sample 1)) 7.
Proof.
  refine (texture_descriptor_levels_attach_bits two_level_sample 7 25
            eq_refl _ ltac:(lia) ltac:(lia)).
  intros i Hi _. change (levels two_level_sample) with 2 in Hi.
  assert (Hc : i = 0 \/ i = 1) by lia.
  destruct Hc as [-> | ->]; vm_compute; repeat split; discriminate || reflexivity.
Defined.

(** ** Descriptor: the header survives the packing of the addresses *)

Lemma desc_at_set_desc_ne (t : texture) (k k' : nat) (v : Z) :
  k <> k' -> desc_at (set_desc t k v) k' = desc_at t k'.
Proof. intros H. unfold desc_at, set_desc. cbn [descriptor]. apply list_lookup_total_insert_ne, H. Qed.

Lemma descriptor_word_desc_at (t : texture) (k : nat) :
  (k < length (descriptor t))%nat ->
  descriptor_word (descriptor t) (Z.of_nat k) = desc_at t k.
Proof.
  intros H. unfold descriptor_word, desc_at. rewrite Nat2Z.id.
  rewrite (list_lookup_lookup_total_lt _ _ H). reflexivity.
Qed.

(** Words 0..5 are never written by the packer, word 6 only by level 0. *)
Lemma level_attach_word (t : texture) (i : Z) (k : nat) :
  (k < 6)%nat \/ (k = 6%nat /\ i <> 0) ->
  desc_at (texture_descriptor_level_attach t i) k = desc_at t k.
Proof.
  intros Hk. unfold texture_descriptor_level_attach, desc_or, desc_and.
  destruct i as [|p|p]; try reflexivity;
    [|repeat (destruct p as [p|p|]; try reflexivity)];
    cbv zeta; rewrite !desc_at_set_desc_ne by lia; reflexivity.
Qed.

Lemma level_attach_word6 (t : texture) (i b : Z) :
  length (descriptor t) = 16%nat -> 0 <= b < 24 ->
  Z.testbit (desc_at (texture_descriptor_level_attach t i) 6) b
  = Z.testbit (desc_at t 6) b.
Proof.
  intros Hlen Hb. destruct (Z.eq_dec i 0) as [->|Hi].
  - unfold texture_descriptor_level_attach. cbv zeta.
    rewrite masked_write_word by (rewrite masked_write_length, Hlen; lia).
    cbn [Nat.eqb]. rewrite masked_write_word by (rewrite Hlen; lia).
    cbn [Nat.eqb]. rewrite masked_word_bit by lia.
    change 0xC0000000 with (Z.shiftl 3 30).
    rewrite (Z.shiftl_spec_low 3 30 b) by lia.
    rewrite u32_testbit by lia.
    rewrite (Z.shiftl_spec_low _ 24 b) by lia.
    cbn [negb]. rewrite andb_true_r, orb_false_r. reflexivity.
  - rewrite level_attach_word by (right; auto). reflexivity.
Qed.

Lemma levels_attach_header (t : texture) :
  length (descriptor t) = 16%nat ->
  (forall k : nat, (k < 6)%nat ->
     desc_at (texture_descriptor_levels_attach t) k = desc_at t k) /\
  (forall b, 0 <= b < 24 ->
     Z.testbit (desc_at (texture_descriptor_levels_attach t) 6) b
     = Z.testbit (desc_at t 6) b).
Proof.
  intros Hlen. unfold texture_descriptor_levels_attach.
  apply (for_range_inv
    (fun t' => length (descriptor t') = 16%nat /\
       (forall k : nat, (k < 6)%nat -> desc_at t' k = desc_at t k) /\
       (forall b, 0 <= b < 24 ->
          Z.testbit (desc_at t' 6) b = Z.testbit (desc_at t 6) b))).
  - intros i t' _ (L & W & B). split; [rewrite level_attach_length; exact L|].
    split.
    + intros k Hk. rewrite level_attach_word by (left; exact Hk). apply W, Hk.
    + intros b Hb. rewrite level_attach_word6 by assumption. apply B, Hb.
  - auto.
Qed.

Lemma lor_shiftl_add (a b k : Z) :
  0 <= k -> 0 <= b < 2 ^ k -> Z.lor (Z.shiftl a k) b = Z.shiftl a k + b.
Proof.
  intros Hk Hb.
  assert (H : Z.land (Z.shiftl a k) b = 0).
  { apply Z.bits_inj'. intros n Hn. rewrite Z.land_spec, Z.bits_0.
    destruct (Z_lt_le_dec n k).
    - rewrite Z.shiftl_spec_low by assumption. reflexivity.
    - rewrite (testbit_small b k n) by lia. apply andb_false_r. }
  rewrite (Z.add_nocarry_lxor _ _ H). symmetry. apply Z.lxor_lor, H.
Qed.

Lemma descriptor_header_words (t : texture) (w h fmt : Z) :
  descriptor t = replicate DESCRIPTOR_WORDS 0 ->
  descriptor (descriptor_header t w h fmt) =
    [ u32 (Z.lor (Z.lor (Z.shiftl 1 7) (Z.shiftl 0 6)) fmt); 0x00000400;
      u32 (Z.shiftl w 22);
      u32 (Z.lor (Z.lor 0x10000 (Z.shiftl h 3)) (Z.shiftr w 10));
      0; 0; u32 (Z.shiftl 3 13); 0; 0; 0; 0; 0; 0; 0; 0; 0 ].
Proof.
  intros H. unfold descriptor_header, set_desc. cbn [descriptor].
  rewrite H. reflexivity.
Qed.

(** The width and the height packed in words 2 and 3 can be read back. *)
Lemma packed_dimensions (w h : Z) :
  0 <= w <= 4096 -> 0 <= h <= 4096 ->
  let d2 := u32 (Z.shiftl w 22) in
  let d3 := u32 (Z.lor (Z.lor 0x10000 (Z.shiftl h 3)) (Z.shiftr w 10)) in
  Z.lor (Z.shiftl (Z.land d3 7) 10) (Z.shiftr d2 22) = w /\
  Z.land (Z.shiftr d3 3) 0x1FFF = h.
Proof.
  intros Hw Hh d2 d3.
  pose proof (Z.div_mod w 1024 ltac:(lia)) as Dw.
  pose proof (Z.mod_pos_bound w 1024 ltac:(lia)) as Mw.
  assert (Qw : 0 <= w / 1024 < 8).
  { split; [apply Z.div_pos; lia|apply Z.div_lt_upper_bound; lia]. }
  assert (E2 : Z.shiftr d2 22 = w mod 1024).
  { subst d2. unfold u32. rewrite Z.shiftl_mul_pow2, Z.shiftr_div_pow2 by lia.
    change (2 ^ 32) with (2 ^ 10 * 2 ^ 22).
    rewrite Z.mul_mod_distr_r by lia. rewrite Z.div_mul by lia. reflexivity. }
  assert (E3 : d3 = 8 * (8192 + h) + w / 1024).
  { subst d3. change 0x10000 with (Z.shiftl 1 16).
    rewrite (lor_shiftl_add 1 (Z.shiftl h 3) 16)
      by (rewrite ?Z.shiftl_mul_pow2 by lia; change (2 ^ 3) with 8;
          change (2 ^ 16) with 65536; lia).
    replace (Z.shiftl 1 16 + Z.shiftl h 3) with (Z.shiftl (8192 + h) 3)
      by (rewrite !Z.shiftl_mul_pow2 by lia; change (2 ^ 3) with 8;
          change (2 ^ 16) with 65536; lia).
    rewrite (Z.shiftr_div_pow2 w 10) by lia. change (2 ^ 10) with 1024.
    rewrite lor_shiftl_add by (change (2 ^ 3) with 8; lia).
    rewrite Z.shiftl_mul_pow2 by lia. change (2 ^ 3) with 8.
    unfold u32. rewrite Z.mod_small by (change (2 ^ 32) with 4294967296; lia).
    lia. }
  split.
  - rewrite E2. change 7 with (Z.ones 3). rewrite Z.land_ones by lia.
    change (2 ^ 3) with 8.
    replace (d3 mod 8) with (w / 1024)
      by (apply Z.mod_unique with (q := 8192 + h); lia).
    rewrite lor_shiftl_add by (change (2 ^ 10) with 1024; lia).
    rewrite Z.shiftl_mul_pow2 by lia. change (2 ^ 10) with 1024. lia.
  - rewrite Z.shiftr_div_pow2 by lia. change (2 ^ 3) with 8.
    replace (d3 / 8) with (8192 + h)
      by (apply Z.div_unique with (r := w / 1024); lia).
    change 0x1FFF with (Z.ones 13). rewrite Z.land_ones by lia.
    change (2 ^ 13) with 8192.
    symmetry. apply Z.mod_unique with (q := 1); lia.
Qed.

Lemma layout_bits (a a' : Z) :
  (forall b, 0 <= b < 24 -> Z.testbit a' b = Z.testbit a b) ->
  Z.land (Z.shiftr a' 13) 7 = Z.land (Z.shiftr a 13) 7.
Proof.
  intros H. apply Z.bits_inj'. intros n Hn.
  rewrite !Z.land_spec, !Z.shiftr_spec by assumption.
  destruct (Z_lt_le_dec n 3).
  - rewrite H by lia. reflexivity.
  - rewrite (testbit_small 7 3 n) by (change (2 ^ 3) with 8; lia).
    rewrite !andb_false_r. reflexivity.
Qed.

(** X12. The header of the descriptor of a returned texture of non-negative
    dimensions can be read back after the level addresses have been packed:
    word 0 is [0x80 | format], word 1 is 0x400, the width is found in the
    top 10 bits of word 2 and the low 3 bits of word 3, the height in word 3
    from bit 3 on, and the layout selector 3 in word 6 from bit 13 on.
    Width and height do not overlap each other nor the flag at bit 16, and
    packing the addresses does not disturb the header. *)
Theorem texture_create_descriptor_header (rgb : Z) (state : limare_state)
    (m : mem) (src : Z -> Z) (w h fmt mipmap : Z) (t : texture)
    (state' : limare_state) (m' : mem) :
  0 <= w -> 0 <= h ->
  texture_create rgb state m src w h fmt mipmap = Some (Some t, state', m') ->
  descriptor_word (descriptor t) 0 = u32 (Z.lor 0x80 fmt) /\
  descriptor_word (descriptor t) 1 = 0x400 /\
  descriptor_width (descriptor t) = w /\
  descriptor_height (descriptor t) = h /\
  descriptor_layout (descriptor t) = 3.
Proof.
  intros Hw Hh E. apply texture_create_inv in E.
  destruct E as (Hw' & Hh' & _ & n & t2 & _ & _ & P & -> & _ & _).
  destruct P as (_ & _ & _ & _ & Pd & _).
  pose proof (descriptor_header_words t2 w h fmt Pd) as Hd.
  set (hd := descriptor_header t2 w h fmt) in *.
  assert (Hlen : length (descriptor hd) = 16%nat) by (rewrite Hd; reflexivity).
  destruct (levels_attach_header hd Hlen) as [Hlow H6].
  set (t := texture_descriptor_levels_attach hd) in *.
  assert (Hlen' : length (descriptor t) = 16%nat)
    by (subst t; rewrite levels_attach_length; exact Hlen).
  assert (W : forall k : nat, (k < 6)%nat ->
                descriptor_word (descriptor t) (Z.of_nat k) = desc_at hd k).
  { intros k Hk. rewrite descriptor_word_desc_at by lia. apply Hlow, Hk. }
  pose proof (W 0%nat ltac:(lia)) as W0. pose proof (W 1%nat ltac:(lia)) as W1.
  pose proof (W 2%nat ltac:(lia)) as W2. pose proof (W 3%nat ltac:(lia)) as W3.
  change (Z.of_nat 0) with 0 in W0. change (Z.of_nat 1) with 1 in W1.
  change (Z.of_nat 2) with 2 in W2. change (Z.of_nat 3) with 3 in W3.
  unfold desc_at in W0, W1, W2, W3. rewrite Hd in W0, W1, W2, W3.
  cbn [lookup_total list_lookup_total] in W0, W1, W2, W3.
  destruct (packed_dimensions w h ltac:(lia) ltac:(lia)) as [Pw Ph].
  cbv zeta in Pw, Ph.
  unfold descriptor_width, descriptor_height, descriptor_layout.
  rewrite W0, W1, W2, W3.
  split; [reflexivity|]. split; [reflexivity|].
  split; [exact Pw|]. split; [exact Ph|].
  pose proof (descriptor_word_desc_at t 6 ltac:(lia)) as W6.
  change (Z.of_nat 6) with 6 in W6. rewrite W6.
  rewrite (layout_bits (desc_at hd 6) (desc_at t 6) H6).
  unfold desc_at. rewrite Hd. reflexivity.
Qed.

Lemma texture_create_descriptor_header_witness :
  exists t state' m',
    texture_create 0x15 sample_state zero_mem grey_pixels 4 2 0x15 1
      = Some (Some t, state', m') /\
    descriptor_width (descriptor t) = 4 /\ descriptor_height (descriptor t) = 2.
Proof.
  destruct (texture_create_success 0x15 sample_state zero_mem grey_pixels
              4 2 0x15 1 3 ltac:(lia) ltac:(lia) eq_refl eq_refl)
    as (t2 & P & E).
  { vm_compute. discriminate. }
  eexists _, _, _. split; [exact E|].
  destruct (texture_create_descriptor_header 0x15 sample_state zero_mem
              grey_pixels 4 2 0x15 1 _ _ _ ltac:(lia) ltac:(lia) E)
    as (_ & _ & Hw & Hh & _).
  split; assumption.
Defined.

(** ** Descriptor: reading the level addresses back *)

Lemma u32_range (x : Z) : 0 <= u32 x < 2 ^ 32.
Proof. unfold u32. apply Z.mod_pos_bound. reflexivity. Qed.

Lemma words32_set_desc (t : texture) (k : nat) (v : Z) :
  words32 (descriptor t) -> 0 <= v < 2 ^ 32 ->
  words32 (descriptor (set_desc t k v)).
Proof.
  intros H Hv k' Hk'. unfold set_desc in *. cbn [descriptor] in *.
  rewrite length_insert in Hk'.
  destruct (decide (k = k')) as [->|Hne].
  - rewrite list_lookup_total_insert_eq by exact Hk'. exact Hv.
  - rewrite list_lookup_total_insert_ne by exact Hne. apply H, Hk'.
Qed.

Lemma words32_desc_and (t : texture) (k : nat) (v : Z) :
  words32 (descriptor t) -> words32 (descriptor (desc_and t k v)).
Proof. intros H. apply words32_set_desc; [exact H|apply u32_range]. Qed.

Lemma words32_desc_or (t : texture) (k : nat) (v : Z) :
  words32 (descriptor t) -> words32 (descriptor (desc_or t k v)).
Proof. intros H. apply words32_set_desc; [exact H|apply u32_range]. Qed.

(** Every word the packer writes is a 32-bit word. *)
Lemma level_attach_words32 (t : texture) (i : Z) :
  words32 (descriptor t) ->
  words32 (descriptor (texture_descriptor_level_attach t i)).
Proof.
  intros H. unfold texture_descriptor_level_attach.
  destruct i as [|p|p]; try exact H;
    [|repeat (destruct p as [p|p|]; try exact H)];
    cbv zeta; repeat (apply words32_desc_or || apply words32_desc_and); exact H.
Qed.

Lemma levels_attach_words32 (t : texture) :
  words32 (descriptor t) ->
  words32 (descriptor (texture_descriptor_levels_attach t)).
Proof.
  intros H. unfold texture_descriptor_levels_attach.
  apply (for_range_inv (fun t' => words32 (descriptor t'))); [|exact H].
  intros i t' _ Ht'. apply level_attach_words32, Ht'.
Qed.

Lemma descriptor_header_words32 (t : texture) (w h fmt : Z) :
  words32 (descriptor t) -> words32 (descriptor (descriptor_header t w h fmt)).
Proof.
  intros H. unfold descriptor_header. cbv zeta.
  repeat (apply words32_set_desc; [|apply u32_range || (change (2 ^ 32) with 4294967296; lia)]).
  exact H.
Qed.

Lemma calloc_words32 : words32 (replicate DESCRIPTOR_WORDS 0).
Proof.
  intros k Hk. rewrite length_replicate in Hk.
  rewrite lookup_total_replicate_2 by exact Hk.
  change (2 ^ 32) with 4294967296. lia.
Qed.

Lemma descriptor_word_range (d : list Z) (k : Z) :
  words32 d -> 0 <= descriptor_word d k < 2 ^ 32.
Proof.
  intros H. unfold descriptor_word.
  destruct (d !! Z.to_nat k) as [z|] eqn:E; cbn [default].
  - pose proof (lookup_lt_Some _ _ _ E) as Hlt.
    rewrite <- (list_lookup_total_correct _ _ _ E). apply H, Hlt.
  - change (2 ^ 32) with 4294967296. lia.
Qed.

(** Bit [q] of two consecutive 32-bit words read as one 64-bit window. *)
Lemma window_bit (a b q : Z) :
  0 <= a < 2 ^ 32 -> 0 <= b < 2 ^ 32 -> 0 <= q ->
  Z.testbit (Z.lor a (Z.shiftl b 32)) q
  = if q <? 32 then Z.testbit a q else Z.testbit b (q - 32).
Proof.
  intros Ha Hb Hq. rewrite Z.lor_spec, Z.shiftl_spec by lia.
  destruct (Z.ltb_spec q 32).
  - rewrite (Z.testbit_neg_r b) by lia. apply orb_false_r.
  - rewrite (testbit_small a 32 q) by lia. reflexivity.
Qed.

Lemma levels_attach_attached (t : texture) :
  length (descriptor t) = 16%nat ->
  (forall i, 0 <= i < levels t -> i <= 10 ->
     0 <= lvl_mem_physical (level_at t i) < 2 ^ 32 /\
     lvl_mem_physical (level_at t i) mod 1024 = 0) ->
  attached t (levels t) (texture_descriptor_levels_attach t).
Proof.
  intros Hlen Hp. unfold texture_descriptor_levels_attach.
  destruct (Z_le_gt_dec 0 (levels t)) as [Hn|Hn].
  - apply (for_range_ind (attached t)); [exact Hn|apply attached_start; lia|].
    intros i t' Hi At. apply attached_step; try assumption; [|lia].
    intros Hi'. apply Hp; lia.
  - rewrite for_range_empty by lia. apply attached_start. lia.
Qed.

(** Reading 26 bits from bit 222 + 26 i of a packed descriptor gives back
    the address of level [i]. *)
Lemma descriptor_address_attached (t t' : texture) (i : Z) :
  attached t (levels t) t' ->
  length (descriptor t) = 16%nat ->
  words32 (descriptor t') ->
  0 <= i < levels t -> i <= 10 ->
  0 <= lvl_mem_physical (level_at t i) < 2 ^ 32 ->
  lvl_mem_physical (level_at t i) mod 1024 = 0 ->
  descriptor_address (descriptor t') i = lvl_mem_physical (level_at t i).
Proof.
  intros (_ & L & B) Hlen W Hi Hi10 Hr Ha.
  set (p := lvl_mem_physical (level_at t i)) in *.
  apply Z.bits_inj'. intros n Hn.
  unfold descriptor_address. cbv zeta.
  set (g := 222 + 26 * i).
  pose proof (Z.div_mod g 32 ltac:(lia)) as Dg.
  pose proof (Z.mod_pos_bound g 32 ltac:(lia)) as Mg.
  set (k := g / 32) in *. set (s := g mod 32) in *.
  rewrite Z.shiftl_spec by exact Hn.
  destruct (Z_lt_le_dec n 6) as [Hlo|Hlo].
  { rewrite Z.testbit_neg_r by lia. symmetry.
    apply aligned_address_bit; [exact Hr|exact Ha|lia]. }
  rewrite Z.land_spec.
  destruct (Z_lt_le_dec n 32) as [Hhi|Hhi].
  2:{ rewrite (Z.ones_spec_high 26 (n - 6)) by lia.
      rewrite andb_false_r. symmetry.
      apply aligned_address_bit; [exact Hr|exact Ha|lia]. }
  rewrite (Z.ones_spec_low 26 (n - 6)) by lia. rewrite andb_true_r.
  rewrite Z.shiftr_spec by lia.
  rewrite window_bit by (try apply descriptor_word_range; try exact W; lia).
  assert (Hk : 0 <= k) by lia.
  assert (Hbit : forall (K : nat) (b : Z), (K < 16)%nat -> 0 <= b < 32 ->
            32 * Z.of_nat K + b = g + (n - 6) ->
            Z.testbit (descriptor_word (descriptor t') (Z.of_nat K)) b
            = Z.testbit p n).
  { intros K b HK Hb Eg.
    rewrite descriptor_word_desc_at by (rewrite L, Hlen; exact HK).
    rewrite (B K b HK Hb). cbv zeta. rewrite Eg.
    destruct (Z.leb_spec 222 (g + (n - 6))),
             (Z.ltb_spec (g + (n - 6)) (222 + 26 * Z.min (levels t) 11));
      cbn [andb]; try lia.
    replace ((g + (n - 6) - 222) / 26) with i
      by (apply Z.div_unique with (r := n - 6); lia).
    replace ((g + (n - 6) - 222) mod 26) with (n - 6)
      by (apply Z.mod_unique with (q := i); lia).
    fold p. f_equal. lia. }
  destruct (Z.ltb_spec (n - 6 + s) 32) as [Hq|Hq].
  - rewrite <- (Z2Nat.id k Hk). apply Hbit; lia.
  - replace (k + 1) with (Z.of_nat (Z.to_nat (k + 1))) by lia.
    apply Hbit; lia.
Qed.

(** X13. The descriptor of a returned texture gives back the physical
    address of each of its first eleven levels: when the arena lies in the
    32-bit physical address space and its physical base and used offset are
    multiples of 1024, reading the 26 bits that start at bit 222 + 26 i of
    the descriptor (across a word boundary where the field straddles one)
    and shifting them left by 6 gives [mem_physical] of level [i], for every
    level i <= 10 of the texture. *)
Theorem texture_create_descriptor_address (rgb : Z) (state : limare_state)
    (m : mem) (src : Z -> Z) (w h fmt mipmap : Z) (t : texture)
    (state' : limare_state) (m' : mem) (i : Z) :
  0 <= w -> 0 <= h ->
  0 <= aux_mem_physical state -> 0 <= aux_mem_used state ->
  aux_mem_physical state + aux_mem_size state <= 2 ^ 32 ->
  aux_mem_physical state mod 1024 = 0 -> aux_mem_used state mod 1024 = 0 ->
  texture_create rgb state m src w h fmt mipmap = Some (Some t, state', m') ->
  0 <= i < levels t -> i <= 10 ->
  descriptor_address (descriptor t) i = lvl_mem_physical (level_at t i).
Proof.
  intros Hw Hh Hp Hu Hsz Ap Au E Hi Hi10. apply texture_create_inv in E.
  destruct E as (Hw' & Hh' & _ & n & t2 & Hn & Hroom & P & -> & _ & _).
  destruct P as (_ & _ & _ & Pn & Pd & _ & Pl & _).
  cbn [new_texture width height levels descriptor] in Pn, Pd, Pl.
  set (hd := descriptor_header t2 w h fmt) in *.
  pose proof (descriptor_header_same_levels t2 w h fmt) as (_ & _ & _ & Sn & Sl).
  fold hd in Sn, Sl.
  pose proof (levels_attach_same_levels hd) as (_ & _ & _ & Tn & Tl).
  rewrite Tn, Sn, Pn in Hi.
  assert (Hlen : length (descriptor hd) = 16%nat).
  { subst hd. rewrite descriptor_header_length, Pd. reflexivity. }
  assert (Hlv : forall j, 0 <= j < n ->
            level_at hd j = planned_level state w h j).
  { intros j Hj. unfold level_at. rewrite Sl. apply (Pl j Hj). }
  assert (Hphys : forall j, 0 <= j < levels hd -> j <= 10 ->
            0 <= lvl_mem_physical (level_at hd j) < 2 ^ 32 /\
            lvl_mem_physical (level_at hd j) mod 1024 = 0).
  { intros j Hj _. rewrite Sn, Pn in Hj. rewrite (Hlv j Hj).
    unfold planned_level. cbn [lvl_mem_physical].
    pose proof (sizes_sum_nonneg w h (Z.to_nat j) Hw Hh) as S0.
    pose proof (sizes_sum_succ w h j ltac:(lia)) as S1.
    pose proof (proj1 (planned_size_room w h j Hw Hh)) as S2.
    pose proof (sizes_sum_le w h (Z.to_nat (j + 1)) (Z.to_nat n)
                  (fun q => planned_size_nonneg w h q Hw Hh) ltac:(lia)) as S3.
    split; [lia|].
    repeat apply aligned_add; try assumption. apply sizes_sum_aligned. }
  assert (El : level_at (texture_descriptor_levels_attach hd) i = level_at hd i).
  { unfold level_at. rewrite Tl. reflexivity. }
  rewrite El.
  destruct (Hphys i ltac:(rewrite Sn, Pn; exact Hi) Hi10) as [Hr Ha].
  apply descriptor_address_attached; try assumption.
  - apply levels_attach_attached; assumption.
  - apply levels_attach_words32, descriptor_header_words32.
    rewrite Pd. apply calloc_words32.
  - rewrite Sn, Pn. exact Hi.
Qed.

Lemma texture_create_descriptor_address_witness :
  exists t state' m',
    texture_create 0x15 sample_state zero_mem grey_pixels 4 2 0x15 1
      = Some (Some t, state', m') /\
    descriptor_address (descriptor t) 2 = lvl_mem_physical (level_at t 2).
Proof.
  destruct (texture_create_success 0x15 sample_state zero_mem grey_pixels
              4 2 0x15 1 3 ltac:(lia) ltac:(lia) eq_refl eq_refl)
    as (t2 & P & E).
  { vm_compute. discriminate. }
  eexists _, _, _. split; [exact E|].
  apply (texture_create_descriptor_address 0x15 sample_state zero_mem
           grey_pixels 4 2 0x15 1 _ _ _ 2 ltac:(lia) ltac:(lia)
           ltac:(vm_compute; discriminate) ltac:(vm_compute; discriminate)
           ltac:(vm_compute; discriminate) eq_refl eq_refl E); [|lia].
  pose proof (levels_attach_same_levels (descriptor_header t2 4 2 0x15))
    as (_ & _ & _ & Tn & _).
  pose proof (descriptor_header_same_levels t2 4 2 0x15) as (_ & _ & _ & Sn & _).
  destruct P as (_ & _ & _ & Pn & _).
  rewrite Tn, Sn, Pn. cbn [new_texture levels]. lia.
Defined.

(** ** Packing of the levels in the arena *)

(** X14. The levels of a returned texture are packed back to back in the
    arena, in level order and with no gap: level 0 starts at the used offset
    the arena had at the call, each further level starts where the level
    before it ends, and the last level ends at the used offset the call
    leaves. This holds for the CPU addresses and for the physical addresses
    alike, and entry [i] of the table carries the level number [i]. *)
Theorem texture_create_levels_contiguous (rgb : Z) (state : limare_state)
    (m : mem) (src : Z -> Z) (w h fmt mipmap : Z) (t : texture)
    (state' : limare_state) (m' : mem) :
  texture_create rgb state m src w h fmt mipmap = Some (Some t, state', m') ->
  (forall i, 0 <= i < levels t -> lvl_level (level_at t i) = i) /\
  (1 <= levels t ->
     lvl_dest (level_at t 0) = aux_mem_address state + aux_mem_used state /\
     lvl_mem_physical (level_at t 0)
       = aux_mem_physical state + aux_mem_used state) /\
  (forall i, 0 <= i -> i + 1 < levels t ->
     lvl_dest (level_at t (i + 1))
       = lvl_dest (level_at t i) + lvl_size (level_at t i) /\
     lvl_mem_physical (level_at t (i + 1))
       = lvl_mem_physical (level_at t i) + lvl_size (level_at t i)) /\
  (1 <= levels t ->
     lvl_dest (level_at t (levels t - 1)) + lvl_size (level_at t (levels t - 1))
       = aux_mem_address state' + aux_mem_used state' /\
     lvl_mem_physical (level_at t (levels t - 1))
       + lvl_size (level_at t (levels t - 1))
       = aux_mem_physical state' + aux_mem_used state').
Proof.
  intros E. apply texture_create_levels_planned in E.
  destruct E as (_ & _ & _ & _ & _ & _ & _ & -> & Hlv).
  split; [|split; [|split]].
  - intros i Hi. rewrite (Hlv i Hi). reflexivity.
  - intros Hn. rewrite (Hlv 0) by lia. unfold planned_level.
    cbn [lvl_dest lvl_mem_physical]. change (Z.to_nat 0) with O.
    cbn [sizes_sum]. lia.
  - intros i Hi Hn. rewrite (Hlv i), (Hlv (i + 1)) by lia.
    unfold planned_level. cbn [lvl_dest lvl_mem_physical lvl_size].
    rewrite sizes_sum_succ by exact Hi. lia.
  - intros Hn. rewrite (Hlv (levels t - 1)) by lia.
    unfold planned_level, advanced.
    cbn [lvl_dest lvl_mem_physical lvl_size aux_mem_address aux_mem_physical
         aux_mem_used].
    pose proof (sizes_sum_succ w h (levels t - 1) ltac:(lia)) as S.
    replace (levels t - 1 + 1) with (levels t) in S by lia. lia.
Qed.

Lemma texture_create_levels_contiguous_witness :
  exists t state' m',
    texture_create 0x15 sample_state zero_mem grey_pixels 4 2 0x15 1
      = Some (Some t, state', m') /\
    (1 <= levels t ->
     lvl_dest (level_at t 0)
       = aux_mem_address sample_state + aux_mem_used sample_state /\
     lvl_mem_physical (level_at t 0)
       = aux_mem_physical sample_state + aux_mem_used sample_state).
Proof.
  destruct (texture_create_success 0x15 sample_state zero_mem grey_pixels
              4 2 0x15 1 3 ltac:(lia) ltac:(lia) eq_refl eq_refl)
    as (t2 & P & E).
  { vm_compute. discriminate. }
  eexists _, _, _. split; [exact E|].
  exact (proj1 (proj2 (texture_create_levels_contiguous 0x15 sample_state
                         zero_mem grey_pixels 4 2 0x15 1 _ _ _ E))).
Defined.

(** X15. For a request of non-negative dimensions [texture_create]
    returns, and it returns a texture exactly when both dimensions are at
    most 4096, the format is the 24-bit RGB one and the sizes of all the
    levels together fit in what is left of the arena; in every other case it
    returns no texture and leaves the arena and the memory as they were. *)
Theorem texture_create_succeeds_iff (rgb : Z) (state : limare_state)
    (m : mem) (src : Z -> Z) (w h fmt mipmap : Z) :
  0 <= w -> 0 <= h ->
  exists r state' m',
    texture_create rgb state m src w h fmt mipmap = Some (r, state', m') /\
    (r <> None <->
       w <= 4096 /\ h <= 4096 /\ fmt = rgb /\
       exists n, requested_levels w h mipmap = Some n /\
                 sizes_sum w h (Z.to_nat n)
                   <= aux_mem_size state - aux_mem_used state) /\
    (r = None -> state' = state /\ m' = m).
Proof.
  intros Hw0 Hh0.
  assert (Hf : forall P : Prop, ~ P ->
            exists (r : option texture) (state' : limare_state) (m' : mem),
              Some (@None texture, state, m) = Some (r, state', m') /\
              (r <> None <-> P) /\ (r = None -> state' = state /\ m' = m)).
  { intros P HP. exists None, state, m. split; [reflexivity|]. split; [|auto].
    split; [congruence|]. intros HP'. contradiction. }
  destruct (Z_le_gt_dec w 4096) as [Hw|Hw];
    [|rewrite texture_create_dimension by lia; apply Hf; lia].
  destruct (Z_le_gt_dec h 4096) as [Hh|Hh];
    [|rewrite texture_create_dimension by lia; apply Hf; lia].
  destruct (requested_levels_defined w h mipmap ltac:(lia)) as [n Hn].
  destruct (Z.eq_dec fmt rgb) as [Ef|Ef];
    [|rewrite (texture_create_format_rejected rgb state m src w h fmt mipmap n)
        by assumption; apply Hf; tauto].
  destruct (Z_lt_le_dec (aux_mem_size state - aux_mem_used state)
              (sizes_sum w h (Z.to_nat n))) as [Hlt|Hle].
  - rewrite (texture_create_memory rgb state m src w h fmt mipmap n)
      by assumption.
    apply Hf. intros (_ & _ & _ & n' & Hn' & Hle).
    rewrite Hn in Hn'. inversion Hn'; subst n'. lia.
  - destruct (texture_create_success rgb state m src w h fmt mipmap n
                Hw Hh Ef Hn Hle) as (t2 & _ & E).
    rewrite E. eexists _, _, _. split; [reflexivity|]. split.
    + split; [intros _|discriminate]. repeat split; try assumption.
      exists n. split; assumption.
    + discriminate.
Qed.

(** A 64 x 64 request with its mip chain needs 20 KiB: in an arena with
    1 KiB left the equivalence gives no texture, in the sample arena (62 KiB
    left) it gives one. *)
Lemma texture_create_succeeds_iff_witness :
  texture_create 0x15 full_state zero_mem grey_pixels 64 64 0x15 1
    = Some (None, full_state, zero_mem) /\
  exists t state' m',
    texture_create 0x15 sample_state zero_mem grey_pixels 64 64 0x15 1
      = Some (Some t, state', m').
Proof.
  split.
  - destruct (texture_create_succeeds_iff 0x15 full_state zero_mem grey_pixels
                64 64 0x15 1 ltac:(lia) ltac:(lia))
      as (r & state' & m' & E & [Hfit _] & Hnone).
    destruct r as [t|].
    + exfalso. destruct (Hfit ltac:(discriminate)) as (_ & _ & _ & n & Hn & Hle).
      vm_compute in Hn. inversion Hn; subst n. vm_compute in Hle.
      apply Hle. reflexivity.
    + destruct (Hnone eq_refl) as [-> ->]. exact E.
  - destruct (texture_create_succeeds_iff 0x15 sample_state zero_mem grey_pixels
                64 64 0x15 1 ltac:(lia) ltac:(lia))
      as (r & state' & m' & E & [_ Hfit] & _).
    destruct r as [t|].
    + exists t, state', m'. exact E.
    + exfalso. apply Hfit; [|reflexivity].
      split; [lia|]. split; [lia|]. split; [reflexivity|].
      exists 7. split; [vm_compute; reflexivity|vm_compute; discriminate].
Defined.
